(** * CLIProxyAPI: the PaCoRe streaming transcoder, the tool-intent buffer
      and the usage-statistics persistence, embedded and verified.

    Sources embedded here:
    - [internal/translator/openai/pacore/pacore_claude_response.go]
    - [internal/util/tool_intent_parser.go]
    - [internal/usage] persistence ([LoadFromFile], [SaveToFile],
      [stripRequestDetails])
    - [internal/api/handlers/management/usage.go] ([ImportUsageStatistics])

    Go strings are byte sequences: they are modelled as [list ascii]. *)

From Stdlib Require Import ZArith NArith Ascii String List Lia.
From stdpp Require Import gmap strings list.

Local Open Scope nat_scope.

Definition bytes := list ascii.

(** A Go string literal. *)
Definition B (s : string) : bytes := list_ascii_of_string s.

(* ===================================================================== *)
(** * The functions of Go's [strings], [unicode/utf8] and                *)
(** * [encoding/json] packages that the code calls                       *)
(* ===================================================================== *)

Module GoStrings.

(** [strings.HasPrefix(s, prefix)] *)
Definition HasPrefix (s prefix : bytes) : bool :=
  bool_decide (prefix `prefix_of` s).

(** [strings.HasSuffix(s, suffix)] *)
Definition HasSuffix (s suffix : bytes) : bool :=
  bool_decide (suffix `suffix_of` s).

(** [strings.Index(s, substr)]: the index of the first instance of
    [substr] in [s]; [None] stands for Go's [-1]. *)
Fixpoint Index (s substr : bytes) : option nat :=
  if HasPrefix s substr then Some 0
  else match s with
       | [] => None
       | _ :: s' => S <$> Index s' substr
       end.

(** [strings.LastIndex(s, substr)] *)
Fixpoint LastIndex (s substr : bytes) : option nat :=
  match s with
  | [] => if HasPrefix [] substr then Some 0 else None
  | _ :: s' =>
      match LastIndex s' substr with
      | Some i => Some (S i)
      | None => if HasPrefix s substr then Some 0 else None
      end
  end.

(** [strings.Contains(s, substr)] *)
Definition Contains (s substr : bytes) : bool :=
  match Index s substr with Some _ => true | None => false end.

(** ** UTF-8, as the [unicode/utf8] package reads it *)

(** The value of a byte, and the byte of a value below 256. *)
Definition byteValue (c : ascii) : N := N_of_ascii c.
Definition byteOf (n : N) : ascii := ascii_of_N n.

Definition inRange (lo hi : N) (c : ascii) : bool :=
  ((lo <=? byteValue c) && (byteValue c <=? hi))%N.

(** A byte below [utf8.RuneSelf], and a continuation byte. *)
Definition isASCII (c : ascii) : bool := (byteValue c <? 0x80)%N.
Definition isCont (c : ascii) : bool := inRange 0x80 0xBF c.

(** A string of bytes below [utf8.RuneSelf]. *)
Definition asciiOnly (s : bytes) : Prop := Forall (λ c, isASCII c = true) s.

(** The width of the encoding [s] begins with: [Some n] when
    [utf8.DecodeRuneInString(s)] returns a rune of [n] bytes, [None] when
    it returns [RuneError] with width 1 (an invalid or incomplete
    encoding) or width 0 (the empty string).  The ranges are those of the
    package's [first] and [acceptRanges] tables: no overlong encoding, no
    surrogate, nothing above U+10FFFF. *)
Definition runeWidth (s : bytes) : option nat :=
  match s with
  | [] => None
  | c0 :: s1 =>
      if isASCII c0 then Some 1
      else if inRange 0xC2 0xDF c0 then
        match s1 with
        | c1 :: _ => if isCont c1 then Some 2 else None
        | _ => None
        end
      else if inRange 0xE0 0xEF c0 then
        match s1 with
        | c1 :: c2 :: _ =>
            if (if (byteValue c0 =? 0xE0)%N then inRange 0xA0 0xBF c1
                else if (byteValue c0 =? 0xED)%N then inRange 0x80 0x9F c1
                else isCont c1) && isCont c2
            then Some 3 else None
        | _ => None
        end
      else if inRange 0xF0 0xF4 c0 then
        match s1 with
        | c1 :: c2 :: c3 :: _ =>
            if (if (byteValue c0 =? 0xF0)%N then inRange 0x90 0xBF c1
                else if (byteValue c0 =? 0xF4)%N then inRange 0x80 0x8F c1
                else isCont c1) && isCont c2 && isCont c3
            then Some 4 else None
        | _ => None
        end
      else None
  end.

(** [utf8.AppendRune] for a rune below U+10000 that is no surrogate. *)
Definition EncodeRune (r : N) : bytes :=
  (if r <? 0x80 then [byteOf r]
   else if r <? 0x800 then
     [byteOf (0xC0 + r / 0x40); byteOf (0x80 + r mod 0x40)]
   else [byteOf (0xE0 + r / 0x1000); byteOf (0x80 + (r / 0x40) mod 0x40);
         byteOf (0x80 + r mod 0x40)])%N.

(** U+FFFD, [utf8.RuneError], encoded. *)
Definition replacementChar : bytes := EncodeRune 0xFFFD.

(** The string a JSON decoder reads back from [json.Marshal(s)]: the
    encoder copies every well-formed encoding, escaped or not, and writes
    U+FFFD for each byte at which [utf8.DecodeRuneInString] returns
    [RuneError] with width 1.  [pending] counts the continuation bytes
    still to copy of the encoding being copied. *)
Fixpoint jsonStringFrom (pending : nat) (s : bytes) : bytes :=
  match s with
  | [] => []
  | c :: rest =>
      match pending with
      | S k => c :: jsonStringFrom k rest
      | 0 =>
          match runeWidth s with
          | Some w => c :: jsonStringFrom (w - 1) rest
          | None => replacementChar ++ jsonStringFrom 0 rest
          end
      end
  end.

Definition jsonString (s : bytes) : bytes := jsonStringFrom 0 s.

(** ** [strings.TrimSpace] *)

(** The runes for which [unicode.IsSpace] holds: the eight of Latin-1 and
    the [White_Space] table beyond it. *)
Definition White_Space : list N :=
  [0x09; 0x0A; 0x0B; 0x0C; 0x0D; 0x20; 0x85; 0xA0; 0x1680;
   0x2000; 0x2001; 0x2002; 0x2003; 0x2004; 0x2005; 0x2006; 0x2007; 0x2008;
   0x2009; 0x200A; 0x2028; 0x2029; 0x202F; 0x205F; 0x3000]%N.

(** The width of the white-space rune that one of [encodings] has [s]
    begin with, 0 when there is none. *)
Definition spaceWidth (encodings : list bytes) (s : bytes) : nat :=
  match List.find (HasPrefix s) encodings with
  | Some encoding => length encoding
  | None => 0
  end.

(** The white-space runes [s] begins with, removed; [skip] counts the
    bytes still to remove of the rune being removed. *)
Fixpoint trimFrom (encodings : list bytes) (skip : nat) (s : bytes) : bytes :=
  match s with
  | [] => []
  | _ :: rest =>
      match skip with
      | S k => trimFrom encodings k rest
      | 0 =>
          match spaceWidth encodings s with
          | S k => trimFrom encodings k rest
          | 0 => s
          end
      end
  end.

(** [strings.TrimLeftFunc(s, unicode.IsSpace)].  Decoding from the left
    finds a white-space rune exactly where its encoding stands: the
    encodings are well-formed, and anything else decodes to another rune
    or to [RuneError]. *)
Definition TrimLeft (s : bytes) : bytes :=
  trimFrom (map EncodeRune White_Space) 0 s.

(** [strings.TrimRightFunc(s, unicode.IsSpace)].  Decoding from the right
    ([utf8.DecodeLastRuneInString]) finds a white-space rune exactly
    where [s] ends in its encoding: the search for the start byte stops
    at the first byte of the encoding, its other bytes being continuation
    bytes. *)
Definition TrimRight (s : bytes) : bytes :=
  rev (trimFrom (map (λ r, rev (EncodeRune r)) White_Space) 0 (rev s)).

(** [strings.TrimSpace(s)]: leading and trailing white space removed, as
    Unicode defines it.  The function's two loops over ASCII white space
    are a fast path of [TrimFunc(s, unicode.IsSpace)]. *)
Definition TrimSpace (s : bytes) : bytes := TrimRight (TrimLeft s).

End GoStrings.

Import GoStrings.

(* ===================================================================== *)
(** * The PaCoRe streaming transcoder                                    *)
(* ===================================================================== *)

Module Pacore.

(** [type State int] with its three constants. *)
Inductive State := StateNormal | StateInThinking | StateInToolCall.

#[global] Instance State_eq_dec : EqDecision State.
Proof. solve_decision. Defined.

(** [PaCoReConvertParams].  [Buffer] is the [strings.Builder]'s content.
    The fields [ToolCallBlockIndexes], [ThinkingAccumulator] and
    [ToolCallAccumulator] are never read or written after construction
    and are left out.  [UUIDs] is not a field of the Go struct: it counts
    the calls made to [uuid.New] so far, so that the i-th identifier can
    be drawn from an explicit source.  Go's [int] is 64 bits wide; the
    block counter grows by one per content block and is modelled in [Z]
    without wrap-around. *)
Record PaCoReConvertParams := {
  state : State;
  Buffer : bytes;
  MessageStarted : bool;
  MessageID : bytes;
  Model : bytes;
  NextContentBlockIndex : Z;
  TextContentBlockIndex : Z;
  ThinkingContentBlockIndex : Z;
  TextContentBlockStarted : bool;
  ThinkingContentBlockStarted : bool;
  UUIDs : nat
}.

(** [ToolCallXML], the target of [xml.Unmarshal]. *)
Record ToolCallXML := {
  Name : bytes;
  Parameters : gmap bytes bytes
}.

(** The downstream events.  The Go code renders each one as an SSE frame
    [event: <kind>\ndata: <json>\n\n]; the model keeps the kind and the
    fields that [sjson.Set] fills in, as a consumer decodes them from the
    JSON.  The text of a delta is cut from the buffer at arbitrary bytes,
    and what a consumer reads is [jsonString] of the bytes handed to
    [sjson.Set]: the delta events carry that.  The ids, the model name,
    the tool name and the arguments are written whole, and the events
    carry the string handed to [sjson.Set]; a consumer reads the same
    string when it is valid UTF-8, as the text of a UUID and the results
    of [xml.Unmarshal] and [json.Marshal] are. *)
Inductive ContentBlock :=
| TextBlock
| ThinkingBlock
| ToolUseBlock (id name : bytes).

Inductive Delta :=
| TextDelta (text : bytes)
| ThinkingDelta (thinking : bytes)
| InputJsonDelta (partial_json : bytes).

Inductive Event :=
| MessageStart (id model : bytes)
| ContentBlockStart (index : Z) (content_block : ContentBlock)
| ContentBlockDelta (index : Z) (delta : Delta)
| ContentBlockStop (index : Z)
| MessageDelta (stop_reason : bytes)
| MessageStop.

#[global] Instance ContentBlock_eq_dec : EqDecision ContentBlock.
Proof. solve_decision. Defined.
#[global] Instance Delta_eq_dec : EqDecision Delta.
Proof. solve_decision. Defined.
#[global] Instance Event_eq_dec : EqDecision Event.
Proof. solve_decision. Defined.

(** What the function sees of [rawJSON] through gjson: either the bytes
    are valid JSON, and then the two lookups [choices.0.delta.content]
    and [choices.0.finish_reason] (each rendered by [.String()], empty
    when the path is absent), or they are not, and then the bytes
    themselves are the text.  The finish-reason lookup on bytes that are
    not valid JSON is only reached when the bytes are empty, where gjson
    finds nothing. *)
Inductive Chunk :=
| JSONChunk (content finish_reason : bytes)
| RawChunk (raw : bytes).

(** [chunkContent]: the content lookup when [rawJSON] is valid JSON, the
    raw text otherwise. *)
Definition chunkContentOf (rawJSON : Chunk) : bytes :=
  match rawJSON with
  | JSONChunk content _ => content
  | RawChunk raw => raw
  end.

(** [finishReason], looked up when [chunkContent] is empty. *)
Definition finishReasonOf (rawJSON : Chunk) : bytes :=
  match rawJSON with
  | JSONChunk _ finish_reason => finish_reason
  | RawChunk _ => []
  end.

(** Field updates of the parameter record. *)
Definition setState (s : State) (p : PaCoReConvertParams) :=
  {| state := s; Buffer := Buffer p; MessageStarted := MessageStarted p;
     MessageID := MessageID p; Model := Model p;
     NextContentBlockIndex := NextContentBlockIndex p;
     TextContentBlockIndex := TextContentBlockIndex p;
     ThinkingContentBlockIndex := ThinkingContentBlockIndex p;
     TextContentBlockStarted := TextContentBlockStarted p;
     ThinkingContentBlockStarted := ThinkingContentBlockStarted p;
     UUIDs := UUIDs p |}.

Definition setBuffer (b : bytes) (p : PaCoReConvertParams) :=
  {| state := state p; Buffer := b; MessageStarted := MessageStarted p;
     MessageID := MessageID p; Model := Model p;
     NextContentBlockIndex := NextContentBlockIndex p;
     TextContentBlockIndex := TextContentBlockIndex p;
     ThinkingContentBlockIndex := ThinkingContentBlockIndex p;
     TextContentBlockStarted := TextContentBlockStarted p;
     ThinkingContentBlockStarted := ThinkingContentBlockStarted p;
     UUIDs := UUIDs p |}.

Definition setMessage (id model : bytes) (p : PaCoReConvertParams) :=
  {| state := state p; Buffer := Buffer p; MessageStarted := true;
     MessageID := id; Model := model;
     NextContentBlockIndex := NextContentBlockIndex p;
     TextContentBlockIndex := TextContentBlockIndex p;
     ThinkingContentBlockIndex := ThinkingContentBlockIndex p;
     TextContentBlockStarted := TextContentBlockStarted p;
     ThinkingContentBlockStarted := ThinkingContentBlockStarted p;
     UUIDs := S (UUIDs p) |}.

Definition setNext (n : Z) (p : PaCoReConvertParams) :=
  {| state := state p; Buffer := Buffer p; MessageStarted := MessageStarted p;
     MessageID := MessageID p; Model := Model p;
     NextContentBlockIndex := n;
     TextContentBlockIndex := TextContentBlockIndex p;
     ThinkingContentBlockIndex := ThinkingContentBlockIndex p;
     TextContentBlockStarted := TextContentBlockStarted p;
     ThinkingContentBlockStarted := ThinkingContentBlockStarted p;
     UUIDs := UUIDs p |}.

Definition setText (i : Z) (started : bool) (p : PaCoReConvertParams) :=
  {| state := state p; Buffer := Buffer p; MessageStarted := MessageStarted p;
     MessageID := MessageID p; Model := Model p;
     NextContentBlockIndex := NextContentBlockIndex p;
     TextContentBlockIndex := i;
     ThinkingContentBlockIndex := ThinkingContentBlockIndex p;
     TextContentBlockStarted := started;
     ThinkingContentBlockStarted := ThinkingContentBlockStarted p;
     UUIDs := UUIDs p |}.

Definition setThinking (i : Z) (started : bool) (p : PaCoReConvertParams) :=
  {| state := state p; Buffer := Buffer p; MessageStarted := MessageStarted p;
     MessageID := MessageID p; Model := Model p;
     NextContentBlockIndex := NextContentBlockIndex p;
     TextContentBlockIndex := TextContentBlockIndex p;
     ThinkingContentBlockIndex := i;
     TextContentBlockStarted := TextContentBlockStarted p;
     ThinkingContentBlockStarted := started;
     UUIDs := UUIDs p |}.

Definition drawUUID (p : PaCoReConvertParams) :=
  {| state := state p; Buffer := Buffer p; MessageStarted := MessageStarted p;
     MessageID := MessageID p; Model := Model p;
     NextContentBlockIndex := NextContentBlockIndex p;
     TextContentBlockIndex := TextContentBlockIndex p;
     ThinkingContentBlockIndex := ThinkingContentBlockIndex p;
     TextContentBlockStarted := TextContentBlockStarted p;
     ThinkingContentBlockStarted := ThinkingContentBlockStarted p;
     UUIDs := S (UUIDs p) |}.

(** The value [PaCoReToClaudeResponse] stores in [*param] when it is nil. *)
Definition newParams : PaCoReConvertParams :=
  {| state := StateNormal; Buffer := []; MessageStarted := false;
     MessageID := []; Model := [];
     NextContentBlockIndex := 0;
     TextContentBlockIndex := -1;
     ThinkingContentBlockIndex := -1;
     TextContentBlockStarted := false;
     ThinkingContentBlockStarted := false;
     UUIDs := 0 |}.

Definition tagThinkingStart : bytes := B "<thinking>".
Definition tagThinkingEnd : bytes := B "</thinking>".
Definition tagToolCallStart : bytes := B "<tool_call>".
Definition tagToolCallEnd : bytes := B "</tool_call>".

(** [isPartialTag]: some [tag[:i]] with [1 <= i < len(tag)] is a suffix
    of [s]. *)
Definition tags : list bytes :=
  [tagThinkingStart; tagThinkingEnd; tagToolCallStart; tagToolCallEnd].

Definition isPartialTag (s : bytes) : bool :=
  existsb (fun tag =>
    existsb (fun i => HasSuffix s (take i tag)) (seq 1 (length tag - 1)))
    tags.

(** The start tag that comes first in [content], as the [StateNormal]
    case of [processBuffer] determines it: [(firstTagIdx, tagType)], with
    [true] for "thinking" and [false] for "tool"; [None] stands for
    [firstTagIdx == -1]. *)
Definition firstTag (content : bytes) : option (nat * bool) :=
  let thinkIdx := Index content tagThinkingStart in
  let toolIdx := Index content tagToolCallStart in
  match thinkIdx, toolIdx with
  | Some i, None => Some (i, true)
  | Some i, Some j => if i <? j then Some (i, true) else Some (j, false)
  | None, Some j => Some (j, false)
  | None, None => None
  end.

Section Transcoder.

(** The library calls whose results the transcoder only passes
    on: [xml.Unmarshal] into a [ToolCallXML] ([None] when it returns
    an error), [json.Marshal] of the parameter map, and the source of
    [uuid.New().String()] values. *)
Variable xmlUnmarshal : bytes -> option ToolCallXML.
Variable jsonMarshal : gmap bytes bytes -> bytes.
Variable uuidNew : nat -> bytes.

(** A function that mutates [p] and appends to [*results] returns the
    new parameters and the events it appended. *)
Definition Emit := PaCoReConvertParams -> PaCoReConvertParams * list Event.

Definition andThen (f g : Emit) : Emit :=
  fun p => let '(p1, e1) := f p in
           let '(p2, e2) := g p1 in (p2, e1 ++ e2).
Local Infix ">>>" := andThen (at level 62, right associativity).

Definition emit (e : PaCoReConvertParams -> Event) : Emit :=
  fun p => (p, [e p]).
Definition modify (f : PaCoReConvertParams -> PaCoReConvertParams) : Emit :=
  fun p => (f p, []).
Definition when (c : PaCoReConvertParams -> bool) (f : Emit) : Emit :=
  fun p => if c p then f p else (p, []).

Definition stopTextBlock : Emit :=
  fun p =>
    if negb (TextContentBlockStarted p) then (p, [])
    else (setText (-1) false p, [ContentBlockStop (TextContentBlockIndex p)]).

Definition stopThinkingBlock : Emit :=
  fun p =>
    if negb (ThinkingContentBlockStarted p) then (p, [])
    else (setThinking (-1) false p,
          [ContentBlockStop (ThinkingContentBlockIndex p)]).

Definition emitTextDelta (text : bytes) : Emit :=
  fun p =>
    if bool_decide (text = []) then (p, [])
    else
      (when (fun p => negb (TextContentBlockStarted p))
         (when (fun p => bool_decide (TextContentBlockIndex p = (-1)%Z))
            (fun p => (setNext (NextContentBlockIndex p + 1)
                         (setText (NextContentBlockIndex p)
                            (TextContentBlockStarted p) p), [])) >>>
          emit (fun p => ContentBlockStart (TextContentBlockIndex p) TextBlock) >>>
          modify (fun p => setText (TextContentBlockIndex p) true p)) >>>
       emit (fun p => ContentBlockDelta (TextContentBlockIndex p)
                        (TextDelta (jsonString text)))) p.

Definition startThinkingBlock : Emit :=
  when TextContentBlockStarted stopTextBlock >>>
  when (fun p => bool_decide (ThinkingContentBlockIndex p = (-1)%Z))
    (fun p => (setNext (NextContentBlockIndex p + 1)
                 (setThinking (NextContentBlockIndex p)
                    (ThinkingContentBlockStarted p) p), [])) >>>
  emit (fun p => ContentBlockStart (ThinkingContentBlockIndex p) ThinkingBlock) >>>
  modify (fun p => setThinking (ThinkingContentBlockIndex p) true p).

Definition emitThinkingDelta (text : bytes) : Emit :=
  fun p =>
    if bool_decide (text = []) then (p, [])
    else
      (when (fun p => negb (ThinkingContentBlockStarted p)) startThinkingBlock >>>
       emit (fun p => ContentBlockDelta (ThinkingContentBlockIndex p)
                        (ThinkingDelta (jsonString text)))) p.

Definition emitToolCall (toolCall : ToolCallXML) : Emit :=
  when TextContentBlockStarted stopTextBlock >>>
  when ThinkingContentBlockStarted stopThinkingBlock >>>
  (fun p =>
     let blockIndex := NextContentBlockIndex p in
     let id := B "call_" ++ uuidNew (UUIDs p) in
     (drawUUID (setNext (blockIndex + 1) p),
      [ContentBlockStart blockIndex (ToolUseBlock id (Name toolCall));
       ContentBlockDelta blockIndex
         (InputJsonDelta (jsonMarshal (Parameters toolCall)));
       ContentBlockStop blockIndex])).

Definition handleFinish (reason : bytes) : Emit :=
  when ThinkingContentBlockStarted stopThinkingBlock >>>
  when TextContentBlockStarted stopTextBlock >>>
  emit (fun _ => MessageDelta
                   (if bool_decide (reason = B "tool_calls")
                    then B "tool_use" else B "end_turn")) >>>
  emit (fun _ => MessageStop).

(** One iteration of the [for p.Buffer.Len() > 0] loop of
    [processBuffer], entered with a non-empty buffer.  The boolean tells
    whether the loop goes on ([true]) or the function returns. *)
Definition loopBody (p : PaCoReConvertParams)
  : PaCoReConvertParams * list Event * bool :=
  let content := Buffer p in
  match state p with
  | StateNormal =>
      match firstTag content with
      | Some (firstTagIdx, isThinking) =>
          let '(p1, e1) :=
            if 0 <? firstTagIdx then emitTextDelta (take firstTagIdx content) p
            else (p, []) in
          if isThinking then
            let '(p2, e2) :=
              startThinkingBlock
                (setBuffer (drop (firstTagIdx + length tagThinkingStart) content)
                   (setState StateInThinking p1)) in
            (p2, e1 ++ e2, true)
          else
            (setBuffer (drop (firstTagIdx + length tagToolCallStart) content)
               (setState StateInToolCall p1), e1, true)
      | None =>
          if isPartialTag content then
            if 15 <? length content then
              let '(p1, e1) :=
                emitTextDelta (take (length content - 15) content) p in
              (setBuffer (drop (length content - 15) content) p1, e1, false)
            else (p, [], false)
          else
            let '(p1, e1) := emitTextDelta content p in
            (setBuffer [] p1, e1, false)
      end
  | StateInThinking =>
      match Index content tagThinkingEnd with
      | Some endIdx =>
          let '(p1, e1) :=
            (emitThinkingDelta (take endIdx content) >>> stopThinkingBlock) p in
          (setBuffer (drop (endIdx + length tagThinkingEnd) content)
             (setState StateNormal p1), e1, true)
      | None =>
          if isPartialTag content then
            if 15 <? length content then
              let '(p1, e1) :=
                emitThinkingDelta (take (length content - 15) content) p in
              (setBuffer (drop (length content - 15) content) p1, e1, false)
            else (p, [], false)
          else
            let '(p1, e1) := emitThinkingDelta content p in
            (setBuffer [] p1, e1, false)
      end
  | StateInToolCall =>
      match Index content tagToolCallEnd with
      | Some endIdx =>
          let xmlStr := take endIdx content in
          let fullXML := tagToolCallStart ++ xmlStr ++ tagToolCallEnd in
          let '(p1, e1) :=
            match xmlUnmarshal fullXML with
            | Some toolCall => emitToolCall toolCall p
            | None => (p, [])
            end in
          (setBuffer (drop (endIdx + length tagToolCallEnd) content)
             (setState StateNormal p1), e1, true)
      | None => (p, [], false)
      end
  end.

(** The loop.  An iteration that goes on has consumed a tag, so the
    buffer length bounds the number of iterations: [fuel] starts at
    the buffer length and cannot run out while the buffer is not
    empty ([processLoop_fuel] below). *)
Fixpoint processLoop (fuel : nat) (p : PaCoReConvertParams)
  : PaCoReConvertParams * list Event :=
  match Buffer p with
  | [] => (p, [])
  | _ :: _ =>
      match fuel with
      | 0 => (p, [])
      | S fuel' =>
          let '(p1, e1, continue) := loopBody p in
          if continue then
            let '(p2, e2) := processLoop fuel' p1 in (p2, e1 ++ e2)
          else (p1, e1)
      end
  end.

Definition processBuffer : Emit :=
  fun p => processLoop (length (Buffer p)) p.

(** [PaCoReToClaudeResponse(ctx, model, _, _, rawJSON, param)]: the new
    [*param] and the returned events. *)
Definition PaCoReToClaudeResponse (model : bytes) (rawJSON : Chunk)
    (param : option PaCoReConvertParams)
  : PaCoReConvertParams * list Event :=
  let p := match param with Some p => p | None => newParams end in
  let '(p, results) :=
    if negb (MessageStarted p) then
      let id := B "msg_" ++ uuidNew (UUIDs p) in
      (setMessage id model p, [MessageStart id model])
    else (p, []) in
  let chunkContent := chunkContentOf rawJSON in
  if bool_decide (chunkContent = []) then
    let finishReason := finishReasonOf rawJSON in
    if negb (bool_decide (finishReason = [])) then handleFinish finishReason p
    else (p, results)
  else
    let '(p', e) := processBuffer (setBuffer (Buffer p ++ chunkContent) p) in
    (p', results ++ e).

(** A stream: the calls made for its chunks, in order, on one shared
    [param], and the concatenation of the returned events. *)
Fixpoint feed (model : bytes) (chunks : list Chunk)
    (param : option PaCoReConvertParams)
  : option PaCoReConvertParams * list Event :=
  match chunks with
  | [] => (param, [])
  | c :: rest =>
      let '(p, e) := PaCoReToClaudeResponse model c param in
      let '(param', e') := feed model rest (Some p) in
      (param', e ++ e')
  end.

Definition stream (model : bytes) (chunks : list Chunk) : list Event :=
  snd (feed model chunks None).

End Transcoder.

(** ** What a consumer reads off the event stream *)

(** The [delta.text] field of a [text_delta] event (empty otherwise). *)
Definition textOf (e : Event) : bytes :=
  match e with ContentBlockDelta _ (TextDelta t) => t | _ => [] end.

(** The [delta.thinking] field of a [thinking_delta] event. *)
Definition thinkingOf (e : Event) : bytes :=
  match e with ContentBlockDelta _ (ThinkingDelta t) => t | _ => [] end.

Definition visibleText (events : list Event) : bytes :=
  concat (map textOf events).

Definition visibleThinking (events : list Event) : bytes :=
  concat (map thinkingOf events).

Definition isMessageStart (e : Event) : bool :=
  match e with MessageStart _ _ => true | _ => false end.

Definition isStop (i : Z) (e : Event) : bool :=
  match e with ContentBlockStop j => bool_decide (i = j) | _ => false end.

Definition isStart (i : Z) (e : Event) : bool :=
  match e with ContentBlockStart j _ => bool_decide (i = j) | _ => false end.

(** Number of [content_block_stop] events with index [i]. *)
Definition countStops (i : Z) (events : list Event) : nat :=
  length (filter (fun e => isStop i e = true) events).

(** The bytes a transcoder still holds back as possible text, and as
    possible thinking. *)
Definition pendingText (p : PaCoReConvertParams) : bytes :=
  match state p with StateNormal => Buffer p | _ => [] end.

Definition pendingThinking (p : PaCoReConvertParams) : bytes :=
  match state p with StateInThinking => Buffer p | _ => [] end.

Definition pendingToolCall (p : PaCoReConvertParams) : bytes :=
  match state p with StateInToolCall => Buffer p | _ => [] end.

(** ** The regions of a complete input, following the specification

    The input is cut, from the left, at the earliest start tag and at the
    first matching end tag after it.  [outside] is the text outside the
    [<thinking>...</thinking>] and [<tool_call>...</tool_call>] regions,
    [inside] the text inside the thinking regions; a region whose end tag
    never comes extends to the end of the input.  [final] and [open] are
    the region the input ends in and, for an unterminated tool call, its
    body so far. *)
Record Regions := {
  outside : bytes;
  inside : bytes;
  final : State;
  open : bytes
}.

Definition addOutside (t : bytes) (r : Regions) : Regions :=
  {| outside := t ++ outside r; inside := inside r;
     final := final r; open := open r |}.

Definition addInside (t : bytes) (r : Regions) : Regions :=
  {| outside := outside r; inside := t ++ inside r;
     final := final r; open := open r |}.

(** The input ends in state [st] with [s] left and no further tag. *)
Definition lastRegion (st : State) (s : bytes) : Regions :=
  match st with
  | StateNormal =>
      {| outside := s; inside := []; final := StateNormal; open := [] |}
  | StateInThinking =>
      {| outside := []; inside := s; final := StateInThinking; open := [] |}
  | StateInToolCall =>
      {| outside := []; inside := []; final := StateInToolCall; open := s |}
  end.

Fixpoint regionsFrom (fuel : nat) (st : State) (s : bytes) : Regions :=
  match fuel with
  | 0 => lastRegion st s
  | S fuel' =>
      match st with
      | StateNormal =>
          match firstTag s with
          | Some (i, true) =>
              addOutside (take i s)
                (regionsFrom fuel' StateInThinking
                   (drop (i + length tagThinkingStart) s))
          | Some (i, false) =>
              addOutside (take i s)
                (regionsFrom fuel' StateInToolCall
                   (drop (i + length tagToolCallStart) s))
          | None => lastRegion StateNormal s
          end
      | StateInThinking =>
          match Index s tagThinkingEnd with
          | Some i =>
              addInside (take i s)
                (regionsFrom fuel' StateNormal
                   (drop (i + length tagThinkingEnd) s))
          | None => lastRegion StateInThinking s
          end
      | StateInToolCall =>
          match Index s tagToolCallEnd with
          | Some i =>
              regionsFrom fuel' StateNormal
                (drop (i + length tagToolCallEnd) s)
          | None => lastRegion StateInToolCall s
          end
      end
  end.

(** Every step of [regionsFrom] that recurses has removed a tag, so the
    length of the input is fuel enough ([regionsFrom_fuel] below). *)
Definition regions (input : bytes) : Regions :=
  regionsFrom (length input) StateNormal input.

(** The chunk is not one that [PaCoReToClaudeResponse] hands to
    [handleFinish]: it has content, or it has no finish reason. *)
Definition handledAsText (c : Chunk) : Prop :=
  chunkContentOf c ≠ [] ∨ finishReasonOf c = [].

(** The input text a sequence of chunks delivers. *)
Definition inputOf (chunks : list Chunk) : bytes :=
  concat (map chunkContentOf chunks).

(** A chunk that carries only a [finish_reason]. *)
Definition finishChunk (reason : bytes) : Chunk := JSONChunk [] reason.


(** ** Definitions used by the proofs *)

(** A tag position moved [k] bytes to the right. *)
Definition shiftTag (k : nat) (o : option (nat * bool)) : option (nat * bool) :=
  (λ '(i, b), (k + i, b)) <$> o.

(** The regions of [s] read from state [st], with fuel enough. *)
Definition regionsIn (st : State) (s : bytes) : Regions :=
  regionsFrom (length s) st s.

(** One step of [regionsFrom], with [regionsIn] for what follows. *)
Definition regionsStep (st : State) (s : bytes) : Regions :=
  match st with
  | StateNormal =>
      match firstTag s with
      | Some (i, true) =>
          addOutside (take i s)
            (regionsIn StateInThinking (drop (i + length tagThinkingStart) s))
      | Some (i, false) =>
          addOutside (take i s)
            (regionsIn StateInToolCall (drop (i + length tagToolCallStart) s))
      | None => lastRegion StateNormal s
      end
  | StateInThinking =>
      match Index s tagThinkingEnd with
      | Some i =>
          addInside (take i s)
            (regionsIn StateNormal (drop (i + length tagThinkingEnd) s))
      | None => lastRegion StateInThinking s
      end
  | StateInToolCall =>
      match Index s tagToolCallEnd with
      | Some i => regionsIn StateNormal (drop (i + length tagToolCallEnd) s)
      | None => lastRegion StateInToolCall s
      end
  end.

(** [f] emits text [txt] and thinking [th] and leaves the parser state
    and the buffer alone. *)
Definition emits (f : Emit) (txt th : bytes) : Prop :=
  ∀ p, visibleText (f p).2 = txt ∧ visibleThinking (f p).2 = th ∧
       state (f p).1 = state p ∧ Buffer (f p).1 = Buffer p.

(** Whether the block with index [i] is the open text or thinking block. *)
Definition isOpen (p : PaCoReConvertParams) (i : Z) : bool :=
  (TextContentBlockStarted p && bool_decide (i = TextContentBlockIndex p))
  || (ThinkingContentBlockStarted p && bool_decide (i = ThinkingContentBlockIndex p)).

(** The block bookkeeping is consistent: an open block has an index below
    the counter, a closed one the index [-1], and the two open blocks
    differ. *)
Definition blocksOK (p : PaCoReConvertParams) : Prop :=
  (0 ≤ NextContentBlockIndex p)%Z ∧
  (if TextContentBlockStarted p
   then (0 ≤ TextContentBlockIndex p < NextContentBlockIndex p)%Z
   else TextContentBlockIndex p = (-1)%Z) ∧
  (if ThinkingContentBlockStarted p
   then (0 ≤ ThinkingContentBlockIndex p < NextContentBlockIndex p)%Z
   else ThinkingContentBlockIndex p = (-1)%Z) ∧
  (TextContentBlockStarted p = true → ThinkingContentBlockStarted p = true →
   TextContentBlockIndex p ≠ ThinkingContentBlockIndex p).

(** Every [content_block_start] in [events] has an index in [0, n) and is
    followed by no [content_block_stop] of its index if the block is
    open, by exactly one if it is not. *)
Fixpoint wellPaired (o : Z → bool) (n : Z) (events : list Event) : Prop :=
  match events with
  | [] => True
  | e :: post =>
      match e with
      | ContentBlockStart i _ =>
          (0 ≤ i < n)%Z ∧ countStops i post = (if o i then 0 else 1)
      | _ => True
      end ∧ wellPaired o n post
  end.

Definition paired (p : PaCoReConvertParams) (events : list Event) : Prop :=
  blocksOK p ∧ wellPaired (isOpen p) (NextContentBlockIndex p) events.

(** [f] keeps the pairing of the events so far, extended by its own. *)
Definition keepsPairing (f : Emit) : Prop :=
  ∀ p events, paired p events → paired (f p).1 (events ++ (f p).2).

(** [f] leaves [MessageStarted] alone and emits no [message_start]. *)
Definition keepsMessage (f : Emit) : Prop :=
  ∀ p, MessageStarted (f p).1 = MessageStarted p ∧
       Forall (λ e, isMessageStart e = false) (f p).2.

(** Stand-ins for the library calls, for running the transcoder on
    concrete streams: every [<tool_call>] body decodes to a call of
    ["weather"] without parameters, the parameter map renders as [{}],
    and the i-th UUID is ["uuid"]. *)
Definition xmlWeather (xml : bytes) : option ToolCallXML :=
  Some {| Name := B "weather"; Parameters := ∅ |}.
Definition jsonEmpty (m : gmap bytes bytes) : bytes := B "{}".
Definition uuidConst (n : nat) : bytes := B "uuid".

(** ** Predicates for the facts about what is withheld and emitted *)

(** What a transcoder may hold back between two calls: inside a tool call
    anything, otherwise at most 15 bytes that end in a beginning of a tag. *)
Definition holdsBackLittle (p : PaCoReConvertParams) : Prop :=
  state p = StateInToolCall ∨
  (length (Buffer p) ≤ 15 ∧ (Buffer p = [] ∨ isPartialTag (Buffer p) = true)).

(** What a consumer reads when each chunk's content is written on its own:
    the contents in order, each through [jsonString]. *)
Definition writtenOf (chunks : list Chunk) : bytes :=
  concat (map (λ c, jsonString (chunkContentOf c)) chunks).

(** A delta that carries no complete tag of the kind its state looks for:
    no start tag in a text delta, no [</thinking>] in a thinking delta. *)
Definition tagFree (e : Event) : Prop :=
  match e with
  | ContentBlockDelta _ (TextDelta t) => firstTag t = None
  | ContentBlockDelta _ (ThinkingDelta t) => Index t tagThinkingEnd = None
  | _ => True
  end.


(** ** The protocol of content blocks, as a consumer checks it

    A consumer keeps the block that is open, if any, and the index the next
    block must have.  A [content_block_start] is accepted when no block is
    open and its index is the next one; a delta or a [content_block_stop]
    when it carries the index of the open block.  [None] is a violation. *)
Definition trackEvent (st : option Z * Z) (e : Event) : option (option Z * Z) :=
  match e with
  | ContentBlockStart i _ =>
      if bool_decide (st.1 = None ∧ i = st.2) then Some (Some i, (st.2 + 1)%Z)
      else None
  | ContentBlockDelta i _ =>
      if bool_decide (st.1 = Some i) then Some st else None
  | ContentBlockStop i =>
      if bool_decide (st.1 = Some i) then Some (None, st.2) else None
  | _ => Some st
  end.

Fixpoint trackEvents (st : option Z * Z) (events : list Event)
  : option (option Z * Z) :=
  match events with
  | [] => Some st
  | e :: rest =>
      match trackEvent st e with
      | Some st' => trackEvents st' rest
      | None => None
      end
  end.

(** The block the parameters say is open. *)
Definition openBlock (p : PaCoReConvertParams) : option Z :=
  if TextContentBlockStarted p then Some (TextContentBlockIndex p)
  else if ThinkingContentBlockStarted p then Some (ThinkingContentBlockIndex p)
  else None.

(** A closed block has the index [-1]; a thinking block is open only in
    [StateInThinking], a text block only outside it. *)
Definition blocksFollowState (p : PaCoReConvertParams) : Prop :=
  (TextContentBlockStarted p = false → TextContentBlockIndex p = (-1)%Z) ∧
  (ThinkingContentBlockStarted p = false → ThinkingContentBlockIndex p = (-1)%Z) ∧
  (ThinkingContentBlockStarted p = true → state p = StateInThinking) ∧
  (TextContentBlockStarted p = true → state p ≠ StateInThinking).

(** The events so far follow the protocol and end in the block and the
    counter of [p]. *)
Definition tracked (p : PaCoReConvertParams) (events : list Event) : Prop :=
  blocksFollowState p ∧
  trackEvents (None, 0%Z) events = Some (openBlock p, NextContentBlockIndex p).

(** What an emitting function does to the open block, from the open block
    and the counter it finds: the protocol is followed, the state and the
    flags of the other kind of block are as stated. *)
Definition follows (p p' : PaCoReConvertParams) (e : list Event) : Prop :=
  trackEvents (openBlock p, NextContentBlockIndex p) e
    = Some (openBlock p', NextContentBlockIndex p') ∧
  state p' = state p ∧
  (TextContentBlockStarted p' = false → TextContentBlockIndex p' = (-1)%Z) ∧
  (ThinkingContentBlockStarted p' = false → ThinkingContentBlockIndex p' = (-1)%Z).

Definition closedOK (p : PaCoReConvertParams) : Prop :=
  (TextContentBlockStarted p = false → TextContentBlockIndex p = (-1)%Z) ∧
  (ThinkingContentBlockStarted p = false → ThinkingContentBlockIndex p = (-1)%Z).

(** ** The chunks as gjson reads them *)

Section Gjson.
Variable ValidBytes : bytes -> bool.
Variable GetString : bytes -> bytes -> bytes.

(** The chunk that [rawJSON] is to [PaCoReToClaudeResponse], given
    [gjson.ValidBytes] and [gjson.GetBytes(json, path).String()]: bytes
    that are valid JSON count for their [choices.0.delta.content] only,
    whatever else they hold. *)
Definition chunkOf (rawJSON : bytes) : Chunk :=
  if ValidBytes rawJSON then
    JSONChunk (GetString rawJSON (B "choices.0.delta.content"))
              (GetString rawJSON (B "choices.0.finish_reason"))
  else RawChunk rawJSON.
End Gjson.

(** ** The events up to the cutting of text into deltas *)

(** [e] put before events in which adjacent deltas are merged: a text
    delta joins a text delta of the same block that follows it at once,
    and likewise a thinking delta. *)
Definition glue (e : Event) (merged : list Event) : list Event :=
  match e, merged with
  | ContentBlockDelta i (TextDelta x), ContentBlockDelta j (TextDelta y) :: rest =>
      if bool_decide (i = j) then ContentBlockDelta i (TextDelta (x ++ y)) :: rest
      else e :: merged
  | ContentBlockDelta i (ThinkingDelta x),
    ContentBlockDelta j (ThinkingDelta y) :: rest =>
      if bool_decide (i = j) then ContentBlockDelta i (ThinkingDelta (x ++ y)) :: rest
      else e :: merged
  | _, _ => e :: merged
  end.

(** The events with every run of adjacent text deltas of one block merged
    into one delta, and likewise the thinking deltas. *)
Fixpoint mergeDeltas (events : list Event) : list Event :=
  match events with
  | [] => []
  | e :: rest => glue e (mergeDeltas rest)
  end.

(** What the transcoder would emit if it gave up waiting: the buffer as a
    last delta of the text or the thinking it may belong to. *)
Definition flushPending : Emit :=
  fun p =>
    match state p with
    | StateNormal => emitTextDelta (Buffer p) p
    | StateInThinking => emitThinkingDelta (Buffer p) p
    | StateInToolCall => (p, [])
    end.

(** A run brought to a common form: its events followed by the delta that
    flushes the buffer, with adjacent deltas merged; the parser state; the
    body of a tool call still open. *)
Definition completed (result : option PaCoReConvertParams * list Event)
  : list Event * State * bytes :=
  let p := default newParams result.1 in
  (mergeDeltas (result.2 ++ (flushPending p).2), state p, pendingToolCall p).

Section Reference.
Variable xmlUnmarshal : bytes -> option ToolCallXML.
Variable jsonMarshal : gmap bytes bytes -> bytes.
Variable uuidNew : nat -> bytes.

(** The transcoder on a complete input [s], where nothing has to be
    withheld: the events of one step, [rec] giving those of the input
    after the tag that the step consumes. *)
Definition idealBody (rec : bytes → PaCoReConvertParams → list Event)
    (s : bytes) (p : PaCoReConvertParams) : list Event :=
  match state p with
  | StateNormal =>
      match firstTag s with
      | Some (i, isThinking) =>
          let '(p1, e1) := emitTextDelta (take i s) p in
          if isThinking then
            let '(p2, e2) := startThinkingBlock (setState StateInThinking p1) in
            e1 ++ e2 ++ rec (drop (i + length tagThinkingStart) s) p2
          else
            e1 ++ rec (drop (i + length tagToolCallStart) s)
                    (setState StateInToolCall p1)
      | None => (emitTextDelta s p).2
      end
  | StateInThinking =>
      match Index s tagThinkingEnd with
      | Some i =>
          let '(p1, e1) := andThen (emitThinkingDelta (take i s)) stopThinkingBlock p in
          e1 ++ rec (drop (i + length tagThinkingEnd) s) (setState StateNormal p1)
      | None => (emitThinkingDelta s p).2
      end
  | StateInToolCall =>
      match Index s tagToolCallEnd with
      | Some i =>
          let '(p1, e1) :=
            match xmlUnmarshal (tagToolCallStart ++ take i s ++ tagToolCallEnd) with
            | Some toolCall => emitToolCall jsonMarshal uuidNew toolCall p
            | None => (p, [])
            end in
          e1 ++ rec (drop (i + length tagToolCallEnd) s) (setState StateNormal p1)
      | None => []
      end
  end.

Fixpoint idealFrom (fuel : nat) (s : bytes) (p : PaCoReConvertParams) : list Event :=
  match fuel with
  | 0 => idealBody (λ _ _, []) s p
  | S fuel' => idealBody (idealFrom fuel') s p
  end.

(** Every step that recurses has removed a tag: the length of the input
    is fuel enough. *)
Definition idealIn (s : bytes) (p : PaCoReConvertParams) : list Event :=
  idealFrom (length s) s p.
End Reference.

(** [f] neither reads nor writes the buffer. *)
Definition blind (f : Emit) : Prop :=
  ∀ b p, f (setBuffer b p) = (setBuffer b (f p).1, (f p).2).

(** The buffer holds no tag that the state waits for. *)
Definition settled (p : PaCoReConvertParams) : Prop :=
  match state p with
  | StateNormal => firstTag (Buffer p) = None
  | StateInThinking => Index (Buffer p) tagThinkingEnd = None
  | StateInToolCall => Index (Buffer p) tagToolCallEnd = None
  end.

End Pacore.

(* ===================================================================== *)
(** * The tool-intent parser and its streaming buffer                    *)
(* ===================================================================== *)

Module ToolIntents.

(** [ToolIntent].  The only key ever stored in [Arguments] is
    ["question"], with a string value. *)
Record ToolIntent := {
  Name : bytes;
  Arguments : gmap bytes bytes;
  Raw : bytes
}.

Definition openTag (tag : bytes) : bytes := B "<" ++ tag ++ B ">".
Definition closeTag (tag : bytes) : bytes := B "</" ++ tag ++ B ">".

(** [extractTagValue(raw, tag)] *)
Definition extractTagValue (raw tag : bytes) : bytes :=
  match Index raw (openTag tag) with
  | None => []
  | Some start =>
      let start := start + length (openTag tag) in
      match Index (drop start raw) (closeTag tag) with
      | None => []
      | Some end_ => take end_ (drop start raw)
      end
  end.

(** [findTagBlock(input, tag)]: [None] stands for the result
    [(-1, -1, "")], otherwise [(start, end, input[start:end])]. *)
Definition findTagBlock (input tag : bytes) : option (nat * nat * bytes) :=
  match Index input (openTag tag) with
  | None => None
  | Some start =>
      match Index (drop start input) (closeTag tag) with
      | None => None
      | Some end_ =>
          let end_ := start + end_ + length (closeTag tag) in
          Some (start, end_, take (end_ - start) (drop start input))
      end
  end.

(** The [for] loop of [ParseToolIntents].  Each iteration that goes on
    removes a block from [remaining], so its length bounds the number of
    iterations ([parseLoop_fuel] below). *)
Fixpoint parseLoop (fuel : nat) (remaining : bytes) (intents : list ToolIntent)
  : bytes * list ToolIntent :=
  match findTagBlock remaining (B "websearch") with
  | None => (remaining, intents)
  | Some (start, end_, raw) =>
      match fuel with
      | 0 => (remaining, intents)
      | S fuel' =>
          let question := extractTagValue raw (B "question") in
          let intents :=
            if negb (bool_decide (question = [])) then
              intents ++ [{| Name := B "websearch";
                             Arguments := {[ B "question" := TrimSpace question ]};
                             Raw := raw |}]
            else intents in
          parseLoop fuel' (take start remaining ++ drop end_ remaining) intents
      end
  end.

(** [ParseToolIntents(text)] *)
Definition ParseToolIntents (text : bytes) : bytes * list ToolIntent :=
  parseLoop (length text) text [].

(** [splitFlushable(text)]: [(flushable, keep)]. *)
Definition splitFlushable (text : bytes) : bytes * bytes :=
  let fallback :=
    match LastIndex text (B "<") with
    | None => (text, [])
    | Some idx =>
        if Contains (drop idx text) (B ">") then (text, [])
        else (take idx text, drop idx text)
    end in
  match Index text (B "<websearch>") with
  | Some websearchStart =>
      match Index (drop websearchStart text) (B "</websearch>") with
      | None => (take websearchStart text, drop websearchStart text)
      | Some websearchEnd =>
          let afterComplete :=
            websearchStart + websearchEnd + length (B "</websearch>") in
          if afterComplete <? length text then
            match Index (drop afterComplete text) (B "<websearch>") with
            | Some nextWebsearchStart =>
                (take (afterComplete + nextWebsearchStart) text,
                 drop (afterComplete + nextWebsearchStart) text)
            | None => fallback
            end
          else fallback
      end
  | None => fallback
  end.

(** [ToolIntentBuffer]: the [strings.Builder]'s content and the cap. *)
Record ToolIntentBuffer := {
  buffer : bytes;
  maxBuffer : Z
}.

Definition NewToolIntentBuffer : ToolIntentBuffer :=
  {| buffer := []; maxBuffer := 8192%Z |}.

(** [(b *ToolIntentBuffer).Feed(text)]: the buffer after the call, the
    flushable text and the intents. *)
Definition Feed (b : ToolIntentBuffer) (text : bytes)
  : ToolIntentBuffer * bytes * list ToolIntent :=
  if bool_decide (text = []) then (b, [], [])
  else
    let combined := buffer b ++ text in
    let '(remaining, intents) := ParseToolIntents combined in
    let '(flushable, keep) := splitFlushable remaining in
    if (maxBuffer b <? Z.of_nat (length keep))%Z then
      ({| buffer := []; maxBuffer := maxBuffer b |}, keep, intents)
    else
      ({| buffer := keep; maxBuffer := maxBuffer b |}, flushable, intents).

(** A sequence of [Feed] calls on one buffer: the buffer at the end, the
    concatenation of the flushable texts and of the intents. *)
Fixpoint feedAll (b : ToolIntentBuffer) (texts : list bytes)
  : ToolIntentBuffer * bytes * list ToolIntent :=
  match texts with
  | [] => (b, [], [])
  | text :: rest =>
      let '(b1, flushable, intents) := Feed b text in
      let '(b2, flushable', intents') := feedAll b1 rest in
      (b2, flushable ++ flushable', intents ++ intents')
  end.

(** An input longer than the cap: three bytes of text, then an opening
    tag that is never closed. *)
Definition overflowInput : bytes :=
  B "abc<websearch>" ++ replicate (Z.to_nat 8200) "x"%char.

(** ** Predicates for the facts about the parser and the buffer *)

(** An intent as [ParseToolIntents] builds it: the [Raw] is one block, the
    argument the question extracted from it, trimmed. *)
Definition wellFormedIntent (i : ToolIntent) : Prop :=
  Name i = B "websearch" ∧
  (∃ inner, Raw i = openTag (B "websearch") ++ inner ++ closeTag (B "websearch") ∧
            Index inner (closeTag (B "websearch")) = None) ∧
  extractTagValue (Raw i) (B "question") ≠ [] ∧
  Arguments i = {[ B "question" := TrimSpace (extractTagValue (Raw i) (B "question")) ]}.

(** What [splitFlushable] keeps: nothing, or text from an opening
    [<websearch>] tag on, or from a [<] that no [>] follows. *)
Definition heldBack (keep : bytes) : Prop :=
  keep = [] ∨ B "<websearch>" `prefix_of` keep ∨
  (B "<" `prefix_of` keep ∧ Index keep (B ">") = None).

(** The state of a buffer between two calls of [Feed]. *)
Definition bufferOK (b : ToolIntentBuffer) : Prop :=
  (0 ≤ maxBuffer b)%Z ∧ (Z.of_nat (length (buffer b)) ≤ maxBuffer b)%Z ∧
  heldBack (buffer b) ∧ findTagBlock (buffer b) (B "websearch") = None.

(** A [websearch] block with its question. *)
Definition websearchBlock (question : bytes) : bytes :=
  B "<websearch><question>" ++ question ++ B "</question></websearch>".

End ToolIntents.

(* ===================================================================== *)
(** * Usage statistics: retention filter, persistence and import         *)
(* ===================================================================== *)

Module Usage.

Local Open Scope Z_scope.

(** Modelled from the spec: the declarations of [TokenStats],
    [RequestDetail], [ModelSnapshot], [APISnapshot],
    [StatisticsSnapshot], [ImportPayload] and [ExportPayload] are not
    among the sources; the fields are those of section 3 of the
    specification and those the code and its tests use.  A [time.Time]
    is an instant, counted in nanoseconds; Go's [int] and [int64] are
    64 bits wide. *)
Record TokenStats := { TotalTokensOf : Z }.

Record RequestDetail := {
  Timestamp : Z;
  Source : bytes;
  AuthIndex : bytes;
  Tokens : TokenStats;
  Failed : bool
}.

Record ModelSnapshot := {
  ModelTotalRequests : Z;
  ModelTotalTokens : Z;
  Details : list RequestDetail
}.

Record APISnapshot := {
  APITotalRequests : Z;
  APITotalTokens : Z;
  Models : gmap bytes ModelSnapshot
}.

Record StatisticsSnapshot := {
  TotalRequests : Z;
  TotalTokens : Z;
  SuccessCount : Z;
  FailureCount : Z;
  APIs : gmap bytes APISnapshot
}.

Record ImportPayload := {
  ImportVersion : Z;
  ImportUsage : StatisticsSnapshot
}.

Record ExportPayload := {
  Version : Z;
  ExportedAt : Z;
  Usage : StatisticsSnapshot
}.

(** Two's-complement wrap-around of an [int64] result. *)
Definition wrap64 (z : Z) : Z := (z + 2 ^ 63) mod 2 ^ 64 - 2 ^ 63.

(** [time.Hour], a [time.Duration]: nanoseconds in an [int64]. *)
Definition Hour : Z := 3600000000000.

(** [-time.Duration(retentionDays) * 24 * time.Hour] *)
Definition retentionOffset (retentionDays : Z) : Z :=
  wrap64 (wrap64 (wrap64 (- retentionDays) * 24) * Hour).

(** The filtering of one model's details in [stripRequestDetails]. *)
Definition stripModel (cutoffTime : Z) (modelStats : ModelSnapshot)
  : ModelSnapshot :=
  if bool_decide (length (Details modelStats) = 0%nat) then modelStats
  else
    {| ModelTotalRequests := ModelTotalRequests modelStats;
       ModelTotalTokens := ModelTotalTokens modelStats;
       Details :=
         List.filter (fun detail => cutoffTime <? Timestamp detail)
           (Details modelStats) |}.

Definition stripAPI (cutoffTime : Z) (apiStats : APISnapshot) : APISnapshot :=
  if bool_decide (size (Models apiStats) = 0%nat) then apiStats
  else
    {| APITotalRequests := APITotalRequests apiStats;
       APITotalTokens := APITotalTokens apiStats;
       Models := stripModel cutoffTime <$> Models apiStats |}.

(** [stripRequestDetails(snapshot, retentionDays)] at time [now]; a nil
    [snapshot] is [None]. *)
Definition stripRequestDetails (now : Z) (snapshot : option StatisticsSnapshot)
    (retentionDays : Z) : option StatisticsSnapshot :=
  match snapshot with
  | None => None
  | Some snap =>
      if bool_decide (size (APIs snap) = 0%nat) then Some snap
      else
        let retentionDays := if retentionDays <=? 0 then 30 else retentionDays in
        let cutoffTime := now + retentionOffset retentionDays in
        Some {| TotalRequests := TotalRequests snap;
                TotalTokens := TotalTokens snap;
                SuccessCount := SuccessCount snap;
                FailureCount := FailureCount snap;
                APIs := stripAPI cutoffTime <$> APIs snap |}
  end.

(** ** What the retention filter is specified to do *)

(** [now − retention_days·24h], with values [≤ 0] treated as 30. *)
Definition specCutoff (now retentionDays : Z) : Z :=
  now - (if retentionDays <=? 0 then 30 else retentionDays) * 24 * Hour.

(** [after] is [before] with, for each (api, model), exactly the details
    strictly after the cut-off, in their order, and every aggregate
    counter as it was. *)
Definition retained (cutoff : Z) (before after : StatisticsSnapshot) : Prop :=
  TotalRequests after = TotalRequests before ∧
  TotalTokens after = TotalTokens before ∧
  SuccessCount after = SuccessCount before ∧
  FailureCount after = FailureCount before ∧
  ∀ api : bytes,
    match APIs before !! api, APIs after !! api with
    | None, None => True
    | Some a, Some a' =>
        APITotalRequests a' = APITotalRequests a ∧
        APITotalTokens a' = APITotalTokens a ∧
        ∀ model : bytes,
          match Models a !! model, Models a' !! model with
          | None, None => True
          | Some m, Some m' =>
              ModelTotalRequests m' = ModelTotalRequests m ∧
              ModelTotalTokens m' = ModelTotalTokens m ∧
              Details m' =
                List.filter (fun d => bool_decide (cutoff < Timestamp d))
                  (Details m)
          | _, _ => False
          end
    | _, _ => False
    end.

(** ** Persistence *)

(** The file-system calls the persistence code makes. *)
Inductive FSCall :=
| ReadFile (path : bytes)
| MkdirAll (path : bytes) (perm : Z)
| WriteFile (path data : bytes) (perm : Z)
| Rename (oldpath newpath : bytes).

(** The files, and the calls made so far, oldest first. *)
Record World := {
  files : gmap bytes bytes;
  calls : list FSCall
}.

(** The errors the functions return, one constructor per [fmt.Errorf]. *)
Inductive error :=
| ErrRead            (* "read usage stats: %w" *)
| ErrParse           (* "parse usage stats: %w" *)
| ErrUnsupportedVersion (version : Z)
                     (* "unsupported usage stats version: %d" *)
| ErrEncode          (* "encode usage stats: %w" *)
| ErrPrepareDir      (* "prepare usage stats dir: %w" *)
| ErrWrite           (* "write usage stats: %w" *)
| ErrFinalize.       (* "finalize usage stats: %w" *)

(** The result of [os.ReadFile]. *)
Inductive ReadResult :=
| ReadOK (data : bytes)
| ReadNotExist
| ReadFailed.

(** The responses of the import handler: the status with its body. *)
Inductive Response :=
| BadRequest (message : bytes)
| StatusOK (added skipped total_requests failed_requests : Z).

Record MergeResult := { Added : Z; Skipped : Z }.

Section Persistence.

(** Modelled from the spec: the store [RequestStatistics] and its
    methods [Snapshot], [Replace] and [MergeSnapshot] are not among
    the sources.  [Replace] discards the state and reinitialises it
    from the snapshot, [MergeSnapshot] adds it and reports the
    details added and skipped; the code below only calls them. *)
Variable RequestStatistics : Type.
Variable Snapshot : RequestStatistics -> StatisticsSnapshot.
Variable Replace : RequestStatistics -> StatisticsSnapshot -> RequestStatistics.
Variable MergeSnapshot :
  RequestStatistics -> StatisticsSnapshot -> RequestStatistics * MergeResult.

(** Library calls: [json.Unmarshal] into an [ImportPayload] and
    [json.MarshalIndent] of an [ExportPayload] ([None] for an error),
    [filepath.Dir], and whether a file-system call fails. *)
Variable jsonUnmarshal : bytes -> option ImportPayload.
Variable jsonMarshalIndent : ExportPayload -> option bytes.
Variable filepathDir : bytes -> bytes.
Variable fails : FSCall -> bool.

Definition logCall (c : FSCall) (w : World) : World :=
  {| files := files w; calls := calls w ++ [c] |}.

Definition osReadFile (path : bytes) (w : World) : World * ReadResult :=
  let w' := logCall (ReadFile path) w in
  if fails (ReadFile path) then (w', ReadFailed)
  else match files w !! path with
       | Some data => (w', ReadOK data)
       | None => (w', ReadNotExist)
       end.

Definition osMkdirAll (path : bytes) (perm : Z) (w : World) : World * bool :=
  (logCall (MkdirAll path perm) w, negb (fails (MkdirAll path perm))).

Definition osWriteFile (path data : bytes) (perm : Z) (w : World)
  : World * bool :=
  let c := WriteFile path data perm in
  if fails c then (logCall c w, false)
  else ({| files := <[path := data]> (files w); calls := calls w ++ [c] |},
        true).

Definition osRename (oldpath newpath : bytes) (w : World) : World * bool :=
  let c := Rename oldpath newpath in
  match files w !! oldpath with
  | Some data =>
      if fails c then (logCall c w, false)
      else ({| files := <[newpath := data]> (delete oldpath (files w));
               calls := calls w ++ [c] |}, true)
  | None => (logCall c w, false)
  end.

(** [(s *RequestStatistics).LoadFromFile(path)]: the world and the
    store after the call, and the returned error ([None] for nil).
    A nil receiver is [None]. *)
Definition LoadFromFile (s : option RequestStatistics) (path : bytes)
    (w : World) : World * option RequestStatistics * option error :=
  match s with
  | None => (w, s, None)
  | Some st =>
      if bool_decide (path = []) then (w, s, None)
      else
        match osReadFile path w with
        | (w, ReadNotExist) => (w, s, None)
        | (w, ReadFailed) => (w, s, Some ErrRead)
        | (w, ReadOK data) =>
            if bool_decide (length data = 0%nat) then (w, s, None)
            else
              match jsonUnmarshal data with
              | None => (w, s, Some ErrParse)
              | Some payload =>
                  if negb (bool_decide (ImportVersion payload = 0))
                     && negb (bool_decide (ImportVersion payload = 1))
                  then (w, s, Some (ErrUnsupportedVersion (ImportVersion payload)))
                  else (w, Some (Replace st (ImportUsage payload)), None)
              end
        end
  end.

(** [(s *RequestStatistics).SaveToFile(path, retentionDays)], with the
    two readings of [time.Now()] as [now] and [exportedAt]. *)
Definition SaveToFile (s : option RequestStatistics) (path : bytes)
    (retentionDays : Z) (now exportedAt : Z) (w : World)
  : World * option RequestStatistics * option error :=
  match s with
  | None => (w, s, None)
  | Some st =>
      if bool_decide (path = []) then (w, s, None)
      else
        let snapshot :=
          match stripRequestDetails now (Some (Snapshot st)) retentionDays with
          | Some snap => snap
          | None => Snapshot st
          end in
        let payload :=
          {| Version := 1; ExportedAt := exportedAt; Usage := snapshot |} in
        match jsonMarshalIndent payload with
        | None => (w, s, Some ErrEncode)
        | Some data =>
            match osMkdirAll (filepathDir path) 448 w with
            | (w, false) => (w, s, Some ErrPrepareDir)
            | (w, true) =>
                let tmpPath := path ++ B ".tmp" in
                match osWriteFile tmpPath data 384 w with
                | (w, false) => (w, s, Some ErrWrite)
                | (w, true) =>
                    match osRename tmpPath path w with
                    | (w, false) => (w, s, Some ErrFinalize)
                    | (w, true) => (w, s, None)
                    end
                end
            end
        end
  end.

(** [(h *Handler).ImportUsageStatistics(c)]: [usageStats] is [None]
    when [h] or [h.usageStats] is nil, [body] is the result of
    [c.GetRawData()] ([None] for an error).  The store after the call
    and the response. *)
Definition ImportUsageStatistics (usageStats : option RequestStatistics)
    (body : option bytes) : option RequestStatistics * Response :=
  match usageStats with
  | None => (usageStats, BadRequest (B "usage statistics unavailable"))
  | Some st =>
      match body with
      | None => (usageStats, BadRequest (B "failed to read request body"))
      | Some data =>
          match jsonUnmarshal data with
          | None => (usageStats, BadRequest (B "invalid json"))
          | Some payload =>
              if negb (bool_decide (ImportVersion payload = 0))
                 && negb (bool_decide (ImportVersion payload = 1))
              then (usageStats, BadRequest (B "unsupported version"))
              else
                let '(st', result) := MergeSnapshot st (ImportUsage payload) in
                let snapshot := Snapshot st' in
                (Some st',
                 StatusOK (Added result) (Skipped result)
                   (TotalRequests snapshot) (FailureCount snapshot))
          end
      end
  end.

End Persistence.

(** A store that is its own snapshot, for running the persistence code on
    concrete inputs: [Replace] installs the snapshot, [MergeSnapshot]
    adds the top-level counters and takes over the per-API table; the
    JSON codec reads a payload off the first byte (its version) and
    writes a fixed document. *)
Definition snapshotStore (s : StatisticsSnapshot) : StatisticsSnapshot := s.
Definition replaceStore (s new : StatisticsSnapshot) : StatisticsSnapshot := new.
Definition mergeStore (s new : StatisticsSnapshot)
  : StatisticsSnapshot * MergeResult :=
  ({| TotalRequests := TotalRequests s + TotalRequests new;
      TotalTokens := TotalTokens s + TotalTokens new;
      SuccessCount := SuccessCount s + SuccessCount new;
      FailureCount := FailureCount s + FailureCount new;
      APIs := APIs new ∪ APIs s |},
   {| Added := 0; Skipped := 0 |}).
Definition emptySnapshot : StatisticsSnapshot :=
  {| TotalRequests := 0; TotalTokens := 0; SuccessCount := 0;
     FailureCount := 0; APIs := ∅ |}.
Definition decodeVersion (data : bytes) : option ImportPayload :=
  match data with
  | c :: _ => Some {| ImportVersion := Z.of_nat (nat_of_ascii c) - 48;
                      ImportUsage := emptySnapshot |}
  | [] => None
  end.
Definition encodeFixed (payload : ExportPayload) : option bytes :=
  Some (B "{}").
Definition dirOf (path : bytes) : bytes := B ".".
Definition neverFails (c : FSCall) : bool := false.

(** A snapshot with one API and one model, for concrete runs. *)
Definition sampleDetail (t : Z) : RequestDetail :=
  {| Timestamp := t; Source := B "key"; AuthIndex := B "0";
     Tokens := {| TotalTokensOf := 100 |}; Failed := false |}.

Definition sampleSnapshot (details : list RequestDetail) : StatisticsSnapshot :=
  {| TotalRequests := 1; TotalTokens := 100; SuccessCount := 1; FailureCount := 0;
     APIs := {[ B "api" :=
       {| APITotalRequests := 1; APITotalTokens := 100;
          Models := {[ B "model" :=
            {| ModelTotalRequests := 1; ModelTotalTokens := 100;
               Details := details |} ]} |} ]} |}.

Definition sampleNow : Z := 1800000000000000000.

Definition sampleWorld : World :=
  {| files := {[ B "usage_stats.json" := B "7" ]}; calls := [] |}.

(** ** Definitions for the facts about persistence and the handlers *)

(** Every file but [path] and [path.tmp] is as it was. *)
Definition otherFilesKept (path : bytes) (w w' : World) : Prop :=
  ∀ p : bytes, p ≠ path → p ≠ path ++ B ".tmp" → files w' !! p = files w !! p.

Section ExportHandler.
Variable RequestStatistics : Type.
Variable Snapshot : RequestStatistics -> StatisticsSnapshot.

(** [(h *Handler).ExportUsageStatistics(c)]: the body of the 200
    response; [usageStats] is [None] when [h] or [h.usageStats] is nil and
    the snapshot stays the zero value. *)
Definition ExportUsageStatistics (usageStats : option RequestStatistics)
    (exportedAt : Z) : ExportPayload :=
  let snapshot :=
    match usageStats with
    | Some st => Snapshot st
    | None => emptySnapshot
    end in
  {| Version := 1; ExportedAt := exportedAt; Usage := snapshot |}.
End ExportHandler.

(** A decoder for concrete runs that goes with [encodeFixed]: every
    document is the version-1 payload of the empty snapshot. *)
Definition decodeFixed (data : bytes) : option ImportPayload :=
  Some {| ImportVersion := 1; ImportUsage := emptySnapshot |}.

End Usage.

(* ===================================================================== *)
(** * Facts about the string functions                                   *)
(* ===================================================================== *)

Module GoStringsFacts.

Import GoStrings.

Section IndexFacts.
Implicit Types s t a b n : bytes.

Lemma HasPrefix_true s n : HasPrefix s n = true ↔ n `prefix_of` s.
Proof. unfold HasPrefix. apply bool_decide_eq_true. Qed.

Lemma HasPrefix_false s n : HasPrefix s n = false ↔ ¬ n `prefix_of` s.
Proof. unfold HasPrefix. apply bool_decide_eq_false. Qed.

Lemma prefix_app_fits n s t :
  n `prefix_of` s ++ t → length n ≤ length s → n `prefix_of` s.
Proof.
  intros [k Hk] Hlen. exists (take (length s - length n) k).
  transitivity (take (length s) (s ++ t)); [by rewrite take_app_length|].
  rewrite Hk. by rewrite take_app_ge by lia.
Qed.

Lemma prefix_app_straddles n s t :
  n `prefix_of` s ++ t → length s < length n → s = take (length s) n.
Proof.
  intros [k Hk] Hlen.
  transitivity (take (length s) (s ++ t)); [by rewrite take_app_length|].
  rewrite Hk. by rewrite take_app_le by lia.
Qed.

Lemma Index_unfold s n :
  Index s n = if HasPrefix s n then Some 0
              else match s with [] => None | _ :: s' => S <$> Index s' n end.
Proof. destruct s; reflexivity. Qed.

(** An index returned by [Index] is that of an instance that fits. *)
Lemma Index_Some_prefix s n i :
  Index s n = Some i → n `prefix_of` drop i s.
Proof.
  revert i. induction s as [|c s IH]; intros i; rewrite Index_unfold.
  - destruct (HasPrefix [] n) eqn:E; [|discriminate].
    intros [= <-]. by apply HasPrefix_true.
  - destruct (HasPrefix (c :: s) n) eqn:E.
    + intros [= <-]. by apply HasPrefix_true.
    + destruct (Index s n) as [j|] eqn:Ej; [|discriminate].
      intros [= <-]. simpl. by apply IH.
Qed.

Lemma Index_Some_fits s n i :
  Index s n = Some i → i + length n ≤ length s.
Proof.
  revert i. induction s as [|c s IH]; intros i; rewrite Index_unfold.
  - destruct (HasPrefix [] n) eqn:E; [|discriminate].
    intros [= <-]. apply HasPrefix_true, prefix_length in E. simpl in *. lia.
  - destruct (HasPrefix (c :: s) n) eqn:E.
    + intros [= <-]. apply HasPrefix_true, prefix_length in E. simpl in *. lia.
    + destruct (Index s n) as [j|] eqn:Ej; [|discriminate].
      intros [= <-]. specialize (IH j eq_refl). simpl. lia.
Qed.

(** No instance starts before the index returned. *)
Lemma Index_Some_first s n i j :
  Index s n = Some i → j < i → ¬ n `prefix_of` drop j s.
Proof.
  revert i j. induction s as [|c s IH]; intros i j; rewrite Index_unfold.
  - destruct (HasPrefix [] n) eqn:E; [|discriminate].
    intros [= <-]. lia.
  - destruct (HasPrefix (c :: s) n) eqn:E.
    + intros [= <-]. lia.
    + destruct (Index s n) as [k|] eqn:Ek; [|discriminate].
      intros [= <-] Hj. destruct j as [|j]; simpl.
      * by apply HasPrefix_false.
      * apply (IH k); [done | lia].
Qed.

Lemma Index_None_nowhere s n j :
  Index s n = None → ¬ n `prefix_of` drop j s.
Proof.
  revert j. induction s as [|c s IH]; intros j; rewrite Index_unfold.
  - destruct (HasPrefix [] n) eqn:E; [discriminate|].
    intros _. rewrite drop_nil. by apply HasPrefix_false.
  - destruct (HasPrefix (c :: s) n) eqn:E; [discriminate|].
    destruct (Index s n) as [k|] eqn:Ek; [discriminate|].
    intros _. destruct j as [|j]; simpl.
    + by apply HasPrefix_false.
    + by apply IH.
Qed.

Lemma Index_nowhere_None s n :
  (∀ j, ¬ n `prefix_of` drop j s) → Index s n = None.
Proof.
  intros H. destruct (Index s n) as [i|] eqn:E; [|done].
  destruct (H i). by apply Index_Some_prefix.
Qed.

Lemma Index_drop_None s n k : Index s n = None → Index (drop k s) n = None.
Proof.
  intros H. apply Index_nowhere_None. intros j. rewrite drop_drop.
  by apply Index_None_nowhere.
Qed.

(** An instance found in [s] is still the first one in [s ++ t]. *)
Lemma Index_app_found s t n i :
  Index s n = Some i → Index (s ++ t) n = Some i.
Proof.
  revert i. induction s as [|c s IH]; intros i; rewrite Index_unfold.
  - destruct (HasPrefix [] n) eqn:E; [|discriminate].
    intros [= <-]. rewrite Index_unfold.
    apply HasPrefix_true in E.
    assert (HasPrefix ([] ++ t) n = true) as ->; [|done].
    apply HasPrefix_true. by apply prefix_app_r.
  - destruct (HasPrefix (c :: s) n) eqn:E.
    + intros [= <-]. rewrite Index_unfold.
      assert (HasPrefix ((c :: s) ++ t) n = true) as ->; [|done].
      apply HasPrefix_true, prefix_app_r. by apply HasPrefix_true.
    + destruct (Index s n) as [j|] eqn:Ej; [|discriminate].
      intros [= <-]. rewrite Index_unfold.
      assert (HasPrefix ((c :: s) ++ t) n = false) as ->.
      { apply HasPrefix_false. intros Hp. apply HasPrefix_false in E.
        apply E. apply (prefix_app_fits _ _ t); [done|].
        apply Index_Some_fits in Ej. simpl. lia. }
      simpl. by rewrite (IH j).
Qed.

(** When no instance starts inside [a], the search moves past it. *)
Lemma Index_app_skip a u n :
  (∀ j, j < length a → ¬ n `prefix_of` drop j (a ++ u)) →
  Index (a ++ u) n = (λ i, length a + i) <$> Index u n.
Proof.
  induction a as [|c a IH]; intros H.
  - simpl. by destruct (Index u n).
  - rewrite Index_unfold.
    assert (HasPrefix ((c :: a) ++ u) n = false) as ->.
    { apply HasPrefix_false. apply (H 0). simpl. lia. }
    simpl. rewrite IH.
    + by destruct (Index u n).
    + intros j Hj. apply (H (S j)). simpl. lia.
Qed.

(** [s] holds no instance and does not end in a beginning of one. *)
Lemma Index_app_clean s t n :
  Index s n = None →
  (∀ k, 0 < k < length n → ¬ take k n `suffix_of` s) →
  Index (s ++ t) n = (λ i, length s + i) <$> Index t n.
Proof.
  intros Hnone Hpart. apply Index_app_skip. intros j Hj Hp.
  rewrite drop_app_le in Hp by lia.
  destruct (decide (length n ≤ length (drop j s))) as [Hfit|Hfit].
  - apply (Index_None_nowhere s n j Hnone). by apply (prefix_app_fits _ _ t).
  - apply prefix_app_straddles in Hp; [|lia].
    rewrite length_drop in Hp, Hfit.
    apply (Hpart (length s - j)); [lia|].
    rewrite <- Hp. apply suffix_drop.
Qed.

(** [a ++ b] holds no instance and [b] is long enough to hold every
    beginning of one. *)
Lemma Index_app_window a b t n :
  Index (a ++ b) n = None → length n ≤ S (length b) →
  Index (a ++ b ++ t) n = (λ i, length a + i) <$> Index (b ++ t) n.
Proof.
  intros Hnone Hlen. apply Index_app_skip. intros j Hj Hp.
  apply (Index_None_nowhere (a ++ b) n j Hnone).
  rewrite app_assoc in Hp. rewrite drop_app_le in Hp by (rewrite length_app; lia).
  apply (prefix_app_fits _ _ t); [done|].
  rewrite length_drop, length_app. lia.
Qed.
End IndexFacts.

Section TakeFacts.
Implicit Types s n : bytes.

(** No instance of a non-empty [n] lies inside [take i s] when none starts
    before [i] in [s]. *)
Lemma Index_take_None (s n : bytes) i :
  n ≠ [] → (∀ j, j < i → ¬ n `prefix_of` drop j s) → Index (take i s) n = None.
Proof.
  intros Hn H. apply Index_nowhere_None. intros j Hp.
  assert (length n ≤ length (drop j (take i s))) as Hlen by by apply prefix_length.
  rewrite length_drop, length_take in Hlen.
  assert (0 < length n) by (destruct n; [done|simpl; lia]).
  apply (H j); [lia|].
  etrans; [exact Hp|]. rewrite <- (take_drop i s) at 2.
  rewrite drop_app_le by (rewrite length_take; lia). by apply prefix_app_r.
Qed.

Lemma Index_take_first (s n : bytes) i k :
  n ≠ [] → Index s n = Some i → k ≤ i → Index (take k s) n = None.
Proof.
  intros Hn Hi Hk. apply Index_take_None; [done|].
  intros j Hj. apply (Index_Some_first s n i j Hi). lia.
Qed.

Lemma Index_take_absent (s n : bytes) k :
  n ≠ [] → Index s n = None → Index (take k s) n = None.
Proof.
  intros Hn Hi. apply Index_take_None; [done|].
  intros j _. by apply Index_None_nowhere.
Qed.

End TakeFacts.

Section LastIndexFacts.
Implicit Types s n : bytes.

Lemma LastIndex_Some_prefix s n i :
  LastIndex s n = Some i → n `prefix_of` drop i s.
Proof.
  revert i. induction s as [|c s IH]; intros i; cbn [LastIndex].
  - destruct (HasPrefix [] n) eqn:E; [|discriminate].
    intros [= <-]. by apply HasPrefix_true.
  - destruct (LastIndex s n) as [j|] eqn:Ej.
    + intros [= <-]. simpl. by apply IH.
    + destruct (HasPrefix (c :: s) n) eqn:E; [|discriminate].
      intros [= <-]. by apply HasPrefix_true.
Qed.

Lemma LastIndex_absent s n : Index s n = None → LastIndex s n = None.
Proof.
  intros H. destruct (LastIndex s n) as [i|] eqn:E; [|done].
  apply LastIndex_Some_prefix in E. by apply Index_None_nowhere with (j := i) in H.
Qed.

(** A needle that begins with an absent one is absent. *)
Lemma Index_longer_None s n m :
  Index s n = None → n `prefix_of` m → Index s m = None.
Proof.
  intros H Hp. apply Index_nowhere_None. intros j Hm.
  apply (Index_None_nowhere s n j H). by etrans.
Qed.

Lemma Index_present s n j : n `prefix_of` drop j s → ∃ i, Index s n = Some i ∧ i ≤ j.
Proof.
  intros Hp. destruct (Index s n) as [i|] eqn:E.
  - exists i. split; [done|]. destruct (decide (i ≤ j)); [done|].
    destruct (Index_Some_first s n i j E); [lia|done].
  - by destruct (Index_None_nowhere s n j E).
Qed.
End LastIndexFacts.


Section CharFacts.
Implicit Types s t a b n : bytes.

(** A one-byte needle absent from a concatenation is absent from its
    parts. *)
Lemma Index_byte_app a b (c : ascii) :
  Index (a ++ b) [c] = None → Index a [c] = None ∧ Index b [c] = None.
Proof.
  intros H. split; apply Index_nowhere_None; intros j Hp.
  - destruct (decide (j < length a)) as [Hj|Hj].
    + apply (Index_None_nowhere _ _ j H). rewrite drop_app_le by lia.
      by apply prefix_app_r.
    + rewrite drop_ge in Hp by lia. apply prefix_length in Hp. simpl in Hp. lia.
  - apply (Index_None_nowhere _ _ (length a + j) H).
    by rewrite drop_app_ge, Nat.add_comm, Nat.add_sub by lia.
Qed.

Lemma Index_byte_suffix s t (c : ascii) :
  Index s [c] = None → t `suffix_of` s → Index t [c] = None.
Proof. intros H [u ->]. by apply Index_byte_app in H as [_ ?]. Qed.
End CharFacts.

Section SearchFacts.
Implicit Types s t a b n : bytes.

Lemma Index_step (c : ascii) s n :
  ¬ n `prefix_of` c :: s → Index (c :: s) n = S <$> Index s n.
Proof. intros H. rewrite Index_unfold. by apply HasPrefix_false in H as ->. Qed.

Lemma Index_here s n : n `prefix_of` s → Index s n = Some 0.
Proof. intros H. rewrite Index_unfold. by apply HasPrefix_true in H as ->. Qed.

(** The search for a needle passes over text in which its first byte
    does not occur. *)
Lemma Index_skip_free a u (d : ascii) n :
  Index a [d] = None →
  Index (a ++ u) (d :: n) = (λ i, length a + i) <$> Index u (d :: n).
Proof.
  intros H. apply Index_app_skip. intros j Hj Hp.
  apply (Index_None_nowhere _ _ j H).
  rewrite drop_app_le in Hp by lia.
  destruct (drop j a) as [|c r] eqn:E.
  { apply (f_equal length) in E. rewrite length_drop in E. simpl in E. lia. }
  simpl in Hp. apply prefix_cons_inv_1 in Hp as ->. by eexists.
Qed.
End SearchFacts.

Section UTF8Facts.
Implicit Types s t n : bytes.

Lemma runeWidth_ascii c s : isASCII c = true → runeWidth (c :: s) = Some 1.
Proof. intros H. simpl. by rewrite H. Qed.

Lemma jsonString_ascii s : asciiOnly s → jsonString s = s.
Proof.
  unfold jsonString. induction 1 as [|c s Hc _ IH]; [done|].
  cbn [jsonStringFrom]. rewrite runeWidth_ascii by done. simpl. by rewrite IH.
Qed.

Lemma asciiOnly_app s t : asciiOnly (s ++ t) ↔ asciiOnly s ∧ asciiOnly t.
Proof. apply Forall_app. Qed.

Lemma asciiOnly_take k s : asciiOnly s → asciiOnly (take k s).
Proof. apply Forall_take. Qed.

Lemma asciiOnly_drop k s : asciiOnly s → asciiOnly (drop k s).
Proof. apply Forall_drop. Qed.

Lemma inRange_high lo hi c : (0x80 ≤ lo)%N → inRange lo hi c = true → isASCII c = false.
Proof.
  unfold inRange, isASCII. intros Hlo H. apply andb_true_iff in H as [H _].
  apply N.leb_le in H. apply N.ltb_ge. lia.
Qed.

(** The bytes that follow the first one in a well-formed encoding are no
    ASCII bytes. *)
Lemma runeWidth_tail c s w :
  runeWidth (c :: s) = Some w →
  w - 1 ≤ length s ∧ Forall (λ d, isASCII d = false) (take (w - 1) s).
Proof.
  assert (∀ d, isCont d = true → isASCII d = false) as Hcont.
  { intros d. by apply inRange_high. }
  simpl. destruct (isASCII c).
  { intros [= <-]. simpl. split; [lia|]. rewrite take_0. constructor. }
  destruct (inRange 194 223 c).
  { destruct s as [|c1 s]; [done|]. destruct (isCont c1) eqn:E1; [|done].
    intros [= <-]. simpl. split; [lia|]. rewrite take_0. repeat constructor. auto. }
  destruct (inRange 224 239 c).
  { destruct s as [|c1 [|c2 s]]; try done.
    destruct (_ && _) eqn:E; [|done]. intros [= <-].
    apply andb_true_iff in E as [E1 E2]. simpl. split; [lia|]. rewrite take_0.
    repeat constructor; [|auto].
    destruct (byteValue c =? 0xE0)%N; [eapply inRange_high; [|exact E1]; lia|].
    destruct (byteValue c =? 0xED)%N; [eapply inRange_high; [|exact E1]; lia|auto]. }
  destruct (inRange 240 244 c); [|done].
  destruct s as [|c1 [|c2 [|c3 s]]]; try done.
  destruct (_ && _ && _) eqn:E; [|done]. intros [= <-].
  apply andb_true_iff in E as [E E3]. apply andb_true_iff in E as [E1 E2].
  simpl. split; [lia|]. rewrite take_0. repeat constructor; [|auto|auto].
  destruct (byteValue c =? 0xF0)%N; [eapply inRange_high; [|exact E1]; lia|].
  destruct (byteValue c =? 0xF4)%N; [eapply inRange_high; [|exact E1]; lia|auto].
Qed.

Lemma replacementChar_high : Forall (λ d, isASCII d = false) replacementChar.
Proof. by repeat constructor. Qed.

(** An ASCII text that the copy begins with is one the original begins
    with. *)
Lemma jsonStringFrom_prefix n k s :
  asciiOnly n → Forall (λ d, isASCII d = false) (take k s) → k ≤ length s →
  n `prefix_of` jsonStringFrom k s → n `prefix_of` s.
Proof.
  intros Hn. revert k s. induction Hn as [|a n Ha _ IH]; intros k s Hk Hlen Hp.
  { apply prefix_nil. }
  destruct s as [|c s]; [by apply prefix_nil_inv in Hp|].
  cbn [jsonStringFrom] in Hp. destruct k as [|k].
  - destruct (runeWidth (c :: s)) as [w|] eqn:Ew.
    + pose proof (prefix_cons_inv_1 _ _ _ _ Hp) as ->.
      apply prefix_cons_inv_2 in Hp.
      rewrite (runeWidth_ascii c s Ha) in Ew. injection Ew as <-.
      apply prefix_cons. apply (IH 0); [constructor|lia|done].
    + change replacementChar with (map byteOf [0xEF; 0xBF; 0xBD]%N) in Hp.
      simpl in Hp. apply prefix_cons_inv_1 in Hp as ->. by vm_compute in Ha.
  - apply prefix_cons_inv_1 in Hp as ->.
    apply Forall_cons_1 in Hk as [Hk _]. congruence.
Qed.

Lemma jsonStringFrom_occurs n k s j :
  asciiOnly n → n ≠ [] →
  Forall (λ d, isASCII d = false) (take k s) → k ≤ length s →
  n `prefix_of` drop j (jsonStringFrom k s) → ∃ j', n `prefix_of` drop j' s.
Proof.
  intros Hn Hne. revert k j. induction s as [|c s IH]; intros k j Hk Hlen Hp.
  { simpl in Hp. rewrite drop_nil in Hp. apply prefix_nil_inv in Hp. done. }
  assert (∀ d r, isASCII d = false → ¬ n `prefix_of` d :: r) as Hhigh.
  { intros d r Hd Hpre. destruct Hn as [|a n Ha _]; [done|].
    apply prefix_cons_inv_1 in Hpre as ->. congruence. }
  destruct j as [|j].
  { exists 0. simpl in *. by apply (jsonStringFrom_prefix n k). }
  cbn [jsonStringFrom] in Hp. destruct k as [|k].
  - destruct (runeWidth (c :: s)) as [w|] eqn:Ew.
    + simpl in Hp. destruct (runeWidth_tail _ _ _ Ew) as [Hw1 Hw2].
      destruct (IH _ _ Hw2 Hw1 Hp) as [j' Hj']. by exists (S j').
    + change replacementChar with (map byteOf [0xEF; 0xBF; 0xBD]%N) in Hp.
      simpl in Hp. destruct j as [|j].
      { simpl in Hp. by apply Hhigh in Hp. }
      destruct j as [|j].
      { simpl in Hp. by apply Hhigh in Hp. }
      simpl in Hp.
      destruct (IH 0 j) as [j' Hj']; [constructor|lia|done|]. by exists (S j').
  - simpl in Hp. apply Forall_cons_1 in Hk as [_ Hk]. simpl in Hlen.
    destruct (IH k j Hk ltac:(lia) Hp) as [j' Hj']. by exists (S j').
Qed.

(** Writing a text through [jsonString] creates no instance of an ASCII
    needle. *)
Lemma Index_jsonString_None s n :
  asciiOnly n → n ≠ [] → Index s n = None → Index (jsonString s) n = None.
Proof.
  intros Hn Hne H. apply Index_nowhere_None. intros j Hp.
  destruct (jsonStringFrom_occurs n 0 s j Hn Hne) as [j' Hj'];
    [simpl; constructor|lia|done|].
  by apply (Index_None_nowhere _ _ j') in H.
Qed.

Lemma jsonString_nil : jsonString [] = [].
Proof. done. Qed.

Lemma jsonString_nonempty s : s ≠ [] → jsonString s ≠ [].
Proof.
  destruct s as [|c s]; [done|]. intros _. unfold jsonString. cbn [jsonStringFrom].
  destruct (runeWidth (c :: s)); [done|].
  change replacementChar with (map byteOf [0xEF; 0xBF; 0xBD]%N). done.
Qed.
End UTF8Facts.

(** [TrimSpace] removes the white space of Unicode, here U+00A0, U+3000,
    U+0085 and U+2028 with the blanks of ASCII; a byte of an encoding
    alone is no white space. *)
Lemma TrimSpace_unicode :
  TrimSpace (EncodeRune 0xA0 ++ B " hi " ++ EncodeRune 0x3000 ++ B " ") = B "hi"
  ∧ TrimSpace (EncodeRune 0x85 ++ EncodeRune 0x2028) = []
  ∧ TrimSpace ([byteOf 0xA0] ++ B "hi" ++ [byteOf 0xC2])
    = [byteOf 0xA0] ++ B "hi" ++ [byteOf 0xC2].
Proof. by vm_compute. Qed.

End GoStringsFacts.

(* ===================================================================== *)
(** * The transcoder: regions, pairing of blocks, message lifecycle      *)
(* ===================================================================== *)

Module PacoreFacts.

Import GoStrings GoStringsFacts Pacore.

Section TagFacts.
Implicit Types s t a b : bytes.

Lemma isPartialTag_false s tag k :
  isPartialTag s = false → tag ∈ tags → 0 < k < length tag →
  ¬ take k tag `suffix_of` s.
Proof.
  unfold isPartialTag. intros H Htag Hk Hsuf.
  assert (existsb (λ tag, existsb (λ i, HasSuffix s (take i tag))
                            (seq 1 (length tag - 1))) tags = true) as E;
    [|congruence].
  apply existsb_exists. exists tag. split; [by apply list_elem_of_In|].
  apply existsb_exists. exists k. split.
  - apply in_seq. lia.
  - unfold HasSuffix. by apply bool_decide_eq_true.
Qed.

Lemma firstTag_shift a u :
  Index (a ++ u) tagThinkingStart
    = (λ i, length a + i) <$> Index u tagThinkingStart →
  Index (a ++ u) tagToolCallStart
    = (λ i, length a + i) <$> Index u tagToolCallStart →
  firstTag (a ++ u) = shiftTag (length a) (firstTag u).
Proof.
  unfold firstTag. intros -> ->.
  destruct (Index u tagThinkingStart) as [i|], (Index u tagToolCallStart) as [j|];
    simpl; try reflexivity.
  destruct (i <? j) eqn:E.
  - apply Nat.ltb_lt in E.
    assert ((length a + i <? length a + j) = true) as ->; [apply Nat.ltb_lt; lia|done].
  - apply Nat.ltb_ge in E.
    assert ((length a + i <? length a + j) = false) as ->; [apply Nat.ltb_ge; lia|done].
Qed.

Lemma start_tags_apart u :
  tagThinkingStart `prefix_of` u → tagToolCallStart `prefix_of` u → False.
Proof.
  intros [k1 ->] [k2 H]. vm_compute in H. discriminate.
Qed.

(** A start tag found in [s] is still the first one in [s ++ t]. *)
Lemma firstTag_app_found s t r :
  firstTag s = Some r → firstTag (s ++ t) = Some r.
Proof.
  unfold firstTag.
  destruct (Index s tagThinkingStart) as [i|] eqn:Ei,
           (Index s tagToolCallStart) as [j|] eqn:Ej; intros Hr; try discriminate.
  - by rewrite (Index_app_found _ t _ _ Ei), (Index_app_found _ t _ _ Ej).
  - rewrite (Index_app_found _ t _ _ Ei).
    destruct (Index (s ++ t) tagToolCallStart) as [j|] eqn:Ej'; [|done].
    assert (i < j) as Hij.
    { pose proof (Index_Some_fits _ _ _ Ei) as Hfit.
      pose proof (Index_Some_prefix _ _ _ Ej') as Hp.
      destruct (decide (j + length tagToolCallStart ≤ length s)) as [Hin|Hout].
      - exfalso. apply (Index_None_nowhere s tagToolCallStart j Ej).
        rewrite drop_app_le in Hp by lia.
        apply (prefix_app_fits _ _ t); [done|]. rewrite length_drop. lia.
      - change (length tagToolCallStart) with 11 in Hout.
        change (length tagThinkingStart) with 10 in Hfit.
        destruct (decide (i = j)) as [->|]; [|lia].
        exfalso. apply (start_tags_apart (drop j (s ++ t))); [|done].
        apply Index_Some_prefix. by apply Index_app_found. }
    apply Nat.ltb_lt in Hij. by rewrite Hij.
  - rewrite (Index_app_found _ t _ _ Ej).
    destruct (Index (s ++ t) tagThinkingStart) as [i|] eqn:Ei'; [|done].
    assert (j < i) as Hji.
    { pose proof (Index_Some_fits _ _ _ Ej) as Hfit.
      pose proof (Index_Some_prefix _ _ _ Ei') as Hp.
      destruct (decide (i + length tagThinkingStart ≤ length s)) as [Hin|Hout].
      - exfalso. apply (Index_None_nowhere s tagThinkingStart i Ei).
        rewrite drop_app_le in Hp by lia.
        apply (prefix_app_fits _ _ t); [done|]. rewrite length_drop. lia.
      - change (length tagToolCallStart) with 11 in Hfit.
        change (length tagThinkingStart) with 10 in Hout. lia. }
    assert ((i <? j) = false) as ->; [apply Nat.ltb_ge; lia|done].
Qed.

Lemma firstTag_None s :
  firstTag s = None →
  Index s tagThinkingStart = None ∧ Index s tagToolCallStart = None.
Proof.
  unfold firstTag.
  destruct (Index s tagThinkingStart) as [i|], (Index s tagToolCallStart) as [j|];
    try discriminate; [|done].
  destruct (i <? j); discriminate.
Qed.

Lemma firstTag_app_clean s t :
  firstTag s = None → isPartialTag s = false →
  firstTag (s ++ t) = shiftTag (length s) (firstTag t).
Proof.
  intros [H1 H2]%firstTag_None Hp. apply firstTag_shift.
  - apply Index_app_clean; [done|]. intros k Hk.
    apply (isPartialTag_false s tagThinkingStart k Hp); [|exact Hk].
    unfold tags. repeat constructor.
  - apply Index_app_clean; [done|]. intros k Hk.
    apply (isPartialTag_false s tagToolCallStart k Hp); [|exact Hk].
    unfold tags. repeat constructor.
Qed.

Lemma firstTag_app_window a b t :
  firstTag (a ++ b) = None → length b = 15 →
  firstTag (a ++ b ++ t) = shiftTag (length a) (firstTag (b ++ t)).
Proof.
  intros [H1 H2]%firstTag_None Hb. apply firstTag_shift.
  - apply Index_app_window; [done|]. rewrite Hb. vm_compute. lia.
  - apply Index_app_window; [done|]. rewrite Hb. vm_compute. lia.
Qed.
End TagFacts.

Section RegionFacts.
Implicit Types s t : bytes.

Lemma Index_nil_tag tag : tag ≠ [] → Index [] tag = None.
Proof.
  intros H. rewrite Index_unfold.
  destruct (HasPrefix [] tag) eqn:E; [|done].
  apply HasPrefix_true, prefix_nil_inv in E. done.
Qed.

Lemma regionsFrom_nil n st : regionsFrom n st [] = lastRegion st [].
Proof. destruct n; [done|]. by destruct st. Qed.

Lemma regionsFrom_fuel n m st s :
  length s ≤ n → length s ≤ m → regionsFrom n st s = regionsFrom m st s.
Proof.
  revert m st s. induction n as [|n IH]; intros m st s Hn Hm.
  - destruct s; [|simpl in Hn; lia]. by rewrite !regionsFrom_nil.
  - destruct m as [|m].
    { destruct s; [|simpl in Hm; lia]. by rewrite !regionsFrom_nil. }
    simpl. destruct st.
    + destruct (firstTag s) as [[i []]|]; [| |done].
      * f_equal. apply IH; rewrite length_drop; simpl; lia.
      * f_equal. apply IH; rewrite length_drop; simpl; lia.
    + destruct (Index s tagThinkingEnd) as [i|]; [|done].
      f_equal. apply IH; rewrite length_drop; simpl; lia.
    + destruct (Index s tagToolCallEnd) as [i|]; [|done].
      apply IH; rewrite length_drop; simpl; lia.
Qed.

Lemma regionsFrom_S n st s :
  length s ≤ S n → regionsFrom (S n) st s = regionsStep st s.
Proof.
  intros Hn. unfold regionsStep, regionsIn. simpl. destruct st.
  - destruct (firstTag s) as [[i []]|]; [| |done];
      f_equal; apply regionsFrom_fuel; rewrite ?length_drop; lia.
  - destruct (Index s tagThinkingEnd) as [i|]; [|done].
    f_equal; apply regionsFrom_fuel; rewrite ?length_drop; lia.
  - destruct (Index s tagToolCallEnd) as [i|]; [|done].
    apply regionsFrom_fuel; rewrite ?length_drop; lia.
Qed.

Lemma regionsIn_unfold st s : regionsIn st s = regionsStep st s.
Proof.
  destruct s as [|c s].
  - by destruct st.
  - unfold regionsIn at 1. change (length (c :: s)) with (S (length s)).
    by apply regionsFrom_S.
Qed.

Lemma addOutside_nil r : addOutside [] r = r.
Proof. by destruct r. Qed.
Lemma addInside_nil r : addInside [] r = r.
Proof. by destruct r. Qed.
Lemma addOutside_app a b r : addOutside (a ++ b) r = addOutside a (addOutside b r).
Proof. unfold addOutside. simpl. by rewrite app_assoc. Qed.
Lemma addInside_app a b r : addInside (a ++ b) r = addInside a (addInside b r).
Proof. unfold addInside. simpl. by rewrite app_assoc. Qed.

(** Reading on in [StateNormal] after text without a start tag. *)
Lemma regionsIn_normal_shift a u :
  firstTag (a ++ u) = shiftTag (length a) (firstTag u) →
  regionsIn StateNormal (a ++ u) = addOutside a (regionsIn StateNormal u).
Proof.
  intros H. rewrite (regionsIn_unfold StateNormal (a ++ u)).
  rewrite (regionsIn_unfold StateNormal u). unfold regionsStep. rewrite H.
  destruct (firstTag u) as [[i []]|]; simpl.
  - rewrite take_app_ge, drop_app_ge by lia.
    replace (length a + i - length a) with i by lia.
    replace (length a + i + 10 - length a) with (i + 10) by lia.
    by rewrite addOutside_app.
  - rewrite take_app_ge, drop_app_ge by lia.
    replace (length a + i - length a) with i by lia.
    replace (length a + i + 11 - length a) with (i + 11) by lia.
    by rewrite addOutside_app.
  - unfold addOutside. simpl. done.
Qed.

Lemma regionsIn_thinking_shift a u :
  Index (a ++ u) tagThinkingEnd = (λ i, length a + i) <$> Index u tagThinkingEnd →
  regionsIn StateInThinking (a ++ u) = addInside a (regionsIn StateInThinking u).
Proof.
  intros H. rewrite (regionsIn_unfold StateInThinking (a ++ u)).
  rewrite (regionsIn_unfold StateInThinking u). unfold regionsStep. rewrite H.
  destruct (Index u tagThinkingEnd) as [i|]; simpl.
  - rewrite take_app_ge, drop_app_ge by lia.
    replace (length a + i - length a) with i by lia.
    replace (length a + i + 11 - length a) with (i + 11) by lia.
    by rewrite addInside_app.
  - done.
Qed.
End RegionFacts.

Section LoopFacts.
Variable xmlUnmarshal : bytes -> option ToolCallXML.
Variable jsonMarshal : gmap bytes bytes -> bytes.
Variable uuidNew : nat -> bytes.

Local Abbreviation loopBody := (Pacore.loopBody xmlUnmarshal jsonMarshal uuidNew).

Lemma visibleText_app e1 e2 : visibleText (e1 ++ e2) = visibleText e1 ++ visibleText e2.
Proof. unfold visibleText. by rewrite map_app, concat_app. Qed.
Lemma visibleThinking_app e1 e2 :
  visibleThinking (e1 ++ e2) = visibleThinking e1 ++ visibleThinking e2.
Proof. unfold visibleThinking. by rewrite map_app, concat_app. Qed.

Lemma emits_andThen f g t1 h1 t2 h2 :
  emits f t1 h1 → emits g t2 h2 → emits (andThen f g) (t1 ++ t2) (h1 ++ h2).
Proof.
  intros Hf Hg p. unfold andThen.
  destruct (Hf p) as (?&?&?&?). destruct (f p) as [p1 e1]. 
  destruct (Hg p1) as (?&?&?&?). destruct (g p1) as [p2 e2]. simpl in *.
  rewrite visibleText_app, visibleThinking_app. repeat split; congruence.
Qed.

Lemma emits_when c f : emits f [] [] → emits (when c f) [] [].
Proof. intros Hf p. unfold when. destruct (c p); [apply Hf|done]. Qed.

Lemma emits_stopTextBlock : emits stopTextBlock [] [].
Proof. intros p. unfold stopTextBlock. by destruct (TextContentBlockStarted p). Qed.

Lemma emits_stopThinkingBlock : emits stopThinkingBlock [] [].
Proof. intros p. unfold stopThinkingBlock. by destruct (ThinkingContentBlockStarted p). Qed.

Lemma emits_modify f :
  (∀ p, state (f p) = state p ∧ Buffer (f p) = Buffer p) → emits (modify f) [] [].
Proof. intros H p. unfold modify. simpl. destruct (H p). done. Qed.

Lemma emits_startThinkingBlock : emits startThinkingBlock [] [].
Proof.
  unfold startThinkingBlock.
  apply (emits_andThen _ _ [] [] [] []); [apply emits_when, emits_stopTextBlock|].
  apply (emits_andThen _ _ [] [] [] []); [by apply emits_when|].
  apply (emits_andThen _ _ [] [] [] []); [done|]. by apply emits_modify.
Qed.

Lemma emits_emitTextDelta text : emits (emitTextDelta text) (jsonString text) [].
Proof.
  intros p. unfold emitTextDelta. case_bool_decide as E; [by subst|].
  revert p. apply (emits_andThen _ _ [] [] (jsonString text) []).
  - apply emits_when.
    apply (emits_andThen _ _ [] [] [] []); [by apply emits_when|].
    apply (emits_andThen _ _ [] [] [] []); [done|]. by apply emits_modify.
  - intros p. unfold emit, visibleText, visibleThinking. simpl. by rewrite app_nil_r.
Qed.

Lemma emits_emitThinkingDelta text :
  emits (emitThinkingDelta text) [] (jsonString text).
Proof.
  intros p. unfold emitThinkingDelta. case_bool_decide as E; [by subst|].
  revert p. apply (emits_andThen _ _ [] [] [] (jsonString text)).
  - apply emits_when, emits_startThinkingBlock.
  - intros p. unfold emit, visibleText, visibleThinking. simpl. by rewrite app_nil_r.
Qed.

(** ASCII text is written as it is. *)
Lemma emits_text text : asciiOnly text → emits (emitTextDelta text) text [].
Proof.
  intros H. pose proof (emits_emitTextDelta text) as He.
  by rewrite jsonString_ascii in He.
Qed.

Lemma emits_thinking text : asciiOnly text → emits (emitThinkingDelta text) [] text.
Proof.
  intros H. pose proof (emits_emitThinkingDelta text) as He.
  by rewrite jsonString_ascii in He.
Qed.

Lemma emits_emitToolCall tc : emits (emitToolCall jsonMarshal uuidNew tc) [] [].
Proof.
  unfold emitToolCall.
  apply (emits_andThen _ _ [] [] [] []); [apply emits_when, emits_stopTextBlock|].
  apply (emits_andThen _ _ [] [] [] []); [apply emits_when, emits_stopThinkingBlock|].
  done.
Qed.

(** What one iteration of the loop contributes: the regions of the
    buffer followed by any [t] are the text and thinking it emits
    followed by the regions of what it leaves, followed by [t]. *)
Lemma loopBody_regions p t :
  asciiOnly (Buffer p) →
  let '(p1, e1, continue) := loopBody p in
  regionsIn (state p) (Buffer p ++ t) =
    addOutside (visibleText e1)
      (addInside (visibleThinking e1) (regionsIn (state p1) (Buffer p1 ++ t)))
  ∧ (continue = true → length (Buffer p1) < length (Buffer p))
  ∧ (continue = false →
     regionsIn (state p1) (Buffer p1) = lastRegion (state p1) (Buffer p1)).
Proof.
  intros Hascii.
  pose proof (λ k, asciiOnly_take k _ Hascii) as Htake.
  unfold loopBody. destruct (state p) eqn:Est.
  - (* StateNormal *)
    destruct (firstTag (Buffer p)) as [[i isThinking]|] eqn:Etag.
    + pose proof (firstTag_app_found _ t _ Etag) as Etag'.
      assert (i + (if isThinking then 10 else 11) ≤ length (Buffer p)) as Hfit.
      { unfold firstTag in Etag.
        destruct (Index (Buffer p) tagThinkingStart) as [a|] eqn:Ea,
                 (Index (Buffer p) tagToolCallStart) as [b|] eqn:Eb;
          try discriminate;
          try apply Index_Some_fits in Ea; try apply Index_Some_fits in Eb;
          change (length tagThinkingStart) with 10 in *;
          change (length tagToolCallStart) with 11 in *.
        - destruct (a <? b); injection Etag as <- <-; lia.
        - injection Etag as <- <-; lia.
        - injection Etag as <- <-; lia. }
      assert (∃ p1 e1, (if 0 <? i then emitTextDelta (take i (Buffer p)) p else (p, []))
                       = (p1, e1) ∧ visibleText e1 = take i (Buffer p) ∧
                       visibleThinking e1 = [] ∧ state p1 = state p ∧
                       Buffer p1 = Buffer p) as (p1 & e1 & -> & Ht & Hh & Hs & Hb).
      { destruct (0 <? i) eqn:Ei.
        - destruct (emits_text (take i (Buffer p)) (Htake i) p) as (?&?&?&?).
          destruct (emitTextDelta (take i (Buffer p)) p) as [p1 e1]. by exists p1, e1.
        - apply Nat.ltb_ge in Ei. assert (i = 0) as -> by lia.
          exists p, []. by rewrite take_0. }
      rewrite (regionsIn_unfold StateNormal). unfold regionsStep. rewrite Etag'.
      rewrite take_app_le by lia.
      destruct isThinking.
      * destruct (emits_startThinkingBlock
                    (setBuffer (drop (i + length tagThinkingStart) (Buffer p))
                       (setState StateInThinking p1))) as (Ht2&Hh2&Hs2&Hb2).
        destruct (startThinkingBlock _) as [p2 e2]. simpl in *.
        rewrite visibleText_app, visibleThinking_app, Ht, Hh, Ht2, Hh2, Hs2, Hb2.
        rewrite !app_nil_r, addInside_nil. rewrite drop_app_le by lia.
        split; [done|]. split; [|done]. intros _. rewrite length_drop. lia.
      * simpl. rewrite Ht, Hh, addInside_nil. rewrite drop_app_le by lia.
        split; [done|]. split; [|done]. intros _. rewrite length_drop. lia.
    + destruct (isPartialTag (Buffer p)) eqn:Epart.
      * destruct (15 <? length (Buffer p)) eqn:Elen.
        -- apply Nat.ltb_lt in Elen.
           destruct (emits_text (take (length (Buffer p) - 15) (Buffer p)) (Htake _) p)
             as (Ht&Hh&Hs&Hb).
           destruct (emitTextDelta _ p) as [p1 e1]. simpl in *.
           rewrite Ht, Hh, Hs, Est, addInside_nil.
           split; [|split; [done|]].
           ++ rewrite <- (take_drop (length (Buffer p) - 15) (Buffer p)) at 1.
              rewrite <- app_assoc. apply regionsIn_normal_shift.
              rewrite <- (take_drop (length (Buffer p) - 15) (Buffer p)) in Etag.
              rewrite (firstTag_app_window _ _ t Etag);
                [|rewrite length_drop; lia].
              done.
           ++ intros _. rewrite regionsIn_unfold. unfold regionsStep.
              destruct (firstTag_None _ Etag) as [H1 H2].
              unfold firstTag.
              by rewrite (Index_drop_None _ _ _ H1), (Index_drop_None _ _ _ H2).
        -- simpl. rewrite addOutside_nil, addInside_nil, Est.
           split; [done|]. split; [done|]. intros _.
           rewrite regionsIn_unfold. unfold regionsStep. by rewrite Etag.
      * destruct (emits_text (Buffer p) Hascii p) as (Ht&Hh&Hs&Hb).
        destruct (emitTextDelta _ p) as [p1 e1]. simpl in *.
        rewrite Ht, Hh, Hs, Est, addInside_nil.
        split; [|split; [done|]].
        -- apply regionsIn_normal_shift. by apply firstTag_app_clean.
        -- intros _. by rewrite regionsIn_unfold.
  - (* StateInThinking *)
    destruct (Index (Buffer p) tagThinkingEnd) as [i|] eqn:Eidx.
    + pose proof (Index_app_found _ t _ _ Eidx) as Eidx'.
      pose proof (Index_Some_fits _ _ _ Eidx) as Hfit.
      change (length tagThinkingEnd) with 11 in *.
      destruct (emits_andThen _ _ _ _ _ _ (emits_thinking (take i (Buffer p)) (Htake i))
                  emits_stopThinkingBlock p) as (Ht&Hh&Hs&Hb).
      destruct (andThen _ _ p) as [p1 e1]. simpl in *.
      rewrite Ht, Hh, app_nil_r, addOutside_nil.
      rewrite (regionsIn_unfold StateInThinking). unfold regionsStep. rewrite Eidx'.
      change (length tagThinkingEnd) with 11.
      rewrite take_app_le, drop_app_le by lia.
      split; [done|]. split; [|done]. intros _. rewrite length_drop. lia.
    + destruct (isPartialTag (Buffer p)) eqn:Epart.
      * destruct (15 <? length (Buffer p)) eqn:Elen.
        -- apply Nat.ltb_lt in Elen.
           destruct (emits_thinking (take (length (Buffer p) - 15) (Buffer p)) (Htake _) p)
             as (Ht&Hh&Hs&Hb).
           destruct (emitThinkingDelta _ p) as [p1 e1]. simpl in *.
           rewrite Ht, Hh, Hs, Est, addOutside_nil.
           split; [|split; [done|]].
           ++ rewrite <- (take_drop (length (Buffer p) - 15) (Buffer p)) at 1.
              rewrite <- app_assoc. apply regionsIn_thinking_shift.
              rewrite <- (take_drop (length (Buffer p) - 15) (Buffer p)) in Eidx.
              rewrite (Index_app_window _ _ t _ Eidx); [done|].
              rewrite length_drop. change (length tagThinkingEnd) with 11. lia.
           ++ intros _. rewrite regionsIn_unfold. unfold regionsStep.
              by rewrite (Index_drop_None _ _ _ Eidx).
        -- simpl. rewrite addOutside_nil, addInside_nil, Est.
           split; [done|]. split; [done|]. intros _.
           rewrite regionsIn_unfold. unfold regionsStep. by rewrite Eidx.
      * destruct (emits_thinking (Buffer p) Hascii p) as (Ht&Hh&Hs&Hb).
        destruct (emitThinkingDelta _ p) as [p1 e1]. simpl in *.
        rewrite Ht, Hh, Hs, Est, addOutside_nil.
        split; [|split; [done|]].
        -- apply regionsIn_thinking_shift. apply Index_app_clean; [done|].
           intros k Hk. apply (isPartialTag_false _ tagThinkingEnd k Epart); [|exact Hk].
           unfold tags. repeat constructor.
        -- intros _. by rewrite regionsIn_unfold.
  - (* StateInToolCall *)
    destruct (Index (Buffer p) tagToolCallEnd) as [i|] eqn:Eidx.
    + pose proof (Index_app_found _ t _ _ Eidx) as Eidx'.
      pose proof (Index_Some_fits _ _ _ Eidx) as Hfit.
      change (length tagToolCallEnd) with 12 in *.
      assert (∃ p1 e1,
                 match xmlUnmarshal (tagToolCallStart ++ take i (Buffer p) ++ tagToolCallEnd)
                 with Some tc => emitToolCall jsonMarshal uuidNew tc p | None => (p, []) end
                 = (p1, e1) ∧ visibleText e1 = [] ∧ visibleThinking e1 = [] ∧
                 state p1 = state p ∧ Buffer p1 = Buffer p)
        as (p1 & e1 & -> & Ht & Hh & Hs & Hb).
      { destruct (xmlUnmarshal _) as [tc|].
        - destruct (emits_emitToolCall tc p) as (?&?&?&?).
          destruct (emitToolCall _ _ tc p) as [p1 e1]. by exists p1, e1.
        - by exists p, []. }
      simpl. rewrite Ht, Hh, addOutside_nil, addInside_nil.
      rewrite (regionsIn_unfold StateInToolCall). unfold regionsStep. rewrite Eidx'.
      change (length tagToolCallEnd) with 12.
      rewrite drop_app_le by lia.
      split; [done|]. split; [|done]. intros _. rewrite length_drop. lia.
    + simpl. rewrite addOutside_nil, addInside_nil, Est.
      split; [done|]. split; [done|]. intros _.
      rewrite regionsIn_unfold. unfold regionsStep. by rewrite Eidx.
Qed.

(** An iteration that goes on has consumed a tag; what an iteration
    leaves in the buffer is an end of what it found there. *)
Lemma loopBody_buffer p :
  Buffer (loopBody p).1.1 `suffix_of` Buffer p ∧
  ((loopBody p).2 = true → length (Buffer (loopBody p).1.1) < length (Buffer p)).
Proof.
  unfold loopBody. destruct (state p) eqn:Est.
  - destruct (firstTag (Buffer p)) as [[i isThinking]|] eqn:Etag.
    + assert (i + 10 ≤ length (Buffer p)) as Hfit.
      { unfold firstTag in Etag.
        destruct (Index (Buffer p) tagThinkingStart) as [a|] eqn:Ea,
                 (Index (Buffer p) tagToolCallStart) as [b|] eqn:Eb;
          try discriminate;
          try apply Index_Some_fits in Ea; try apply Index_Some_fits in Eb;
          change (length tagThinkingStart) with 10 in *;
          change (length tagToolCallStart) with 11 in *.
        - destruct (a <? b); injection Etag as <- <-; lia.
        - injection Etag as <- <-; lia.
        - injection Etag as <- <-; lia. }
      destruct (if 0 <? i then _ else _) as [p1 e1]. destruct isThinking.
      * destruct (emits_startThinkingBlock
                    (setBuffer (drop (i + length tagThinkingStart) (Buffer p))
                       (setState StateInThinking p1))) as (_&_&_&Hb2).
        destruct (startThinkingBlock _) as [p2 e2]. simpl in *. rewrite Hb2.
        split; [apply suffix_drop|]. intros _. rewrite length_drop. lia.
      * simpl. split; [apply suffix_drop|]. intros _. rewrite length_drop. lia.
    + destruct (isPartialTag (Buffer p)).
      * destruct (15 <? length (Buffer p)).
        -- destruct (emitTextDelta _ p) as [p1 e1]. simpl.
           split; [apply suffix_drop|done].
        -- done.
      * destruct (emitTextDelta _ p) as [p1 e1]. simpl.
        split; [apply suffix_nil|done].
  - destruct (Index (Buffer p) tagThinkingEnd) as [i|] eqn:Eidx.
    + destruct (andThen _ _ p) as [p1 e1]. simpl.
      split; [apply suffix_drop|]. intros _. rewrite length_drop.
      apply Index_Some_fits in Eidx. change (length tagThinkingEnd) with 11 in *. lia.
    + destruct (isPartialTag (Buffer p)).
      * destruct (15 <? length (Buffer p)).
        -- destruct (emitThinkingDelta _ p) as [p1 e1]. simpl.
           split; [apply suffix_drop|done].
        -- done.
      * destruct (emitThinkingDelta _ p) as [p1 e1]. simpl.
        split; [apply suffix_nil|done].
  - destruct (Index (Buffer p) tagToolCallEnd) as [i|] eqn:Eidx.
    + destruct (match xmlUnmarshal _ with Some tc => _ | None => _ end) as [p1 e1].
      simpl. split; [apply suffix_drop|]. intros _. rewrite length_drop.
      apply Index_Some_fits in Eidx. change (length tagToolCallEnd) with 12 in *. lia.
    + done.
Qed.

Lemma asciiOnly_suffix (s t : bytes) : asciiOnly s → t `suffix_of` s → asciiOnly t.
Proof. intros H [u ->]. by apply Forall_app in H as [_ ?]. Qed.
End LoopFacts.

Section StreamFacts.
Variable xmlUnmarshal : bytes -> option ToolCallXML.
Variable jsonMarshal : gmap bytes bytes -> bytes.
Variable uuidNew : nat -> bytes.

Local Abbreviation loopBody := (Pacore.loopBody xmlUnmarshal jsonMarshal uuidNew).
Local Abbreviation processLoop := (Pacore.processLoop xmlUnmarshal jsonMarshal uuidNew).
Local Abbreviation processBuffer := (Pacore.processBuffer xmlUnmarshal jsonMarshal uuidNew).
Local Abbreviation PaCoReToClaudeResponse :=
  (Pacore.PaCoReToClaudeResponse xmlUnmarshal jsonMarshal uuidNew).
Local Abbreviation feed := (Pacore.feed xmlUnmarshal jsonMarshal uuidNew).

(** The fuel [processBuffer] starts with is enough: more changes nothing. *)
Lemma processLoop_fuel n m p :
  length (Buffer p) ≤ n → length (Buffer p) ≤ m → processLoop n p = processLoop m p.
Proof.
  revert m p. induction n as [|n IH]; intros m p Hn Hm.
  - destruct (Buffer p) eqn:E; [|simpl in Hn; lia].
    destruct m; simpl; by rewrite E.
  - destruct m as [|m].
    { destruct (Buffer p) eqn:E; [|simpl in Hm; lia]. simpl. by rewrite E. }
    simpl. destruct (Buffer p) eqn:E; [done|]. rewrite <- E in Hn, Hm.
    pose proof (loopBody_buffer xmlUnmarshal jsonMarshal uuidNew p) as [_ Hlt].
    destruct (loopBody p) as [[p1 e1] [|]]; [|done].
    specialize (Hlt eq_refl). simpl in Hlt.
    rewrite (IH m p1); [done|lia|lia].
Qed.

Lemma regionsIn_nil st : regionsIn st [] = lastRegion st [].
Proof. by destruct st. Qed.

(** The loop as a whole: what it emits, followed by the regions of what
    it leaves in the buffer and of any further input [t], are the regions
    of the buffer it started with followed by [t]; and what it leaves
    holds no further tag. *)
Lemma processLoop_regions n p t :
  length (Buffer p) ≤ n → asciiOnly (Buffer p) →
  let '(p', e) := processLoop n p in
  regionsIn (state p) (Buffer p ++ t) =
    addOutside (visibleText e)
      (addInside (visibleThinking e) (regionsIn (state p') (Buffer p' ++ t)))
  ∧ regionsIn (state p') (Buffer p') = lastRegion (state p') (Buffer p')
  ∧ Buffer p' `suffix_of` Buffer p.
Proof.
  revert p. induction n as [|n IH]; intros p Hn Hascii.
  - destruct (Buffer p) eqn:E; [|simpl in Hn; lia].
    simpl. rewrite E. simpl. rewrite E.
    rewrite addOutside_nil, addInside_nil. split; [done|].
    split; [apply regionsIn_nil|done].
  - simpl. destruct (Buffer p) eqn:E.
    { simpl. rewrite E, addOutside_nil, addInside_nil. split; [done|].
      split; [apply regionsIn_nil|done]. }
    rewrite <- E in *. clear E.
    pose proof (loopBody_regions xmlUnmarshal jsonMarshal uuidNew p t Hascii) as H.
    pose proof (loopBody_buffer xmlUnmarshal jsonMarshal uuidNew p) as [Hsuf Hlt].
    destruct (loopBody p) as [[p1 e1] [|]]; simpl in Hsuf, Hlt.
    + destruct H as (Hr & _ & _). specialize (Hlt eq_refl).
      specialize (IH p1 ltac:(lia) (asciiOnly_suffix _ _ Hascii Hsuf)).
      destruct (processLoop n p1) as [p2 e2]. destruct IH as (IH1 & IH2 & IH3).
      split; [|split; [done|by etrans]]. rewrite Hr, IH1.
      rewrite visibleText_app, visibleThinking_app, addOutside_app, addInside_app.
      done.
    + destruct H as (Hr & _ & Hlast). split; [done|]. split; [by apply Hlast|done].
Qed.

Lemma regionsIn_last_outside p :
  regionsIn (state p) (Buffer p) = lastRegion (state p) (Buffer p) →
  outside (regionsIn (state p) (Buffer p)) = pendingText p ∧
  inside (regionsIn (state p) (Buffer p)) = pendingThinking p ∧
  final (regionsIn (state p) (Buffer p)) = state p ∧
  open (regionsIn (state p) (Buffer p)) = pendingToolCall p.
Proof.
  intros ->. unfold pendingText, pendingThinking, pendingToolCall.
  by destruct (state p).
Qed.

(** The invariant of a stream of ASCII text chunks. *)
Lemma feed_regions model chunks param t :
  Forall handledAsText chunks →
  let p0 := default newParams param in
  asciiOnly (Buffer p0 ++ inputOf chunks) →
  let '(param', e) := feed model chunks param in
  let p' := default newParams param' in
  (regionsIn (state p0) (Buffer p0) = lastRegion (state p0) (Buffer p0) →
   regionsIn (state p') (Buffer p') = lastRegion (state p') (Buffer p')) ∧
  regionsIn (state p0) (Buffer p0 ++ inputOf chunks ++ t) =
    addOutside (visibleText e)
      (addInside (visibleThinking e) (regionsIn (state p') (Buffer p' ++ t))).
Proof.
  intros Hall. revert param t.
  induction Hall as [|c chunks Hc _ IH]; intros param t; simpl; intros Hascii.
  - rewrite addOutside_nil, addInside_nil. done.
  - unfold Pacore.PaCoReToClaudeResponse.
    set (p0 := match param with Some p => p | None => newParams end).
    change (default newParams param) with p0 in Hascii |- *.
    set (start := if negb (MessageStarted p0) then _ else _).
    assert (state start.1 = state p0 ∧ Buffer start.1 = Buffer p0 ∧
            visibleText start.2 = [] ∧ visibleThinking start.2 = []) as (Hs & Hb & Ht & Hh).
    { subst start. by destruct (MessageStarted p0). }
    destruct start as [p1 results]. simpl in Hs, Hb, Ht, Hh.
    unfold inputOf in Hascii |- *. cbn [map concat] in Hascii |- *.
    fold (inputOf chunks) in Hascii |- *.
    case_bool_decide as Ec.
    + destruct Hc as [Hc|Hc]; [done|]. rewrite Hc, Ec. simpl.
      specialize (IH (Some p1) t). simpl in IH.
      rewrite Ec in Hascii. simpl in Hascii. rewrite Hb in IH. specialize (IH Hascii).
      destruct (feed model chunks (Some p1)) as [param' e'].
      rewrite visibleText_app, visibleThinking_app, Ht, Hh. simpl.
      rewrite Hs in IH. done.
    + unfold Pacore.processBuffer.
      rewrite app_assoc in Hascii. apply asciiOnly_app in Hascii as [Hascii1 Hascii2].
      rewrite <- Hb in Hascii1.
      pose proof (processLoop_regions
                    (length (Buffer (setBuffer (Buffer p1 ++ chunkContentOf c) p1)))
                    (setBuffer (Buffer p1 ++ chunkContentOf c) p1) (inputOf chunks ++ t)
                    ltac:(done) Hascii1) as H.
      destruct (processLoop _ _) as [p2 e2]. destruct H as (H1 & H2 & H3).
      specialize (IH (Some p2) t). simpl in IH, H3.
      assert (asciiOnly (Buffer p2 ++ inputOf chunks)) as Hascii3.
      { apply asciiOnly_app. split; [|done]. exact (asciiOnly_suffix _ _ Hascii1 H3). }
      specialize (IH Hascii3).
      destruct (feed model chunks (Some p2)) as [param' e'].
      destruct IH as [IH1 IH2]. split; [by auto|].
      simpl in H1. rewrite Hs, Hb in H1. rewrite <- !app_assoc in H1.
      rewrite <- app_assoc, H1, IH2.
      rewrite !visibleText_app, !visibleThinking_app, Ht, Hh. simpl.
      by rewrite addOutside_app, addInside_app.
Qed.

(** Content fidelity up to what is held back: the text and thinking
    emitted for a stream of chunks of ASCII text, none of them a finish
    chunk, followed by the bytes still in the buffer, are the text outside
    and inside the regions of the input they deliver.  (Text with other
    bytes is written through [jsonString], piece by piece.) *)
Lemma stream_fidelity model chunks :
  Forall handledAsText chunks → asciiOnly (inputOf chunks) →
  let '(param', e) := feed model chunks None in
  let p' := default newParams param' in
  visibleText e ++ pendingText p' = outside (regions (inputOf chunks)) ∧
  visibleThinking e ++ pendingThinking p' = inside (regions (inputOf chunks)) ∧
  state p' = final (regions (inputOf chunks)) ∧
  pendingToolCall p' = open (regions (inputOf chunks)).
Proof.
  intros Hall Hascii.
  pose proof (feed_regions model chunks None [] Hall Hascii) as H. simpl in H.
  destruct (feed model chunks None) as [param' e].
  destruct H as [H1 H2]. specialize (H1 eq_refl).
  rewrite !app_nil_r in H2.
  change (regions (inputOf chunks)) with (regionsIn StateNormal (inputOf chunks)).
  rewrite H2. simpl.
  destruct (regionsIn_last_outside _ H1) as (-> & -> & -> & ->). done.
Qed.
End StreamFacts.

Section PairingFacts.

Lemma countStops_app i e1 e2 : countStops i (e1 ++ e2) = countStops i e1 + countStops i e2.
Proof. unfold countStops. by rewrite filter_app, length_app. Qed.

Lemma countStops_cons i e es :
  countStops i (e :: es) = (if isStop i e then 1 else 0) + countStops i es.
Proof.
  unfold countStops. rewrite filter_cons.
  destruct (decide (isStop i e = true)) as [->|H]; [done|].
  by apply not_true_is_false in H as ->.
Qed.

Lemma wellPaired_ext o o' n n' events :
  (∀ i, (0 ≤ i < n)%Z → o i = o' i) → (n ≤ n')%Z →
  wellPaired o n events → wellPaired o' n' events.
Proof.
  intros Ho Hn. induction events as [|e post IH]; [done|].
  simpl. intros [He Hpost]. split; [|by apply IH].
  destruct e; try done. destruct He as [Hi Hc]. split; [lia|].
  by rewrite <- Ho.
Qed.

Lemma wellPaired_snoc_other o n events e :
  (∀ i, isStop i e = false) → (∀ i, isStart i e = false) →
  wellPaired o n events → wellPaired o n (events ++ [e]).
Proof.
  intros Hstop Hstart. induction events as [|e' post IH]; simpl.
  - intros _. split; [|done]. destruct e; try done.
    specialize (Hstart index). simpl in Hstart. by case_bool_decide.
  - intros [He Hpost]. split; [|by apply IH].
    destruct e'; try done. destruct He as [Hi Hc]. split; [done|].
    rewrite countStops_app, countStops_cons, Hstop. simpl.
    unfold countStops at 2. simpl. lia.
Qed.

Lemma wellPaired_snoc_stop o n events j :
  o j = true →
  wellPaired o n events →
  wellPaired (λ i, if decide (i = j) then false else o i) n
    (events ++ [ContentBlockStop j]).
Proof.
  intros Hj. induction events as [|e post IH]; simpl; [done|].
  intros [He Hpost]. split; [|by apply IH].
  destruct e; try done. destruct He as [Hi Hc]. split; [done|].
  rewrite countStops_app, countStops_cons, Hc. simpl.
  unfold countStops at 1. simpl.
  destruct (decide (index = j)) as [->|Hne].
  - rewrite Hj. by rewrite bool_decide_eq_true_2.
  - rewrite bool_decide_eq_false_2 by done. destruct (o index); lia.
Qed.

Lemma wellPaired_snoc_start o n events j cb :
  (0 ≤ j)%Z → o j = true ∨ (n ≤ j)%Z →
  wellPaired o n events →
  wellPaired (λ i, if decide (i = j) then true else o i) (Z.max n (j + 1))
    (events ++ [ContentBlockStart j cb]).
Proof.
  intros Hj0 Hj. induction events as [|e post IH]; simpl.
  - intros _. split; [|done]. split; [lia|].
    by rewrite decide_True.
  - intros [He Hpost]. split; [|by apply IH].
    destruct e; try done. destruct He as [Hi Hc]. split; [lia|].
    rewrite countStops_app, Hc. unfold countStops at 1. simpl.
    destruct (decide (index = j)) as [->|Hne]; [|lia].
    destruct Hj as [->|Hj]; [lia|lia].
Qed.

Lemma wellPaired_start o n events pre i cb post :
  wellPaired o n events → events = pre ++ ContentBlockStart i cb :: post →
  countStops i post = (if o i then 0 else 1).
Proof.
  intros H ->. induction pre as [|e pre IH]; simpl in H.
  - by destruct H as [[_ H] _].
  - apply IH. by destruct H.
Qed.
End PairingFacts.

Ltac open_cases :=
  unfold isOpen; simpl;
  repeat match goal with
         | |- context [decide ?P] => destruct (decide P)
         | |- context [bool_decide ?P] => destruct (bool_decide_reflect P)
         end;
  simpl; try done; try lia; try congruence.

Section PairingSteps.
Variable xmlUnmarshal : bytes -> option ToolCallXML.
Variable jsonMarshal : gmap bytes bytes -> bytes.
Variable uuidNew : nat -> bytes.

Lemma isOpen_text p :
  TextContentBlockStarted p = true → isOpen p (TextContentBlockIndex p) = true.
Proof. intros H. unfold isOpen. rewrite H. simpl. by rewrite bool_decide_eq_true_2. Qed.

Lemma isOpen_thinking p :
  ThinkingContentBlockStarted p = true → isOpen p (ThinkingContentBlockIndex p) = true.
Proof.
  intros H. unfold isOpen. rewrite H. simpl. apply orb_true_iff. right.
  by apply bool_decide_eq_true_2.
Qed.

Lemma paired_other p events e :
  (∀ i, isStop i e = false) → (∀ i, isStart i e = false) →
  paired p events → paired p (events ++ [e]).
Proof. intros ?? [? ?]. split; [done|]. by apply wellPaired_snoc_other. Qed.

Lemma paired_stopText p events :
  TextContentBlockStarted p = true → paired p events →
  paired (setText (-1) false p) (events ++ [ContentBlockStop (TextContentBlockIndex p)]).
Proof.
  intros Hs [(H0 & Ht & Hth & Hd) Hw]. rewrite Hs in Ht. split.
  - repeat split; simpl; try done; try lia.
  - pose proof (isOpen_text p Hs) as Ho.
    pose proof (wellPaired_snoc_stop _ _ _ _ Ho Hw) as Hw'.
    revert Hw'. apply wellPaired_ext; [|simpl; lia].
    intros i Hi. unfold isOpen; simpl. rewrite ?Hs.
    destruct (ThinkingContentBlockStarted p) eqn:E; open_cases.
    subst. by destruct Hd.
Qed.

Lemma paired_stopThinking p events :
  ThinkingContentBlockStarted p = true → paired p events →
  paired (setThinking (-1) false p)
    (events ++ [ContentBlockStop (ThinkingContentBlockIndex p)]).
Proof.
  intros Hs [(H0 & Ht & Hth & Hd) Hw]. rewrite Hs in Hth. split.
  - repeat split; simpl; try done; try lia.
  - pose proof (isOpen_thinking p Hs) as Ho.
    pose proof (wellPaired_snoc_stop _ _ _ _ Ho Hw) as Hw'.
    revert Hw'. apply wellPaired_ext; [|simpl; lia].
    intros i Hi. unfold isOpen; simpl. rewrite ?Hs.
    destruct (TextContentBlockStarted p) eqn:E; open_cases.
    subst. by destruct Hd.
Qed.

Lemma keepsPairing_stopTextBlock : keepsPairing stopTextBlock.
Proof.
  intros p events H. unfold stopTextBlock.
  destruct (TextContentBlockStarted p) eqn:E; simpl.
  - by apply paired_stopText.
  - by rewrite app_nil_r.
Qed.

Lemma keepsPairing_stopThinkingBlock : keepsPairing stopThinkingBlock.
Proof.
  intros p events H. unfold stopThinkingBlock.
  destruct (ThinkingContentBlockStarted p) eqn:E; simpl.
  - by apply paired_stopThinking.
  - by rewrite app_nil_r.
Qed.

Lemma keepsPairing_andThen f g :
  keepsPairing f → keepsPairing g → keepsPairing (andThen f g).
Proof.
  intros Hf Hg p events H. unfold andThen.
  specialize (Hf p events H). destruct (f p) as [p1 e1].
  specialize (Hg p1 _ Hf). destruct (g p1) as [p2 e2]. simpl in *.
  by rewrite app_assoc.
Qed.

Lemma keepsPairing_when c f : keepsPairing f → keepsPairing (when c f).
Proof.
  intros Hf p events H. unfold when. destruct (c p); [by apply Hf|].
  simpl. by rewrite app_nil_r.
Qed.

Lemma keepsPairing_emitTextDelta text : keepsPairing (emitTextDelta text).
Proof.
  intros p events H. unfold emitTextDelta.
  case_bool_decide as Etext; [simpl; by rewrite app_nil_r|].
  unfold andThen, when, emit, modify.
  destruct (TextContentBlockStarted p) eqn:Es; simpl.
  - by apply paired_other.
  - destruct H as [(H0 & Ht & Hth & Hd) Hw]. rewrite Es in Ht.
    rewrite Ht. simpl. change (events ++ [?a; ?b]) with (events ++ ([a] ++ [b])). rewrite app_assoc.
    apply paired_other; [done|done|]. split.
    + repeat split; simpl; try lia.
      * destruct (ThinkingContentBlockStarted p); [lia|done].
      * intros _ E. rewrite E in Hth. lia.
    + simpl.
      pose proof (wellPaired_snoc_start (isOpen p) _ events
                    (NextContentBlockIndex p) TextBlock H0 (or_intror (Z.le_refl _)) Hw)
        as Hw'.
      revert Hw'. apply wellPaired_ext; [|lia].
      intros i Hi. unfold isOpen; simpl. rewrite ?Es.
      destruct (ThinkingContentBlockStarted p) eqn:E; open_cases.
Qed.

Lemma keepsPairing_startThinkingBlock : keepsPairing startThinkingBlock.
Proof.
  unfold startThinkingBlock.
  apply keepsPairing_andThen; [apply keepsPairing_when, keepsPairing_stopTextBlock|].
  intros p events [(H0 & Ht & Hth & Hd) Hw].
  unfold andThen, when, emit, modify.
  case_bool_decide as Ei; simpl.
  - split.
    + repeat split; simpl; try lia.
      * destruct (TextContentBlockStarted p); [lia|done].
      * intros E _. rewrite E in Ht. lia.
    + simpl.
      pose proof (wellPaired_snoc_start (isOpen p) _ events
                    (NextContentBlockIndex p) ThinkingBlock H0
                    (or_intror (Z.le_refl _)) Hw) as Hw'.
      revert Hw'. apply wellPaired_ext; [|lia].
      intros i Hi. unfold isOpen; simpl.
      destruct (TextContentBlockStarted p) eqn:E,
               (ThinkingContentBlockStarted p) eqn:E'; open_cases.
  - destruct (ThinkingContentBlockStarted p) eqn:Es; [|done].
    split.
    + repeat split; simpl; try done; try lia.
    + simpl.
      pose proof (isOpen_thinking p Es) as Ho.
      pose proof (wellPaired_snoc_start (isOpen p) _ events
                    (ThinkingContentBlockIndex p) ThinkingBlock
                    (proj1 Hth) (or_introl Ho) Hw) as Hw'.
      revert Hw'. apply wellPaired_ext; [|lia].
      intros i Hi. unfold isOpen; simpl. rewrite ?Es.
      destruct (TextContentBlockStarted p) eqn:E; open_cases.
Qed.

Lemma keepsPairing_emitThinkingDelta text : keepsPairing (emitThinkingDelta text).
Proof.
  intros p events H. unfold emitThinkingDelta.
  case_bool_decide as Etext; [simpl; by rewrite app_nil_r|].
  revert p events H. apply keepsPairing_andThen.
  - apply keepsPairing_when, keepsPairing_startThinkingBlock.
  - intros p events H. by apply paired_other.
Qed.

Lemma keepsPairing_toolUse (tc : ToolCallXML) :
  keepsPairing (λ p,
    (drawUUID (setNext (NextContentBlockIndex p + 1) p),
     [ContentBlockStart (NextContentBlockIndex p)
        (ToolUseBlock (B "call_" ++ uuidNew (UUIDs p)) (Name tc));
      ContentBlockDelta (NextContentBlockIndex p)
        (InputJsonDelta (jsonMarshal (Parameters tc)));
      ContentBlockStop (NextContentBlockIndex p)])).
Proof.
  intros p events [(H0 & Ht & Hth & Hd) Hw]. simpl. split.
  - repeat split; simpl; try done; try lia.
    + destruct (TextContentBlockStarted p); [lia|done].
    + destruct (ThinkingContentBlockStarted p); [lia|done].
  - simpl.
    change (events ++ [?a; ?b; ?c]) with (events ++ [a] ++ [b] ++ [c]).
    rewrite !app_assoc.
    pose proof (wellPaired_snoc_start (isOpen p) _ events
                  (NextContentBlockIndex p)
                  (ToolUseBlock (B "call_" ++ uuidNew (UUIDs p)) (Name tc)) H0
                  (or_intror (Z.le_refl _)) Hw) as Hw1.
    pose proof (wellPaired_snoc_other _ _ _
                  (ContentBlockDelta (NextContentBlockIndex p)
                     (InputJsonDelta (jsonMarshal (Parameters tc))))
                  (λ _, eq_refl) (λ _, eq_refl) Hw1) as Hw2.
    assert ((λ i, if decide (i = NextContentBlockIndex p) then true
                  else isOpen p i) (NextContentBlockIndex p) = true) as Ho
      by (simpl; by rewrite decide_True).
    pose proof (wellPaired_snoc_stop _ _ _ _ Ho Hw2) as Hw3.
    revert Hw3. apply wellPaired_ext; [|lia].
    intros i Hi. unfold isOpen; simpl.
    destruct (TextContentBlockStarted p) eqn:E,
             (ThinkingContentBlockStarted p) eqn:E'; open_cases.
Qed.

Lemma keepsPairing_emitToolCall tc : keepsPairing (emitToolCall jsonMarshal uuidNew tc).
Proof.
  unfold emitToolCall.
  apply keepsPairing_andThen; [apply keepsPairing_when, keepsPairing_stopTextBlock|].
  apply keepsPairing_andThen; [apply keepsPairing_when, keepsPairing_stopThinkingBlock|].
  apply keepsPairing_toolUse.
Qed.

Lemma keepsPairing_handleFinish reason : keepsPairing (handleFinish reason).
Proof.
  unfold handleFinish.
  apply keepsPairing_andThen; [apply keepsPairing_when, keepsPairing_stopThinkingBlock|].
  apply keepsPairing_andThen; [apply keepsPairing_when, keepsPairing_stopTextBlock|].
  apply keepsPairing_andThen; intros p events H; by apply paired_other.
Qed.

(** After [handleFinish] no block is open. *)
Lemma handleFinish_closed reason p :
  TextContentBlockStarted (handleFinish reason p).1 = false ∧
  ThinkingContentBlockStarted (handleFinish reason p).1 = false.
Proof.
  unfold handleFinish, andThen, when, emit, stopThinkingBlock, stopTextBlock.
  destruct (ThinkingContentBlockStarted p) eqn:E1,
           (TextContentBlockStarted p) eqn:E2; simpl; rewrite ?E1, ?E2; simpl;
    rewrite ?E1, ?E2; done.
Qed.
End PairingSteps.

Section PairingStream.
Variable xmlUnmarshal : bytes -> option ToolCallXML.
Variable jsonMarshal : gmap bytes bytes -> bytes.
Variable uuidNew : nat -> bytes.

Local Abbreviation loopBody := (Pacore.loopBody xmlUnmarshal jsonMarshal uuidNew).
Local Abbreviation processLoop := (Pacore.processLoop xmlUnmarshal jsonMarshal uuidNew).
Local Abbreviation processBuffer := (Pacore.processBuffer xmlUnmarshal jsonMarshal uuidNew).
Local Abbreviation PaCoReToClaudeResponse :=
  (Pacore.PaCoReToClaudeResponse xmlUnmarshal jsonMarshal uuidNew).
Local Abbreviation feed := (Pacore.feed xmlUnmarshal jsonMarshal uuidNew).
Local Abbreviation stream := (Pacore.stream xmlUnmarshal jsonMarshal uuidNew).

Lemma loopBody_paired p events :
  paired p events → paired (loopBody p).1.1 (events ++ (loopBody p).1.2).
Proof.
  intros H. unfold Pacore.loopBody. destruct (state p).
  - destruct (firstTag (Buffer p)) as [[i isThinking]|].
    + assert (∃ p1 e1, (if 0 <? i then emitTextDelta (take i (Buffer p)) p else (p, []))
                       = (p1, e1) ∧ paired p1 (events ++ e1)) as (p1 & e1 & -> & H1).
      { destruct (0 <? i).
        - pose proof (keepsPairing_emitTextDelta (take i (Buffer p)) p events H) as H1.
          destruct (emitTextDelta _ p) as [p1 e1]. by exists p1, e1.
        - exists p, []. by rewrite app_nil_r. }
      destruct isThinking; [|done].
      pose proof (keepsPairing_startThinkingBlock
                    (setBuffer (drop (i + length tagThinkingStart) (Buffer p))
                       (setState StateInThinking p1)) _ H1) as H2.
      destruct (startThinkingBlock _) as [p2 e2]. simpl in *. by rewrite app_assoc.
    + destruct (isPartialTag (Buffer p)).
      * destruct (15 <? length (Buffer p)); [|simpl; by rewrite app_nil_r].
        pose proof (keepsPairing_emitTextDelta
                      (take (length (Buffer p) - 15) (Buffer p)) p events H) as H1.
        by destruct (emitTextDelta _ p) as [p1 e1].
      * pose proof (keepsPairing_emitTextDelta (Buffer p) p events H) as H1.
        by destruct (emitTextDelta _ p) as [p1 e1].
  - destruct (Index (Buffer p) tagThinkingEnd) as [i|].
    + pose proof (keepsPairing_andThen _ _
                    (keepsPairing_emitThinkingDelta (take i (Buffer p)))
                    keepsPairing_stopThinkingBlock p events H) as H1.
      by destruct (andThen _ _ p) as [p1 e1].
    + destruct (isPartialTag (Buffer p)).
      * destruct (15 <? length (Buffer p)); [|simpl; by rewrite app_nil_r].
        pose proof (keepsPairing_emitThinkingDelta
                      (take (length (Buffer p) - 15) (Buffer p)) p events H) as H1.
        by destruct (emitThinkingDelta _ p) as [p1 e1].
      * pose proof (keepsPairing_emitThinkingDelta (Buffer p) p events H) as H1.
        by destruct (emitThinkingDelta _ p) as [p1 e1].
  - destruct (Index (Buffer p) tagToolCallEnd) as [i|];
      [|simpl; by rewrite app_nil_r].
    destruct (xmlUnmarshal _) as [tc|]; [|simpl; by rewrite app_nil_r].
    pose proof (keepsPairing_emitToolCall jsonMarshal uuidNew tc p events H) as H1.
    by destruct (emitToolCall _ _ tc p) as [p1 e1].
Qed.

Lemma processLoop_paired n : keepsPairing (processLoop n).
Proof.
  induction n as [|n IH]; intros p events H; simpl.
  - destruct (Buffer p); simpl; by rewrite app_nil_r.
  - destruct (Buffer p); [simpl; by rewrite app_nil_r|].
    pose proof (loopBody_paired p events H) as H1.
    destruct (loopBody p) as [[p1 e1] [|]]; [|done]. simpl in H1.
    specialize (IH p1 _ H1). destruct (processLoop n p1) as [p2 e2].
    simpl in *. by rewrite app_assoc.
Qed.

Lemma paired_newParams : paired newParams [].
Proof. repeat split; simpl; lia. Qed.

Lemma PaCoReToClaudeResponse_paired model c param events :
  paired (default newParams param) events →
  paired (PaCoReToClaudeResponse model c param).1
    (events ++ (PaCoReToClaudeResponse model c param).2).
Proof.
  intros H. unfold Pacore.PaCoReToClaudeResponse.
  set (p0 := match param with Some p => p | None => newParams end).
  change (default newParams param) with p0 in H.
  set (start := if negb (MessageStarted p0) then _ else _).
  assert (paired start.1 events ∧ paired start.1 (events ++ start.2)) as [H0 H1].
  { subst start. destruct (MessageStarted p0); simpl.
    - by rewrite app_nil_r.
    - split; [done|]. apply (paired_other p0); done. }
  destruct start as [p1 results]. simpl in H0, H1.
  set (chunkContent := chunkContentOf c).
  case_bool_decide as Ec.
  - destruct (negb _); [|done]. by apply keepsPairing_handleFinish.
  - pose proof (processLoop_paired (length (Buffer (setBuffer (Buffer p1 ++ chunkContent) p1)))
                  (setBuffer (Buffer p1 ++ chunkContent) p1) _ H1) as H2.
    unfold Pacore.processBuffer.
    destruct (processLoop _ _) as [p2 e2]. simpl in *. by rewrite app_assoc.
Qed.

Lemma feed_paired model chunks param events :
  paired (default newParams param) events →
  paired (default newParams (feed model chunks param).1)
    (events ++ (feed model chunks param).2).
Proof.
  revert param events. induction chunks as [|c chunks IH]; intros param events H; simpl.
  - by rewrite app_nil_r.
  - pose proof (PaCoReToClaudeResponse_paired model c param events H) as H1.
    destruct (PaCoReToClaudeResponse model c param) as [p e].
    specialize (IH (Some p) _ H1).
    destruct (feed model chunks (Some p)) as [param' e']. simpl in *.
    by rewrite app_assoc.
Qed.

Lemma feed_app model chunks1 chunks2 param :
  feed model (chunks1 ++ chunks2) param =
    let '(param1, e1) := feed model chunks1 param in
    let '(param2, e2) := feed model chunks2 param1 in
    (param2, e1 ++ e2).
Proof.
  revert param. induction chunks1 as [|c chunks1 IH]; intros param; simpl.
  - by destruct (feed model chunks2 param).
  - destruct (PaCoReToClaudeResponse model c param) as [p e].
    rewrite IH. destruct (feed model chunks1 (Some p)) as [param1 e1].
    destruct (feed model chunks2 param1) as [param2 e2]. by rewrite app_assoc.
Qed.

(** The call for a chunk that only carries a finish reason. *)
Lemma PaCoReToClaudeResponse_finish model reason param :
  reason ≠ [] →
  ∃ p, PaCoReToClaudeResponse model (finishChunk reason) param = handleFinish reason p ∧
       (∀ events, paired (default newParams param) events → paired p events).
Proof.
  intros Hr. unfold Pacore.PaCoReToClaudeResponse, finishChunk.
  set (p0 := match param with Some p => p | None => newParams end).
  rewrite bool_decide_eq_true_2 by done.
  rewrite (bool_decide_eq_false_2 (reason = [])) by done. simpl.
  destruct (MessageStarted p0); simpl; eauto.
Qed.

(** C2 (content-block pairing).  In a stream that ends with a chunk carrying
    a non-empty finish reason, whatever the chunks before it, every
    [content_block_start] with index [i] is followed by exactly one
    [content_block_stop] with index [i] before the end of the events; this
    holds for text, thinking and tool_use blocks alike. *)
Theorem content_blocks_paired model chunks reason pre i cb post :
  reason ≠ [] →
  stream model (chunks ++ [finishChunk reason]) = pre ++ ContentBlockStart i cb :: post →
  countStops i post = 1.
Proof.
  intros Hr. unfold Pacore.stream. rewrite feed_app.
  pose proof (feed_paired model chunks None [] paired_newParams) as H.
  destruct (feed model chunks None) as [param1 e1]. simpl in H.
  cbn [Pacore.feed].
  destruct (PaCoReToClaudeResponse_finish model reason param1 Hr) as (p & -> & Hp).
  specialize (Hp _ H).
  pose proof (keepsPairing_handleFinish reason p e1 Hp) as [_ Hw].
  destruct (handleFinish_closed reason p) as [Ht Hth].
  destruct (handleFinish reason p) as [p2 e2]. simpl in *.
  rewrite app_nil_r. intros Heq.
  rewrite (wellPaired_start _ _ _ _ _ _ _ Hw Heq).
  unfold isOpen. by rewrite Ht, Hth.
Qed.
End PairingStream.

Lemma content_blocks_paired_witness :
  B "tool_calls" ≠ [] ∧
  stream xmlWeather jsonEmpty uuidConst (B "m")
    ([JSONChunk (B "Hi") []; JSONChunk (B "<tool_call>q</tool_call>") []]
     ++ [finishChunk (B "tool_calls")])
  = [MessageStart (B "msg_uuid") (B "m");
     ContentBlockStart 0 TextBlock;
     ContentBlockDelta 0 (TextDelta (B "Hi"));
     ContentBlockStop 0]
    ++ ContentBlockStart 1 (ToolUseBlock (B "call_uuid") (B "weather"))
    :: [ContentBlockDelta 1 (InputJsonDelta (B "{}"));
        ContentBlockStop 1;
        MessageDelta (B "tool_use");
        MessageStop] ∧
  countStops 1 [ContentBlockDelta 1 (InputJsonDelta (B "{}"));
                ContentBlockStop 1;
                MessageDelta (B "tool_use");
                MessageStop] = 1.
Proof.
  assert (B "tool_calls" ≠ []) as H1 by done.
  assert (stream xmlWeather jsonEmpty uuidConst (B "m")
            ([JSONChunk (B "Hi") []; JSONChunk (B "<tool_call>q</tool_call>") []]
             ++ [finishChunk (B "tool_calls")])
          = [MessageStart (B "msg_uuid") (B "m");
             ContentBlockStart 0 TextBlock;
             ContentBlockDelta 0 (TextDelta (B "Hi"));
             ContentBlockStop 0]
            ++ ContentBlockStart 1 (ToolUseBlock (B "call_uuid") (B "weather"))
            :: [ContentBlockDelta 1 (InputJsonDelta (B "{}"));
                ContentBlockStop 1;
                MessageDelta (B "tool_use");
                MessageStop]) as H2 by (vm_compute; reflexivity).
  split; [exact H1|]. split; [exact H2|].
  exact (content_blocks_paired xmlWeather jsonEmpty uuidConst _ _ _ _ _ _ _ H1 H2).
Defined.

Section Lifecycle.
Variable xmlUnmarshal : bytes -> option ToolCallXML.
Variable jsonMarshal : gmap bytes bytes -> bytes.
Variable uuidNew : nat -> bytes.

Local Abbreviation loopBody := (Pacore.loopBody xmlUnmarshal jsonMarshal uuidNew).
Local Abbreviation processLoop := (Pacore.processLoop xmlUnmarshal jsonMarshal uuidNew).
Local Abbreviation processBuffer := (Pacore.processBuffer xmlUnmarshal jsonMarshal uuidNew).
Local Abbreviation PaCoReToClaudeResponse :=
  (Pacore.PaCoReToClaudeResponse xmlUnmarshal jsonMarshal uuidNew).
Local Abbreviation feed := (Pacore.feed xmlUnmarshal jsonMarshal uuidNew).
Local Abbreviation stream := (Pacore.stream xmlUnmarshal jsonMarshal uuidNew).

Lemma keepsMessage_andThen f g :
  keepsMessage f → keepsMessage g → keepsMessage (andThen f g).
Proof.
  intros Hf Hg p. unfold andThen.
  destruct (Hf p) as [Hf1 Hf2]. destruct (f p) as [p1 e1].
  destruct (Hg p1) as [Hg1 Hg2]. destruct (g p1) as [p2 e2]. simpl in *.
  split; [congruence|]. by apply Forall_app.
Qed.

Lemma keepsMessage_when c f : keepsMessage f → keepsMessage (when c f).
Proof. intros Hf p. unfold when. destruct (c p); [apply Hf|done]. Qed.

Lemma keepsMessage_emit e :
  (∀ p, isMessageStart (e p) = false) → keepsMessage (emit e).
Proof. intros H p. split; [done|]. unfold emit. simpl. by constructor. Qed.

Lemma keepsMessage_modify f :
  (∀ p, MessageStarted (f p) = MessageStarted p) → keepsMessage (modify f).
Proof. intros H p. split; [apply H|]. unfold modify. simpl. constructor. Qed.

Lemma keepsMessage_stopTextBlock : keepsMessage stopTextBlock.
Proof.
  intros p. unfold stopTextBlock. destruct (TextContentBlockStarted p); simpl; [|done].
  split; [done|]. by constructor.
Qed.

Lemma keepsMessage_stopThinkingBlock : keepsMessage stopThinkingBlock.
Proof.
  intros p. unfold stopThinkingBlock.
  destruct (ThinkingContentBlockStarted p); simpl; [|done].
  split; [done|]. by constructor.
Qed.

Lemma keepsMessage_startThinkingBlock : keepsMessage startThinkingBlock.
Proof.
  unfold startThinkingBlock.
  apply keepsMessage_andThen; [apply keepsMessage_when, keepsMessage_stopTextBlock|].
  apply keepsMessage_andThen; [by apply keepsMessage_when|].
  apply keepsMessage_andThen; [by apply keepsMessage_emit|].
  by apply keepsMessage_modify.
Qed.

Lemma keepsMessage_emitTextDelta text : keepsMessage (emitTextDelta text).
Proof.
  intros p. unfold emitTextDelta. case_bool_decide; [done|].
  revert p. apply keepsMessage_andThen; [|by apply keepsMessage_emit].
  apply keepsMessage_when.
  apply keepsMessage_andThen; [by apply keepsMessage_when|].
  apply keepsMessage_andThen; [by apply keepsMessage_emit|].
  by apply keepsMessage_modify.
Qed.

Lemma keepsMessage_emitThinkingDelta text : keepsMessage (emitThinkingDelta text).
Proof.
  intros p. unfold emitThinkingDelta. case_bool_decide; [done|].
  revert p. apply keepsMessage_andThen; [|by apply keepsMessage_emit].
  apply keepsMessage_when, keepsMessage_startThinkingBlock.
Qed.

Lemma keepsMessage_emitToolCall tc : keepsMessage (emitToolCall jsonMarshal uuidNew tc).
Proof.
  unfold emitToolCall.
  apply keepsMessage_andThen; [apply keepsMessage_when, keepsMessage_stopTextBlock|].
  apply keepsMessage_andThen; [apply keepsMessage_when, keepsMessage_stopThinkingBlock|].
  intros p. split; [done|]. simpl. by repeat constructor.
Qed.

Lemma keepsMessage_handleFinish reason : keepsMessage (handleFinish reason).
Proof.
  unfold handleFinish.
  apply keepsMessage_andThen; [apply keepsMessage_when, keepsMessage_stopThinkingBlock|].
  apply keepsMessage_andThen; [apply keepsMessage_when, keepsMessage_stopTextBlock|].
  apply keepsMessage_andThen; by apply keepsMessage_emit.
Qed.

Lemma loopBody_keepsMessage p :
  MessageStarted (loopBody p).1.1 = MessageStarted p ∧
  Forall (λ e, isMessageStart e = false) (loopBody p).1.2.
Proof.
  unfold Pacore.loopBody. destruct (state p).
  - destruct (firstTag (Buffer p)) as [[i isThinking]|].
    + assert (∃ p1 e1, (if 0 <? i then emitTextDelta (take i (Buffer p)) p else (p, []))
                       = (p1, e1) ∧ MessageStarted p1 = MessageStarted p ∧
                       Forall (λ e, isMessageStart e = false) e1)
        as (p1 & e1 & -> & H1 & H2).
      { destruct (0 <? i).
        - destruct (keepsMessage_emitTextDelta (take i (Buffer p)) p) as [? ?].
          destruct (emitTextDelta _ p) as [p1 e1]. by exists p1, e1.
        - by exists p, []. }
      destruct isThinking; [|done].
      destruct (keepsMessage_startThinkingBlock
                  (setBuffer (drop (i + length tagThinkingStart) (Buffer p))
                     (setState StateInThinking p1))) as [H3 H4].
      destruct (startThinkingBlock _) as [p2 e2]. simpl in *.
      split; [congruence|]. by apply Forall_app.
    + destruct (isPartialTag (Buffer p)).
      * destruct (15 <? length (Buffer p)); [|done].
        destruct (keepsMessage_emitTextDelta
                    (take (length (Buffer p) - 15) (Buffer p)) p) as [? ?].
        by destruct (emitTextDelta _ p) as [p1 e1].
      * destruct (keepsMessage_emitTextDelta (Buffer p) p) as [? ?].
        by destruct (emitTextDelta _ p) as [p1 e1].
  - destruct (Index (Buffer p) tagThinkingEnd) as [i|].
    + destruct (keepsMessage_andThen _ _
                  (keepsMessage_emitThinkingDelta (take i (Buffer p)))
                  keepsMessage_stopThinkingBlock p) as [? ?].
      by destruct (andThen _ _ p) as [p1 e1].
    + destruct (isPartialTag (Buffer p)).
      * destruct (15 <? length (Buffer p)); [|done].
        destruct (keepsMessage_emitThinkingDelta
                    (take (length (Buffer p) - 15) (Buffer p)) p) as [? ?].
        by destruct (emitThinkingDelta _ p) as [p1 e1].
      * destruct (keepsMessage_emitThinkingDelta (Buffer p) p) as [? ?].
        by destruct (emitThinkingDelta _ p) as [p1 e1].
  - destruct (Index (Buffer p) tagToolCallEnd) as [i|]; [|done].
    destruct (xmlUnmarshal _) as [tc|]; [|done].
    destruct (keepsMessage_emitToolCall tc p) as [? ?].
    by destruct (emitToolCall _ _ tc p) as [p1 e1].
Qed.

Lemma processLoop_keepsMessage n : keepsMessage (processLoop n).
Proof.
  induction n as [|n IH]; intros p; simpl.
  - by destruct (Buffer p).
  - destruct (Buffer p); [done|].
    destruct (loopBody_keepsMessage p) as [H1 H2].
    destruct (loopBody p) as [[p1 e1] [|]]; [|done]. simpl in *.
    destruct (IH p1) as [H3 H4]. destruct (processLoop n p1) as [p2 e2].
    simpl in *. split; [congruence|]. by apply Forall_app.
Qed.

(** A call on a stream whose message has started. *)
Lemma PaCoReToClaudeResponse_started model c p :
  MessageStarted p = true →
  MessageStarted (PaCoReToClaudeResponse model c (Some p)).1 = true ∧
  Forall (λ e, isMessageStart e = false) (PaCoReToClaudeResponse model c (Some p)).2.
Proof.
  intros Hs. unfold Pacore.PaCoReToClaudeResponse. rewrite Hs. simpl.
  case_bool_decide as Ec.
  - destruct (negb _); [|done].
    destruct (keepsMessage_handleFinish (finishReasonOf c) p) as [H1 H2].
    by rewrite H1.
  - unfold Pacore.processBuffer.
    destruct (processLoop_keepsMessage
                (length (Buffer (setBuffer (Buffer p ++ chunkContentOf c) p)))
                (setBuffer (Buffer p ++ chunkContentOf c) p)) as [H1 H2].
    destruct (processLoop _ _) as [p2 e2]. simpl in *. by rewrite H1.
Qed.

Lemma feed_started model chunks p :
  MessageStarted p = true →
  Forall (λ e, isMessageStart e = false) (feed model chunks (Some p)).2.
Proof.
  revert p. induction chunks as [|c chunks IH]; intros p Hs; simpl; [done|].
  destruct (PaCoReToClaudeResponse_started model c p Hs) as [H1 H2].
  destruct (PaCoReToClaudeResponse model c (Some p)) as [p1 e1].
  specialize (IH p1 H1). destruct (feed model chunks (Some p1)) as [param' e'].
  simpl in *. by apply Forall_app.
Qed.

Lemma handleFinish_ends reason p :
  ∃ pre, (handleFinish reason p).2 =
         pre ++ [MessageDelta (if bool_decide (reason = B "tool_calls")
                               then B "tool_use" else B "end_turn");
                 MessageStop].
Proof.
  unfold handleFinish, andThen, when, emit, stopThinkingBlock, stopTextBlock.
  destruct (ThinkingContentBlockStarted p) eqn:E1; simpl;
    destruct (TextContentBlockStarted p) eqn:E2; simpl;
    rewrite ?E1, ?E2; simpl; rewrite ?E1, ?E2; simpl.
  - by exists [ContentBlockStop (ThinkingContentBlockIndex p);
               ContentBlockStop (TextContentBlockIndex p)].
  - by exists [ContentBlockStop (ThinkingContentBlockIndex p)].
  - by exists [ContentBlockStop (TextContentBlockIndex p)].
  - by exists [].
Qed.

(** C3, as amended (message lifecycle).  When the first chunk of a stream
    carries content or carries no finish reason, [message_start] is the
    first event and no later event is a [message_start]; and a stream whose
    last chunk carries a non-empty finish reason ends with [message_delta]
    followed by [message_stop].  Nothing stops chunks fed after that from
    yielding further events. *)
Theorem message_lifecycle model first rest chunks reason :
  handledAsText first →
  reason ≠ [] →
  (∃ tail, stream model (first :: rest) =
             MessageStart (B "msg_" ++ uuidNew 0) model :: tail ∧
           Forall (λ e, isMessageStart e = false) tail) ∧
  (∃ pre, stream model (chunks ++ [finishChunk reason]) =
            pre ++ [MessageDelta (if bool_decide (reason = B "tool_calls")
                                  then B "tool_use" else B "end_turn");
                    MessageStop]).
Proof.
  intros Hfirst Hr. split.
  - unfold Pacore.stream. cbn [Pacore.feed].
    assert (∃ p1 e1, PaCoReToClaudeResponse model first None
                     = (p1, MessageStart (B "msg_" ++ uuidNew 0) model :: e1) ∧
                     MessageStarted p1 = true ∧
                     Forall (λ e, isMessageStart e = false) e1)
      as (p1 & e1 & -> & Hs & He).
    { unfold Pacore.PaCoReToClaudeResponse. simpl.
      case_bool_decide as Ec.
      - destruct Hfirst as [?| ->]; [done|]. simpl. eauto.
      - unfold Pacore.processBuffer.
        match goal with |- context [processLoop ?n ?q] =>
          destruct (processLoop_keepsMessage n q) as [H1 H2];
          destruct (processLoop n q) as [p2 e2] end.
        simpl in *. eauto. }
    pose proof (feed_started model rest p1 Hs) as Hrest.
    destruct (feed model rest (Some p1)) as [param' e']. simpl in *.
    eexists. split; [done|]. by apply Forall_app.
  - unfold Pacore.stream. rewrite feed_app.
    destruct (feed model chunks None) as [param1 e1]. cbn [Pacore.feed].
    destruct (PaCoReToClaudeResponse_finish xmlUnmarshal jsonMarshal uuidNew
                model reason param1 Hr) as (p & -> & _).
    destruct (handleFinish_ends reason p) as [pre Hpre].
    destruct (handleFinish reason p) as [p2 e2]. simpl in *. subst e2.
    exists (e1 ++ pre). by rewrite app_nil_r, app_assoc.
Qed.

(** C5, as amended (contentless JSON chunk).  For a chunk that is valid
    JSON and has neither content nor a finish reason: once the message has
    started, the call emits nothing and leaves the whole state as it was; on
    the first call of a stream it emits [message_start] and nothing else,
    and records the message id, the model and that the message has started,
    leaving the parser state, the buffer and the block bookkeeping alone. *)
Theorem contentless_chunk model param :
  PaCoReToClaudeResponse model (JSONChunk [] []) param =
    let p := default newParams param in
    if MessageStarted p then (p, [])
    else (setMessage (B "msg_" ++ uuidNew (UUIDs p)) model p,
          [MessageStart (B "msg_" ++ uuidNew (UUIDs p)) model]).
Proof.
  unfold Pacore.PaCoReToClaudeResponse.
  destruct param as [p|]; simpl; [by destruct (MessageStarted p)|done].
Qed.

End Lifecycle.

Lemma message_lifecycle_witness :
  handledAsText (JSONChunk (B "a") []) ∧
  B "stop" ≠ [] ∧
  (∃ tail, stream xmlWeather jsonEmpty uuidConst (B "m")
             (JSONChunk (B "a") [] :: [JSONChunk (B "b") []]) =
             MessageStart (B "msg_" ++ uuidConst 0) (B "m") :: tail ∧
           Forall (λ e, isMessageStart e = false) tail) ∧
  (∃ pre, stream xmlWeather jsonEmpty uuidConst (B "m")
            ([JSONChunk (B "a") []] ++ [finishChunk (B "stop")]) =
            pre ++ [MessageDelta (if bool_decide (B "stop" = B "tool_calls")
                                  then B "tool_use" else B "end_turn");
                    MessageStop]).
Proof.
  assert (handledAsText (JSONChunk (B "a") [])) as H1 by (by left).
  assert (B "stop" ≠ []) as H2 by done.
  split; [exact H1|]. split; [exact H2|].
  exact (message_lifecycle xmlWeather jsonEmpty uuidConst (B "m")
           (JSONChunk (B "a") []) [JSONChunk (B "b") []] [JSONChunk (B "a") []]
           (B "stop") H1 H2).
Defined.

(** C4 as stated fails: the same input in two chunks or in one gives two
    text deltas or one. *)
Lemma chunking_changes_events :
  inputOf [JSONChunk (B "Hello ") []; JSONChunk (B "world") []]
  = inputOf [JSONChunk (B "Hello world") []] ∧
  stream xmlWeather jsonEmpty uuidConst (B "m")
    [JSONChunk (B "Hello ") []; JSONChunk (B "world") []]
  ≠ stream xmlWeather jsonEmpty uuidConst (B "m") [JSONChunk (B "Hello world") []].
Proof. split; [reflexivity|]. vm_compute. discriminate. Qed.

(** C3 as stated fails: a chunk fed after the finish reason has been
    handled is processed like any other, so [message_stop] is not the last
    event. *)
Lemma events_after_message_stop :
  let events :=
    stream xmlWeather jsonEmpty uuidConst (B "m")
      [JSONChunk (B "a") []; finishChunk (B "stop"); JSONChunk (B "b") []] in
  events = [MessageStart (B "msg_uuid") (B "m");
            ContentBlockStart 0 TextBlock;
            ContentBlockDelta 0 (TextDelta (B "a"));
            ContentBlockStop 0;
            MessageDelta (B "end_turn");
            MessageStop;
            ContentBlockStart 1 TextBlock;
            ContentBlockDelta 1 (TextDelta (B "b"))]
  ∧ last events ≠ Some MessageStop.
Proof. vm_compute. split; [reflexivity|discriminate]. Qed.

(** C5 as stated fails: on the first call of a stream a chunk without
    content and without finish reason still yields [message_start]. *)
Lemma contentless_first_chunk_emits :
  snd (PaCoReToClaudeResponse xmlWeather jsonEmpty uuidConst (B "m")
         (JSONChunk [] []) None)
  = [MessageStart (B "msg_uuid") (B "m")]
  ∧ snd (PaCoReToClaudeResponse xmlWeather jsonEmpty uuidConst (B "m")
           (JSONChunk [] []) None) ≠ [].
Proof. vm_compute. split; [reflexivity|discriminate]. Qed.

(** C1 (content fidelity) at a failing input.  The text ["a <"] ends in a
    possible beginning of a tag and is held back; [handleFinish] closes the
    message without flushing the buffer, so no [text_delta] is ever emitted
    although all of the input lies outside the tagged regions. *)
Theorem withheld_text_lost :
  let events := stream xmlWeather jsonEmpty uuidConst (B "m")
                  [JSONChunk (B "a <") []; finishChunk (B "stop")] in
  events = [MessageStart (B "msg_uuid") (B "m"); MessageDelta (B "end_turn"); MessageStop]
  ∧ visibleText events = []
  ∧ outside (regions (B "a <")) = B "a <".
Proof. vm_compute. done. Qed.

Section WindowFacts.
Implicit Types s t : bytes.

Lemma isPartialTag_true s :
  isPartialTag s = true ↔
  ∃ tag k, tag ∈ tags ∧ 0 < k < length tag ∧ take k tag `suffix_of` s.
Proof.
  unfold isPartialTag. rewrite existsb_exists. split.
  - intros (tag & Htag & H). apply existsb_exists in H as (k & Hk & H).
    exists tag, k. apply in_seq in Hk. split; [by apply list_elem_of_In|].
    split; [lia|]. unfold HasSuffix in H. by apply bool_decide_eq_true in H.
  - intros (tag & k & Htag & Hk & H). exists tag. split; [by apply list_elem_of_In|].
    apply existsb_exists. exists k. split; [apply in_seq; lia|].
    unfold HasSuffix. by apply bool_decide_eq_true.
Qed.

Lemma tags_short tag : tag ∈ tags → length tag ≤ 12.
Proof.
  unfold tags. intros H. repeat (apply elem_of_cons in H as [->|H]; [simpl; lia|]).
  by apply elem_of_nil in H.
Qed.

Lemma suffix_of_window (u s : bytes) m :
  u `suffix_of` s → length u ≤ m → u `suffix_of` drop (length s - m) s.
Proof.
  intros [k ->] Hlen. rewrite length_app.
  destruct (decide (m ≤ length k + length u)) as [H|H].
  - rewrite drop_app_le by lia. by apply suffix_app_r.
  - replace (length k + length u - m) with 0 by lia. simpl. by exists k.
Qed.

Lemma isPartialTag_last15 s :
  isPartialTag (drop (length s - 15) s) = isPartialTag s.
Proof.
  destruct (isPartialTag s) eqn:E.
  - apply isPartialTag_true in E as (tag & k & Htag & Hk & H).
    apply isPartialTag_true. exists tag, k. split; [done|]. split; [done|].
    apply suffix_of_window; [done|].
    rewrite length_take. pose proof (tags_short tag Htag). lia.
  - destruct (isPartialTag (drop (length s - 15) s)) eqn:E'; [|done].
    apply isPartialTag_true in E' as (tag & k & Htag & Hk & H).
    assert (isPartialTag s = true); [|congruence].
    apply isPartialTag_true. exists tag, k. split; [done|]. split; [done|].
    etrans; [exact H|]. apply suffix_drop.
Qed.

(** X3.  The last 15 bytes decide [isPartialTag]: no tag has a beginning longer
    than that, so the 15 bytes [processBuffer] keeps of a longer buffer
    end in a beginning of a tag exactly when the buffer does. *)
Theorem isPartialTag_window s :
  isPartialTag (drop (length s - 15) s) = isPartialTag s.
Proof. exact (isPartialTag_last15 s). Qed.
End WindowFacts.

Section WithheldFacts.
Variable xmlUnmarshal : bytes -> option ToolCallXML.
Variable jsonMarshal : gmap bytes bytes -> bytes.
Variable uuidNew : nat -> bytes.

Local Abbreviation loopBody := (Pacore.loopBody xmlUnmarshal jsonMarshal uuidNew).
Local Abbreviation processLoop := (Pacore.processLoop xmlUnmarshal jsonMarshal uuidNew).
Local Abbreviation PaCoReToClaudeResponse :=
  (Pacore.PaCoReToClaudeResponse xmlUnmarshal jsonMarshal uuidNew).
Local Abbreviation feed := (Pacore.feed xmlUnmarshal jsonMarshal uuidNew).

Lemma emits_handleFinish reason : emits (handleFinish reason) [] [].
Proof.
  unfold handleFinish.
  apply (emits_andThen _ _ [] [] [] []); [apply emits_when, emits_stopThinkingBlock|].
  apply (emits_andThen _ _ [] [] [] []); [apply emits_when, emits_stopTextBlock|].
  apply (emits_andThen _ _ [] [] [] []); done.
Qed.

(** When the loop body returns, what it leaves is little. *)
Lemma loopBody_holdsBack p :
  (loopBody p).2 = false → holdsBackLittle (loopBody p).1.1.
Proof.
  unfold Pacore.loopBody, holdsBackLittle. destruct (state p) eqn:Est.
  - destruct (firstTag (Buffer p)) as [[i isThinking]|].
    { destruct (if 0 <? i then _ else _) as [p1 e1]. destruct isThinking.
      - by destruct (startThinkingBlock _).
      - done. }
    destruct (isPartialTag (Buffer p)) eqn:Epart.
    + destruct (15 <? length (Buffer p)) eqn:Elen.
      * apply Nat.ltb_lt in Elen.
        destruct (emitTextDelta _ p) as [p1 e1]. simpl. intros _. right.
        rewrite length_drop. split; [lia|]. right.
        by rewrite isPartialTag_last15.
      * apply Nat.ltb_ge in Elen. simpl. intros _. right. split; [lia|by right].
    + destruct (emitTextDelta _ p) as [p1 e1]. simpl. intros _. right.
      split; [lia|by left].
  - destruct (Index (Buffer p) tagThinkingEnd) as [i|].
    { by destruct (andThen _ _ p). }
    destruct (isPartialTag (Buffer p)) eqn:Epart.
    + destruct (15 <? length (Buffer p)) eqn:Elen.
      * apply Nat.ltb_lt in Elen.
        destruct (emitThinkingDelta _ p) as [p1 e1]. simpl. intros _. right.
        rewrite length_drop. split; [lia|]. right.
        by rewrite isPartialTag_last15.
      * apply Nat.ltb_ge in Elen. simpl. intros _. right. split; [lia|by right].
    + destruct (emitThinkingDelta _ p) as [p1 e1]. simpl. intros _. right.
      split; [lia|by left].
  - destruct (Index (Buffer p) tagToolCallEnd) as [i|].
    { by destruct (match xmlUnmarshal _ with Some tc => _ | None => _ end). }
    simpl. intros _. by left.
Qed.

Lemma processLoop_holdsBack n p :
  length (Buffer p) ≤ n → holdsBackLittle (processLoop n p).1.
Proof.
  revert p. induction n as [|n IH]; intros p Hn; simpl.
  - destruct (Buffer p) eqn:E; [|simpl in Hn; lia].
    simpl. right. rewrite E. simpl. split; [lia|by left].
  - destruct (Buffer p) eqn:E.
    { simpl. right. rewrite E. simpl. split; [lia|by left]. }
    rewrite <- E in Hn.
    pose proof (loopBody_buffer xmlUnmarshal jsonMarshal uuidNew p) as [_ Hlt].
    pose proof (loopBody_holdsBack p) as Hh.
    destruct (loopBody p) as [[p1 e1] [|]]; simpl in *.
    + specialize (Hlt eq_refl).
      specialize (IH p1 ltac:(lia)). by destruct (processLoop n p1).
    + by apply Hh.
Qed.

Lemma PaCoReToClaudeResponse_holdsBack model c param :
  holdsBackLittle (default newParams param) →
  holdsBackLittle (PaCoReToClaudeResponse model c param).1.
Proof.
  intros H. unfold Pacore.PaCoReToClaudeResponse.
  set (p0 := match param with Some p => p | None => newParams end).
  change (default newParams param) with p0 in H.
  set (start := if negb (MessageStarted p0) then _ else _).
  assert (holdsBackLittle start.1) as H1.
  { subst start. by destruct (MessageStarted p0). }
  destruct start as [p1 results]. simpl in H1.
  case_bool_decide as Ec.
  - destruct (negb _); [|done].
    destruct (emits_handleFinish (finishReasonOf c) p1) as (_ & _ & Hs & Hb).
    unfold holdsBackLittle. by rewrite Hs, Hb.
  - unfold Pacore.processBuffer.
    pose proof (processLoop_holdsBack
                  (length (Buffer (setBuffer (Buffer p1 ++ chunkContentOf c) p1)))
                  (setBuffer (Buffer p1 ++ chunkContentOf c) p1) ltac:(done)) as H2.
    by destruct (processLoop _ _).
Qed.

(** X2.  Bounded withholding.  Whatever the chunks of a stream, after them the
    transcoder is inside a tool call or holds back at most 15 bytes, and
    only bytes that end in a beginning of a tag. *)
Theorem withheld_bounded model chunks :
  holdsBackLittle (default newParams (feed model chunks None).1).
Proof.
  assert (∀ param, holdsBackLittle (default newParams param) →
                   holdsBackLittle (default newParams (feed model chunks param).1)) as H.
  { induction chunks as [|c chunks IH]; intros param Hp; simpl; [done|].
    pose proof (PaCoReToClaudeResponse_holdsBack model c param Hp) as H1.
    destruct (PaCoReToClaudeResponse model c param) as [p e].
    specialize (IH (Some p) H1). by destruct (feed model chunks (Some p)). }
  apply H. right. simpl. split; [lia|by left].
Qed.
End WithheldFacts.

Section TagFreeFacts.
Variable xmlUnmarshal : bytes -> option ToolCallXML.
Variable jsonMarshal : gmap bytes bytes -> bytes.
Variable uuidNew : nat -> bytes.

Local Abbreviation loopBody := (Pacore.loopBody xmlUnmarshal jsonMarshal uuidNew).
Local Abbreviation processLoop := (Pacore.processLoop xmlUnmarshal jsonMarshal uuidNew).
Local Abbreviation PaCoReToClaudeResponse :=
  (Pacore.PaCoReToClaudeResponse xmlUnmarshal jsonMarshal uuidNew).
Local Abbreviation feed := (Pacore.feed xmlUnmarshal jsonMarshal uuidNew).
Local Abbreviation stream := (Pacore.stream xmlUnmarshal jsonMarshal uuidNew).

Lemma firstTag_take s i b k :
  firstTag s = Some (i, b) → k ≤ i → firstTag (take k s) = None.
Proof.
  unfold firstTag. intros H Hk.
  assert (Index (take k s) tagThinkingStart = None ∧
          Index (take k s) tagToolCallStart = None) as [-> ->]; [|done].
  destruct (Index s tagThinkingStart) as [a|] eqn:Ea,
           (Index s tagToolCallStart) as [c|] eqn:Ec; try discriminate.
  - destruct (a <? c) eqn:E; injection H as <- <-;
      [apply Nat.ltb_lt in E|apply Nat.ltb_ge in E];
      split; (eapply Index_take_first; [done|eassumption|lia]).
  - injection H as <- <-. split.
    + by eapply Index_take_first.
    + by apply Index_take_absent.
  - injection H as <- <-. split.
    + by apply Index_take_absent.
    + by eapply Index_take_first.
Qed.

Lemma firstTag_take_None s k : firstTag s = None → firstTag (take k s) = None.
Proof.
  intros H. destruct (firstTag_None _ H) as [H1 H2]. unfold firstTag.
  rewrite (Index_take_absent s tagThinkingStart k) by done.
  by rewrite (Index_take_absent s tagToolCallStart k) by done.
Qed.

Lemma tagFree_stopTextBlock p : Forall tagFree (stopTextBlock p).2.
Proof.
  unfold stopTextBlock. destruct (TextContentBlockStarted p); simpl; by repeat constructor.
Qed.

Lemma tagFree_stopThinkingBlock p : Forall tagFree (stopThinkingBlock p).2.
Proof.
  unfold stopThinkingBlock.
  destruct (ThinkingContentBlockStarted p); simpl; by repeat constructor.
Qed.

Lemma tagFree_startThinkingBlock p : Forall tagFree (startThinkingBlock p).2.
Proof.
  unfold startThinkingBlock, andThen, when, emit, modify, stopTextBlock.
  destruct (TextContentBlockStarted p); simpl;
    repeat case_bool_decide; simpl; by repeat constructor.
Qed.

(** Writing a text through [jsonString] creates no tag. *)
Lemma firstTag_jsonString text : firstTag text = None → firstTag (jsonString text) = None.
Proof.
  intros H. destruct (firstTag_None _ H) as [H1 H2]. unfold firstTag.
  rewrite (Index_jsonString_None text tagThinkingStart), (Index_jsonString_None text tagToolCallStart);
    try done; by repeat constructor.
Qed.

Lemma tagFree_emitTextDelta text p :
  firstTag text = None → Forall tagFree (emitTextDelta text p).2.
Proof.
  intros H. apply firstTag_jsonString in H.
  unfold emitTextDelta, andThen, when, emit, modify.
  case_bool_decide; [by constructor|].
  destruct (TextContentBlockStarted p); simpl;
    repeat case_bool_decide; simpl; by repeat constructor.
Qed.

Lemma tagFree_emitThinkingDelta text p :
  Index text tagThinkingEnd = None → Forall tagFree (emitThinkingDelta text p).2.
Proof.
  intros H. apply (Index_jsonString_None text tagThinkingEnd) in H;
    [|by repeat constructor|done].
  unfold emitThinkingDelta. case_bool_decide; [by constructor|].
  unfold andThen, when, emit.
  destruct (ThinkingContentBlockStarted p); simpl; [by repeat constructor|].
  pose proof (tagFree_startThinkingBlock p) as Hs.
  destruct (startThinkingBlock p) as [p1 e1]. simpl in *.
  apply Forall_app. split; [done|]. by repeat constructor.
Qed.

Lemma tagFree_emitToolCall tc p :
  Forall tagFree (emitToolCall jsonMarshal uuidNew tc p).2.
Proof.
  unfold emitToolCall, andThen, when, stopTextBlock, stopThinkingBlock.
  destruct (TextContentBlockStarted p); simpl;
    destruct (ThinkingContentBlockStarted p); simpl; by repeat constructor.
Qed.

Lemma tagFree_handleFinish reason p : Forall tagFree (handleFinish reason p).2.
Proof.
  unfold handleFinish, andThen, when, emit, stopTextBlock, stopThinkingBlock.
  destruct (ThinkingContentBlockStarted p); simpl;
    destruct (TextContentBlockStarted p); simpl; by repeat constructor.
Qed.

Lemma loopBody_tagFree p : Forall tagFree (loopBody p).1.2.
Proof.
  unfold Pacore.loopBody. destruct (state p).
  - destruct (firstTag (Buffer p)) as [[i isThinking]|] eqn:Etag.
    + assert (∃ p1 e1, (if 0 <? i then emitTextDelta (take i (Buffer p)) p else (p, []))
                       = (p1, e1) ∧ Forall tagFree e1) as (p1 & e1 & -> & H1).
      { destruct (0 <? i).
        - pose proof (tagFree_emitTextDelta (take i (Buffer p)) p
                        (firstTag_take _ _ _ i Etag (le_n _))) as H.
          destruct (emitTextDelta _ p) as [p1 e1]. by exists p1, e1.
        - by exists p, []. }
      destruct isThinking; [|done].
      pose proof (tagFree_startThinkingBlock
                    (setBuffer (drop (i + length tagThinkingStart) (Buffer p))
                       (setState StateInThinking p1))) as H2.
      destruct (startThinkingBlock _) as [p2 e2]. simpl in *. by apply Forall_app.
    + destruct (isPartialTag (Buffer p)).
      * destruct (15 <? length (Buffer p)); [|by constructor].
        pose proof (tagFree_emitTextDelta (take (length (Buffer p) - 15) (Buffer p)) p
                      (firstTag_take_None _ _ Etag)) as H.
        by destruct (emitTextDelta _ p).
      * pose proof (tagFree_emitTextDelta (Buffer p) p Etag) as H.
        by destruct (emitTextDelta _ p).
  - destruct (Index (Buffer p) tagThinkingEnd) as [i|] eqn:Eidx.
    + unfold andThen.
      pose proof (tagFree_emitThinkingDelta (take i (Buffer p)) p
                    (Index_take_first (Buffer p) tagThinkingEnd i i ltac:(done) Eidx (le_n _))) as H.
      destruct (emitThinkingDelta _ p) as [p1 e1].
      pose proof (tagFree_stopThinkingBlock p1) as H'.
      destruct (stopThinkingBlock p1) as [p2 e2]. simpl in *. by apply Forall_app.
    + destruct (isPartialTag (Buffer p)).
      * destruct (15 <? length (Buffer p)); [|by constructor].
        pose proof (tagFree_emitThinkingDelta (take (length (Buffer p) - 15) (Buffer p)) p
                      (Index_take_absent (Buffer p) tagThinkingEnd _ ltac:(done) Eidx)) as H.
        by destruct (emitThinkingDelta _ p).
      * pose proof (tagFree_emitThinkingDelta (Buffer p) p Eidx) as H.
        by destruct (emitThinkingDelta _ p).
  - destruct (Index (Buffer p) tagToolCallEnd) as [i|]; [|by constructor].
    destruct (xmlUnmarshal _) as [tc|]; [|by constructor].
    pose proof (tagFree_emitToolCall tc p) as H.
    by destruct (emitToolCall _ _ tc p).
Qed.

Lemma processLoop_tagFree n p : Forall tagFree (processLoop n p).2.
Proof.
  revert p. induction n as [|n IH]; intros p; simpl.
  - destruct (Buffer p); by constructor.
  - destruct (Buffer p); [by constructor|].
    pose proof (loopBody_tagFree p) as H.
    destruct (loopBody p) as [[p1 e1] [|]]; [|done]. simpl in H.
    specialize (IH p1). destruct (processLoop n p1) as [p2 e2]. simpl in *.
    by apply Forall_app.
Qed.

(** X4.  No markup in the deltas.  Whatever the state a call starts from, no
    text delta it emits holds a complete start tag and no thinking delta a
    complete [</thinking>]. *)
Theorem deltas_tagFree model c param :
  Forall tagFree (PaCoReToClaudeResponse model c param).2.
Proof.
  unfold Pacore.PaCoReToClaudeResponse.
  set (p0 := match param with Some p => p | None => newParams end).
  set (start := if negb (MessageStarted p0) then _ else _).
  assert (Forall tagFree start.2) as H1.
  { subst start. destruct (MessageStarted p0); simpl; by repeat constructor. }
  destruct start as [p1 results]. simpl in H1.
  case_bool_decide as Ec.
  - destruct (negb _); [|done]. apply tagFree_handleFinish.
  - unfold Pacore.processBuffer.
    pose proof (processLoop_tagFree
                  (length (Buffer (setBuffer (Buffer p1 ++ chunkContentOf c) p1)))
                  (setBuffer (Buffer p1 ++ chunkContentOf c) p1)) as H2.
    destruct (processLoop _ _) as [p2 e2]. simpl in *. by apply Forall_app.
Qed.
End TagFreeFacts.

Section BracketFacts.
Variable xmlUnmarshal : bytes -> option ToolCallXML.
Variable jsonMarshal : gmap bytes bytes -> bytes.
Variable uuidNew : nat -> bytes.

Local Abbreviation loopBody := (Pacore.loopBody xmlUnmarshal jsonMarshal uuidNew).
Local Abbreviation processLoop := (Pacore.processLoop xmlUnmarshal jsonMarshal uuidNew).
Local Abbreviation PaCoReToClaudeResponse :=
  (Pacore.PaCoReToClaudeResponse xmlUnmarshal jsonMarshal uuidNew).
Local Abbreviation feed := (Pacore.feed xmlUnmarshal jsonMarshal uuidNew).
Local Abbreviation stream := (Pacore.stream xmlUnmarshal jsonMarshal uuidNew).

Lemma trackEvents_app st e1 e2 :
  trackEvents st (e1 ++ e2) =
    match trackEvents st e1 with Some st' => trackEvents st' e2 | None => None end.
Proof.
  revert st. induction e1 as [|e e1 IH]; intros st; simpl; [done|].
  destruct (trackEvent st e); [apply IH|done].
Qed.

Ltac flags :=
  repeat match goal with
         | E : ?x = true |- context [if ?x then _ else _] => rewrite E
         | E : ?x = false |- context [if ?x then _ else _] => rewrite E
         | E : ?x = true, H : context [if ?x then _ else _] |- _ => rewrite E in H
         | E : ?x = false, H : context [if ?x then _ else _] |- _ => rewrite E in H
         | E : ?x = true |- context [negb ?x] => rewrite E
         | E : ?x = false |- context [negb ?x] => rewrite E
         end.

Ltac crush :=
  unfold follows, closedOK, openBlock, trackEvent in *; simpl in *; flags; simpl in *;
  repeat (first
    [ progress simplify_eq/=
    | progress flags
    | case_bool_decide
    | match goal with
      | H : _ ∧ _ |- _ => destruct H
      | H : ?a = true → _, E : ?a = true |- _ => specialize (H E)
      | H : ?a = false → _, E : ?a = false |- _ => specialize (H E)
      | H : ¬ (_ ∧ _) |- _ => exfalso; apply H; split; [congruence|try congruence; lia]
      | H : ¬ (_ = _) |- _ => exfalso; apply H; congruence
      end ]);
  repeat split; try done; try lia; try congruence.

Lemma follows_stopTextBlock p :
  closedOK p → ThinkingContentBlockStarted p = false →
  follows p (stopTextBlock p).1 (stopTextBlock p).2 ∧
  TextContentBlockStarted (stopTextBlock p).1 = false ∧
  ThinkingContentBlockStarted (stopTextBlock p).1 = false.
Proof.
  intros Hc Hth. unfold stopTextBlock.
  destruct (TextContentBlockStarted p) eqn:E; crush.
Qed.

Lemma follows_stopThinkingBlock p :
  closedOK p → TextContentBlockStarted p = false →
  follows p (stopThinkingBlock p).1 (stopThinkingBlock p).2 ∧
  TextContentBlockStarted (stopThinkingBlock p).1 = false ∧
  ThinkingContentBlockStarted (stopThinkingBlock p).1 = false.
Proof.
  intros Hc Ht. unfold stopThinkingBlock.
  destruct (ThinkingContentBlockStarted p) eqn:E; crush.
Qed.

Lemma follows_emitTextDelta text p :
  closedOK p → ThinkingContentBlockStarted p = false →
  follows p (emitTextDelta text p).1 (emitTextDelta text p).2 ∧
  ThinkingContentBlockStarted (emitTextDelta text p).1 = false.
Proof.
  intros Hc Hth. unfold emitTextDelta, andThen, when, emit, modify.
  destruct (bool_decide (text = [])); [crush|].
  destruct (TextContentBlockStarted p) eqn:E; simpl; [crush|].
  destruct Hc as [Hc Hc2]. specialize (Hc2 Hth). rewrite (Hc E). simpl. crush.
Qed.

Lemma follows_startThinkingBlock p :
  closedOK p → ThinkingContentBlockStarted p = false →
  follows p (startThinkingBlock p).1 (startThinkingBlock p).2 ∧
  TextContentBlockStarted (startThinkingBlock p).1 = false ∧
  ThinkingContentBlockStarted (startThinkingBlock p).1 = true.
Proof.
  intros Hc Hth. unfold startThinkingBlock, andThen, when, emit, modify, stopTextBlock.
  destruct Hc as [Hc1 Hc2]. specialize (Hc2 Hth).
  destruct (TextContentBlockStarted p) eqn:E; simpl; rewrite ?E; simpl;
    rewrite Hc2; simpl; crush.
Qed.

Lemma follows_emitThinkingDelta text p :
  closedOK p → TextContentBlockStarted p = false →
  follows p (emitThinkingDelta text p).1 (emitThinkingDelta text p).2 ∧
  TextContentBlockStarted (emitThinkingDelta text p).1 = false.
Proof.
  intros Hc Ht. unfold emitThinkingDelta.
  destruct (bool_decide (text = [])); [crush|].
  unfold andThen, when, emit.
  destruct (ThinkingContentBlockStarted p) eqn:E; simpl; [crush|].
  destruct (follows_startThinkingBlock p Hc E) as (Hf & Ht' & Hth').
  destruct (startThinkingBlock p) as [p1 e1]. simpl in *.
  destruct Hf as (Htr & Hs & Hc1 & Hc2).
  split; [|done]. split; [|done].
  rewrite trackEvents_app, Htr. crush.
Qed.

Lemma follows_emitToolCall tc p :
  closedOK p →
  ¬ (TextContentBlockStarted p = true ∧ ThinkingContentBlockStarted p = true) →
  follows p (emitToolCall jsonMarshal uuidNew tc p).1
    (emitToolCall jsonMarshal uuidNew tc p).2 ∧
  TextContentBlockStarted (emitToolCall jsonMarshal uuidNew tc p).1 = false ∧
  ThinkingContentBlockStarted (emitToolCall jsonMarshal uuidNew tc p).1 = false.
Proof.
  intros Hc Hb. unfold emitToolCall, andThen, when, stopTextBlock, stopThinkingBlock.
  destruct (TextContentBlockStarted p) eqn:E1,
           (ThinkingContentBlockStarted p) eqn:E2; simpl; rewrite ?E1, ?E2; simpl;
    crush.
Qed.

Lemma follows_handleFinish reason p :
  closedOK p →
  ¬ (TextContentBlockStarted p = true ∧ ThinkingContentBlockStarted p = true) →
  follows p (handleFinish reason p).1 (handleFinish reason p).2 ∧
  TextContentBlockStarted (handleFinish reason p).1 = false ∧
  ThinkingContentBlockStarted (handleFinish reason p).1 = false.
Proof.
  intros Hc Hb. unfold handleFinish, andThen, when, emit, stopTextBlock, stopThinkingBlock.
  destruct (TextContentBlockStarted p) eqn:E1,
           (ThinkingContentBlockStarted p) eqn:E2; simpl; rewrite ?E1, ?E2; simpl;
    rewrite ?E1, ?E2; simpl; crush.
Qed.

Lemma follows_refl p : closedOK p → follows p p [].
Proof. intros [? ?]. by repeat split. Qed.

Ltac finish :=
  repeat split; simpl in *; intros; try done; try congruence; auto.

Lemma loopBody_tracked p :
  blocksFollowState p →
  trackEvents (openBlock p, NextContentBlockIndex p) (loopBody p).1.2
    = Some (openBlock (loopBody p).1.1, NextContentBlockIndex (loopBody p).1.1) ∧
  blocksFollowState (loopBody p).1.1.
Proof.
  intros (Hc1 & Hc2 & Hth & Htx). unfold Pacore.loopBody, blocksFollowState.
  assert (closedOK p) as Hc by done.
  destruct (state p) eqn:Est.
  - (* StateNormal: no thinking block is open *)
    assert (ThinkingContentBlockStarted p = false) as Hno.
    { destruct (ThinkingContentBlockStarted p); [|done]. by specialize (Hth eq_refl). }
    destruct (firstTag (Buffer p)) as [[i isThinking]|].
    + assert (∃ p1 e1, (if 0 <? i then emitTextDelta (take i (Buffer p)) p else (p, []))
                       = (p1, e1) ∧ follows p p1 e1 ∧
                       ThinkingContentBlockStarted p1 = false)
        as (p1 & e1 & -> & (Htr & Hs & Hd1 & Hd2) & Hno1).
      { destruct (0 <? i).
        - destruct (follows_emitTextDelta (take i (Buffer p)) p Hc Hno) as [? ?].
          destruct (emitTextDelta _ p) as [p1 e1]. by exists p1, e1.
        - exists p, []. split; [done|]. split; [by apply follows_refl|done]. }
      destruct isThinking.
      * destruct (follows_startThinkingBlock
                    (setBuffer (drop (i + length tagThinkingStart) (Buffer p))
                       (setState StateInThinking p1)))
          as ((Htr2 & Hs2 & Hd3 & Hd4) & Ht2 & Hth2); [done|done|].
        destruct (startThinkingBlock _) as [p2 e2]. simpl in *.
        rewrite trackEvents_app, Htr. finish.
      * finish.
    + destruct (isPartialTag (Buffer p)).
      * destruct (15 <? length (Buffer p)); [|finish].
        destruct (follows_emitTextDelta (take (length (Buffer p) - 15) (Buffer p)) p
                    Hc Hno) as [(Htr & Hs & Hd1 & Hd2) Hno1].
        destruct (emitTextDelta _ p) as [p1 e1]. finish.
      * destruct (follows_emitTextDelta (Buffer p) p Hc Hno)
          as [(Htr & Hs & Hd1 & Hd2) Hno1].
        destruct (emitTextDelta _ p) as [p1 e1]. finish.
  - (* StateInThinking: no text block is open *)
    assert (TextContentBlockStarted p = false) as Hno.
    { destruct (TextContentBlockStarted p); [|done]. by destruct (Htx eq_refl). }
    destruct (Index (Buffer p) tagThinkingEnd) as [i|].
    + unfold andThen.
      destruct (follows_emitThinkingDelta (take i (Buffer p)) p Hc Hno)
        as [(Htr & Hs & Hd1 & Hd2) Hno1].
      destruct (emitThinkingDelta _ p) as [p1 e1].
      destruct (follows_stopThinkingBlock p1) as ((Htr2 & Hs2 & Hd3 & Hd4) & Ht2 & Hth2);
        [done|done|].
      destruct (stopThinkingBlock p1) as [p2 e2]. simpl in *.
      rewrite trackEvents_app, Htr. finish.
    + destruct (isPartialTag (Buffer p)).
      * destruct (15 <? length (Buffer p)); [|finish].
        destruct (follows_emitThinkingDelta (take (length (Buffer p) - 15) (Buffer p)) p
                    Hc Hno) as [(Htr & Hs & Hd1 & Hd2) Hno1].
        destruct (emitThinkingDelta _ p) as [p1 e1]. finish.
      * destruct (follows_emitThinkingDelta (Buffer p) p Hc Hno)
          as [(Htr & Hs & Hd1 & Hd2) Hno1].
        destruct (emitThinkingDelta _ p) as [p1 e1]. finish.
  - (* StateInToolCall: no thinking block is open *)
    assert (ThinkingContentBlockStarted p = false) as Hno.
    { destruct (ThinkingContentBlockStarted p); [|done]. by specialize (Hth eq_refl). }
    destruct (Index (Buffer p) tagToolCallEnd) as [i|]; [|finish].
    destruct (xmlUnmarshal _) as [tc|]; [|finish].
    destruct (follows_emitToolCall tc p Hc) as ((Htr & Hs & Hd1 & Hd2) & Ht2 & Hth2).
    { rewrite Hno. by intros [_ ?]. }
    destruct (emitToolCall _ _ tc p) as [p1 e1]. finish.
Qed.

Lemma processLoop_tracked n p :
  blocksFollowState p →
  trackEvents (openBlock p, NextContentBlockIndex p) (processLoop n p).2
    = Some (openBlock (processLoop n p).1, NextContentBlockIndex (processLoop n p).1) ∧
  blocksFollowState (processLoop n p).1.
Proof.
  revert p. induction n as [|n IH]; intros p Hp; simpl.
  - by destruct (Buffer p).
  - destruct (Buffer p); [done|].
    destruct (loopBody_tracked p Hp) as [H1 H2].
    destruct (loopBody p) as [[p1 e1] [|]]; [|done]. simpl in *.
    destruct (IH p1 H2) as [H3 H4]. destruct (processLoop n p1) as [p2 e2].
    simpl in *. by rewrite trackEvents_app, H1.
Qed.

Lemma PaCoReToClaudeResponse_tracked model c param events :
  tracked (default newParams param) events →
  tracked (PaCoReToClaudeResponse model c param).1
    (events ++ (PaCoReToClaudeResponse model c param).2).
Proof.
  intros [Hb Htr]. unfold Pacore.PaCoReToClaudeResponse, tracked.
  set (p0 := match param with Some p => p | None => newParams end).
  change (default newParams param) with p0 in Hb, Htr.
  set (start := if negb (MessageStarted p0) then _ else _).
  assert (blocksFollowState start.1 ∧ openBlock start.1 = openBlock p0 ∧
          NextContentBlockIndex start.1 = NextContentBlockIndex p0 ∧
          trackEvents (openBlock p0, NextContentBlockIndex p0) start.2
            = Some (openBlock p0, NextContentBlockIndex p0)) as (H1 & H2 & H3 & H4).
  { subst start. by destruct (MessageStarted p0). }
  destruct start as [p1 results]. simpl in H1, H2, H3, H4.
  case_bool_decide as Ec.
  - destruct (negb _).
    + destruct H1 as (Hc1 & Hc2 & Hth & Htx).
      destruct (follows_handleFinish (finishReasonOf c) p1) as ((Hf & Hs & Hd1 & Hd2) & Ht' & Hth').
      { done. }
      { intros [Ha Hb']. by destruct (Htx Ha); apply Hth. }
      destruct (handleFinish _ p1) as [p2 e2]. simpl in *.
      rewrite trackEvents_app, Htr, <- H2, <- H3. finish.
    + simpl. rewrite trackEvents_app, Htr. simpl. rewrite H4, H2, H3. done.
  - unfold Pacore.processBuffer.
    destruct (processLoop_tracked
                (length (Buffer (setBuffer (Buffer p1 ++ chunkContentOf c) p1)))
                (setBuffer (Buffer p1 ++ chunkContentOf c) p1)) as [H5 H6]; [done|].
    destruct (processLoop _ _) as [p2 e2]. simpl in *.
    rewrite trackEvents_app, Htr. simpl. rewrite trackEvents_app, H4. simpl.
    rewrite <- H2, <- H3. done.
Qed.

(** X5.  The content blocks follow the protocol.  Whatever the chunks of a
    stream, its events are accepted by a consumer that allows one open
    block at a time: the blocks are numbered 0, 1, 2, ... in the order they
    start, every delta and every stop carries the index of the block that
    is open, and what the consumer ends with is the open block and the
    counter of the parameters. *)
Theorem events_follow_protocol model chunks :
  tracked (default newParams (feed model chunks None).1) (stream model chunks).
Proof.
  unfold Pacore.stream.
  assert (∀ param events, tracked (default newParams param) events →
            tracked (default newParams (feed model chunks param).1)
              (events ++ (feed model chunks param).2)) as H.
  { induction chunks as [|c chunks IH]; intros param events Hp; simpl.
    - by rewrite app_nil_r.
    - pose proof (PaCoReToClaudeResponse_tracked model c param events Hp) as H1.
      destruct (PaCoReToClaudeResponse model c param) as [p e].
      specialize (IH (Some p) _ H1). destruct (feed model chunks (Some p)) as [q e'].
      simpl in *. by rewrite app_assoc. }
  apply (H None []). split; [|done]. by repeat split.
Qed.
End BracketFacts.

Section FinishFirst.
Variable xmlUnmarshal : bytes -> option ToolCallXML.
Variable jsonMarshal : gmap bytes bytes -> bytes.
Variable uuidNew : nat -> bytes.

Local Abbreviation PaCoReToClaudeResponse :=
  (Pacore.PaCoReToClaudeResponse xmlUnmarshal jsonMarshal uuidNew).
Local Abbreviation feed := (Pacore.feed xmlUnmarshal jsonMarshal uuidNew).
Local Abbreviation stream := (Pacore.stream xmlUnmarshal jsonMarshal uuidNew).

(** X6.  A stream that opens with a finish chunk.  The first call returns the
    events of [handleFinish] in place of its own [results], which held the
    [message_start], and marks the message as started: the stream begins
    with [message_delta], [message_stop], and no [message_start] is emitted
    for it, whatever chunks follow. *)
Theorem finish_first_no_message_start model reason rest :
  reason ≠ [] →
  (∃ tail, stream model (finishChunk reason :: rest) =
             MessageDelta (if bool_decide (reason = B "tool_calls")
                           then B "tool_use" else B "end_turn")
             :: MessageStop :: tail) ∧
  Forall (λ e, isMessageStart e = false) (stream model (finishChunk reason :: rest)).
Proof.
  intros Hr. unfold Pacore.stream. cbn [Pacore.feed].
  assert (∃ p, PaCoReToClaudeResponse model (finishChunk reason) None =
               (p, [MessageDelta (if bool_decide (reason = B "tool_calls")
                                  then B "tool_use" else B "end_turn"); MessageStop]) ∧
               MessageStarted p = true) as (p & -> & Hs).
  { unfold Pacore.PaCoReToClaudeResponse, finishChunk. simpl.
    rewrite (bool_decide_eq_false_2 (reason = [])) by done. simpl. eauto. }
  pose proof (feed_started xmlUnmarshal jsonMarshal uuidNew model rest p Hs) as H.
  destruct (feed model rest (Some p)) as [q e]. simpl in *. split; [eauto|].
  by repeat constructor.
Qed.
End FinishFirst.

Lemma finish_first_no_message_start_witness :
  B "stop" ≠ [] ∧
  (∃ tail, stream xmlWeather jsonEmpty uuidConst (B "m")
             (finishChunk (B "stop") :: [JSONChunk (B "late") []]) =
             MessageDelta (if bool_decide (B "stop" = B "tool_calls")
                           then B "tool_use" else B "end_turn")
             :: MessageStop :: tail) ∧
  Forall (λ e, isMessageStart e = false)
    (stream xmlWeather jsonEmpty uuidConst (B "m")
       (finishChunk (B "stop") :: [JSONChunk (B "late") []])).
Proof.
  assert (B "stop" ≠ []) as H by done.
  split; [exact H|].
  exact (finish_first_no_message_start xmlWeather jsonEmpty uuidConst (B "m")
           (B "stop") [JSONChunk (B "late") []] H).
Defined.

Section PlainText.
Variable xmlUnmarshal : bytes -> option ToolCallXML.
Variable jsonMarshal : gmap bytes bytes -> bytes.
Variable uuidNew : nat -> bytes.

Local Abbreviation loopBody := (Pacore.loopBody xmlUnmarshal jsonMarshal uuidNew).
Local Abbreviation processLoop := (Pacore.processLoop xmlUnmarshal jsonMarshal uuidNew).
Local Abbreviation PaCoReToClaudeResponse :=
  (Pacore.PaCoReToClaudeResponse xmlUnmarshal jsonMarshal uuidNew).
Local Abbreviation feed := (Pacore.feed xmlUnmarshal jsonMarshal uuidNew).
Local Abbreviation stream := (Pacore.stream xmlUnmarshal jsonMarshal uuidNew).

(** Text without [<] holds no tag and ends in no beginning of one. *)
Lemma plain_no_tag (s : bytes) :
  Index s (B "<") = None → firstTag s = None ∧ isPartialTag s = false.
Proof.
  intros H. split.
  - unfold firstTag.
    rewrite (Index_longer_None s (B "<") tagThinkingStart H) by (by eexists).
    by rewrite (Index_longer_None s (B "<") tagToolCallStart H) by (by eexists).
  - destruct (isPartialTag s) eqn:E; [|done]. exfalso.
    apply isPartialTag_true in E as (tag & k & Htag & Hk & [u ->]).
    apply Index_byte_app in H as [_ H].
    apply (Index_None_nowhere _ _ 0 H). simpl.
    destruct k as [|k]; [lia|].
    unfold tags in Htag.
    repeat (apply elem_of_cons in Htag as [->|Htag]; [by eexists|]).
    by apply elem_of_nil in Htag.
Qed.

Lemma plain_call model c param :
  state (default newParams param) = StateNormal →
  Buffer (default newParams param) = [] →
  Index (chunkContentOf c) (B "<") = None →
  state (PaCoReToClaudeResponse model c param).1 = StateNormal ∧
  Buffer (PaCoReToClaudeResponse model c param).1 = [] ∧
  visibleText (PaCoReToClaudeResponse model c param).2
    = jsonString (chunkContentOf c) ∧
  visibleThinking (PaCoReToClaudeResponse model c param).2 = [].
Proof.
  intros Hs Hb Hc. unfold Pacore.PaCoReToClaudeResponse.
  set (p0 := match param with Some p => p | None => newParams end).
  change (default newParams param) with p0 in Hs, Hb.
  set (start := if negb (MessageStarted p0) then _ else _).
  assert (state start.1 = StateNormal ∧ Buffer start.1 = [] ∧
          visibleText start.2 = [] ∧ visibleThinking start.2 = []) as (H1 & H2 & H3 & H4).
  { subst start. by destruct (MessageStarted p0). }
  destruct start as [p1 results]. simpl in H1, H2, H3, H4.
  case_bool_decide as Ec.
  - rewrite Ec. destruct (negb _); [|done].
    destruct (emits_handleFinish (finishReasonOf c) p1)
      as (Ht & Hh & Hst & Hbf).
    rewrite Ht, Hh, Hst, Hbf. done.
  - unfold Pacore.processBuffer. rewrite H2. simpl.
    destruct (plain_no_tag _ Hc) as [Hft Hpt].
    generalize dependent (chunkContentOf c). intros content Hc Ec Hft Hpt.
    destruct content as [|b content]; [done|].
    cbn [length Pacore.processLoop Buffer setBuffer].
    unfold Pacore.loopBody. cbn [state Buffer setBuffer]. rewrite H1, Hft, Hpt.
    destruct (emits_emitTextDelta (b :: content)
                (setBuffer (b :: content) p1)) as (Ht & Hh & Hst & Hbf).
    destruct (emitTextDelta _ _) as [p2 e2]. cbn [fst snd state Buffer setBuffer] in *.
    rewrite visibleText_app, visibleThinking_app, H3, H4, Ht, Hh. by rewrite Hst.
Qed.

(** X1.  Plain text is never held back.  When the content of the chunks holds
    no [<], whatever the chunking and wherever finish chunks stand, every
    chunk's content is emitted by the call that receives it: the text
    deltas of the stream spell the contents in order, each written
    through [jsonString] on its own, no thinking is emitted and the buffer
    is empty at the end. *)
Theorem plain_text_delivered model chunks :
  Index (inputOf chunks) (B "<") = None →
  visibleText (stream model chunks) = writtenOf chunks ∧
  visibleThinking (stream model chunks) = [] ∧
  state (default newParams (feed model chunks None).1) = StateNormal ∧
  Buffer (default newParams (feed model chunks None).1) = [].
Proof.
  unfold Pacore.stream.
  assert (∀ param,
            state (default newParams param) = StateNormal →
            Buffer (default newParams param) = [] →
            Index (inputOf chunks) (B "<") = None →
            visibleText (feed model chunks param).2 = writtenOf chunks ∧
            visibleThinking (feed model chunks param).2 = [] ∧
            state (default newParams (feed model chunks param).1) = StateNormal ∧
            Buffer (default newParams (feed model chunks param).1) = []) as H.
  { induction chunks as [|c chunks IH]; intros param Hs Hb Hc; [done|].
    unfold inputOf in Hc. cbn [map concat] in Hc. fold (inputOf chunks) in Hc.
    apply Index_byte_app in Hc as [Hc1 Hc2].
    cbn [Pacore.feed]. unfold writtenOf. cbn [map concat]. fold (writtenOf chunks).
    destruct (plain_call model c param Hs Hb Hc1) as (H1 & H2 & H3 & H4).
    destruct (PaCoReToClaudeResponse model c param) as [p e]. simpl in H1, H2, H3, H4.
    destruct (IH (Some p) H1 H2 Hc2) as (H5 & H6 & H7 & H8).
    destruct (feed model chunks (Some p)) as [q e']. simpl in *.
    rewrite visibleText_app, visibleThinking_app, H3, H4, H5, H6. done. }
  intros Hc. by apply H.
Qed.
End PlainText.

Lemma plain_text_delivered_witness :
  Index (inputOf [RawChunk (B "caf" ++ [byteOf 0xC3]); finishChunk (B "stop");
                  RawChunk ([byteOf 0xA9] ++ B "!")]) (B "<") = None ∧
  visibleText (stream xmlWeather jsonEmpty uuidConst (B "m")
                 [RawChunk (B "caf" ++ [byteOf 0xC3]); finishChunk (B "stop");
                  RawChunk ([byteOf 0xA9] ++ B "!")])
    = writtenOf [RawChunk (B "caf" ++ [byteOf 0xC3]); finishChunk (B "stop");
                 RawChunk ([byteOf 0xA9] ++ B "!")] ∧
  visibleThinking (stream xmlWeather jsonEmpty uuidConst (B "m")
                     [RawChunk (B "caf" ++ [byteOf 0xC3]); finishChunk (B "stop");
                      RawChunk ([byteOf 0xA9] ++ B "!")]) = [] ∧
  state (default newParams
           (feed xmlWeather jsonEmpty uuidConst (B "m")
              [RawChunk (B "caf" ++ [byteOf 0xC3]); finishChunk (B "stop");
               RawChunk ([byteOf 0xA9] ++ B "!")] None).1) = StateNormal ∧
  Buffer (default newParams
            (feed xmlWeather jsonEmpty uuidConst (B "m")
               [RawChunk (B "caf" ++ [byteOf 0xC3]); finishChunk (B "stop");
                RawChunk ([byteOf 0xA9] ++ B "!")] None).1) = [].
Proof.
  assert (Index (inputOf [RawChunk (B "caf" ++ [byteOf 0xC3]); finishChunk (B "stop");
                          RawChunk ([byteOf 0xA9] ++ B "!")]) (B "<") = None) as H
    by (by vm_compute).
  split; [exact H|].
  exact (plain_text_delivered xmlWeather jsonEmpty uuidConst (B "m") _ H).
Defined.

(** A character cut by a chunk boundary reaches the consumer as two
    U+FFFD: the two bytes of U+00E9 in two chunks. *)
Lemma cut_character_replaced :
  visibleText (stream xmlWeather jsonEmpty uuidConst (B "m")
                 [RawChunk (B "caf" ++ [byteOf 0xC3]); RawChunk ([byteOf 0xA9] ++ B "!")])
  = B "caf" ++ replacementChar ++ replacementChar ++ B "!"
  ∧ visibleText (stream xmlWeather jsonEmpty uuidConst (B "m")
                   [RawChunk (B "caf" ++ [byteOf 0xC3; byteOf 0xA9] ++ B "!")])
  = B "caf" ++ [byteOf 0xC3; byteOf 0xA9] ++ B "!".
Proof. by vm_compute. Qed.

Section MergeFacts.

Lemma mergeDeltas_app_r X K K' :
  mergeDeltas K = mergeDeltas K' → mergeDeltas (X ++ K) = mergeDeltas (X ++ K').
Proof. intros H. induction X as [|e X IH]; simpl; [done|]. by rewrite IH. Qed.

Lemma glue_glue e m K :
  mergeDeltas (glue e m ++ K) = glue e (mergeDeltas (m ++ K)).
Proof.
  destruct e as [| |i [x|x|x]| | |]; try done.
  - destruct m as [|[| |j [y|y|y]| | |] m]; try done. simpl.
    case_bool_decide as E; [|done]. subst j. simpl.
    destruct (mergeDeltas (m ++ K)) as [|[| |k [z|z|z]| | |] M]; simpl;
      rewrite ?bool_decide_eq_true_2 by done; try done.
    case_bool_decide; simpl; rewrite ?bool_decide_eq_true_2 by done;
      [by rewrite app_assoc|done].
  - destruct m as [|[| |j [y|y|y]| | |] m]; try done. simpl.
    case_bool_decide as E; [|done]. subst j. simpl.
    destruct (mergeDeltas (m ++ K)) as [|[| |k [z|z|z]| | |] M]; simpl;
      rewrite ?bool_decide_eq_true_2 by done; try done.
    case_bool_decide; simpl; rewrite ?bool_decide_eq_true_2 by done;
      [by rewrite app_assoc|done].
Qed.

Lemma mergeDeltas_merged X K : mergeDeltas (mergeDeltas X ++ K) = mergeDeltas (X ++ K).
Proof.
  induction X as [|e X IH]; simpl; [done|]. by rewrite glue_glue, IH.
Qed.

Lemma mergeDeltas_app_l X Y K :
  mergeDeltas X = mergeDeltas Y → mergeDeltas (X ++ K) = mergeDeltas (Y ++ K).
Proof.
  intros H. by rewrite <- (mergeDeltas_merged X), <- (mergeDeltas_merged Y), H.
Qed.

Lemma mergeDeltas_app X Y K K' :
  mergeDeltas X = mergeDeltas Y → mergeDeltas K = mergeDeltas K' →
  mergeDeltas (X ++ K) = mergeDeltas (Y ++ K').
Proof.
  intros H1 H2. rewrite (mergeDeltas_app_l X Y K H1). by apply mergeDeltas_app_r.
Qed.
End MergeFacts.

Section BlindFacts.
Variable jsonMarshal : gmap bytes bytes -> bytes.
Variable uuidNew : nat -> bytes.

Lemma blind_stopTextBlock : blind stopTextBlock.
Proof.
  intros b p. unfold stopTextBlock. simpl. by destruct (TextContentBlockStarted p).
Qed.

Lemma blind_stopThinkingBlock : blind stopThinkingBlock.
Proof.
  intros b p. unfold stopThinkingBlock. simpl.
  by destruct (ThinkingContentBlockStarted p).
Qed.

Lemma blind_andThen f g : blind f → blind g → blind (andThen f g).
Proof.
  intros Hf Hg b p. unfold andThen. rewrite Hf. destruct (f p) as [p1 e1]. simpl.
  rewrite Hg. by destruct (g p1).
Qed.

Lemma blind_when c f :
  (∀ b p, c (setBuffer b p) = c p) → blind f → blind (when c f).
Proof. intros Hc Hf b p. unfold when. rewrite Hc. destruct (c p); [apply Hf|done]. Qed.

Lemma blind_startThinkingBlock : blind startThinkingBlock.
Proof.
  unfold startThinkingBlock.
  apply blind_andThen; [apply blind_when; [done|apply blind_stopTextBlock]|].
  apply blind_andThen; [by apply blind_when|].
  by apply blind_andThen.
Qed.

Lemma blind_emitTextDelta text : blind (emitTextDelta text).
Proof.
  intros b p. unfold emitTextDelta. case_bool_decide; [done|]. revert b p.
  apply blind_andThen; [|done]. apply blind_when; [done|].
  apply blind_andThen; [by apply blind_when|]. by apply blind_andThen.
Qed.

Lemma blind_emitThinkingDelta text : blind (emitThinkingDelta text).
Proof.
  intros b p. unfold emitThinkingDelta. case_bool_decide; [done|]. revert b p.
  apply blind_andThen; [|done]. apply blind_when; [done|].
  apply blind_startThinkingBlock.
Qed.

Lemma blind_emitToolCall tc : blind (emitToolCall jsonMarshal uuidNew tc).
Proof.
  unfold emitToolCall.
  apply blind_andThen; [apply blind_when; [done|apply blind_stopTextBlock]|].
  apply blind_andThen; [apply blind_when; [done|apply blind_stopThinkingBlock]|].
  done.
Qed.
End BlindFacts.

Section SplitFacts.

Lemma emitTextDelta_nil p : emitTextDelta [] p = (p, []).
Proof. done. Qed.

Lemma emitThinkingDelta_nil p : emitThinkingDelta [] p = (p, []).
Proof. done. Qed.

(** Two texts emitted one after the other are, once merged, the one text
    emitted at once. *)
Lemma emitTextDelta_app a b p :
  asciiOnly a → asciiOnly b →
  (andThen (emitTextDelta a) (emitTextDelta b) p).1 = (emitTextDelta (a ++ b) p).1 ∧
  mergeDeltas (andThen (emitTextDelta a) (emitTextDelta b) p).2
    = mergeDeltas (emitTextDelta (a ++ b) p).2.
Proof.
  intros Ha Hb. destruct a as [|ca a].
  { unfold andThen. rewrite emitTextDelta_nil. simpl. by destruct (emitTextDelta b p). }
  destruct b as [|cb b].
  { unfold andThen. rewrite app_nil_r. destruct (emitTextDelta _ p) as [p1 e1].
    rewrite emitTextDelta_nil. simpl. by rewrite app_nil_r. }
  unfold emitTextDelta. rewrite !jsonString_ascii by (done || by apply asciiOnly_app).
  rewrite !bool_decide_eq_false_2 by done.
  unfold andThen, when, emit, modify.
  destruct p as [st bf ms mi mo nx ti hi [] hs uu]; simpl;
    repeat case_bool_decide; simpl; rewrite ?bool_decide_eq_true_2 by done; done.
Qed.

Lemma emitThinkingDelta_app a b p :
  asciiOnly a → asciiOnly b →
  (andThen (emitThinkingDelta a) (emitThinkingDelta b) p).1
    = (emitThinkingDelta (a ++ b) p).1 ∧
  mergeDeltas (andThen (emitThinkingDelta a) (emitThinkingDelta b) p).2
    = mergeDeltas (emitThinkingDelta (a ++ b) p).2.
Proof.
  intros Ha Hb. destruct a as [|ca a].
  { unfold andThen. rewrite emitThinkingDelta_nil. simpl.
    by destruct (emitThinkingDelta b p). }
  destruct b as [|cb b].
  { unfold andThen. rewrite app_nil_r. destruct (emitThinkingDelta _ p) as [p1 e1].
    rewrite emitThinkingDelta_nil. simpl. by rewrite app_nil_r. }
  unfold emitThinkingDelta. rewrite !jsonString_ascii by (done || by apply asciiOnly_app).
  rewrite !bool_decide_eq_false_2 by done.
  unfold startThinkingBlock, stopTextBlock. unfold andThen, when, emit, modify.
  destruct p as [st bf ms mi mo nx ti hi [] [] uu]; simpl;
    repeat case_bool_decide; simpl; rewrite ?bool_decide_eq_true_2 by done; done.
Qed.
End SplitFacts.

Section ReferenceFacts.
Variable xmlUnmarshal : bytes -> option ToolCallXML.
Variable jsonMarshal : gmap bytes bytes -> bytes.
Variable uuidNew : nat -> bytes.

Local Abbreviation idealBody := (Pacore.idealBody xmlUnmarshal jsonMarshal uuidNew).
Local Abbreviation idealFrom := (Pacore.idealFrom xmlUnmarshal jsonMarshal uuidNew).
Local Abbreviation idealIn := (Pacore.idealIn xmlUnmarshal jsonMarshal uuidNew).
Local Abbreviation loopBody := (Pacore.loopBody xmlUnmarshal jsonMarshal uuidNew).
Local Abbreviation processLoop := (Pacore.processLoop xmlUnmarshal jsonMarshal uuidNew).
Local Abbreviation PaCoReToClaudeResponse :=
  (Pacore.PaCoReToClaudeResponse xmlUnmarshal jsonMarshal uuidNew).
Local Abbreviation feed := (Pacore.feed xmlUnmarshal jsonMarshal uuidNew).

Lemma firstTag_fits s i b :
  firstTag s = Some (i, b) → i + (if b then 10 else 11) ≤ length s.
Proof.
  unfold firstTag.
  destruct (Index s tagThinkingStart) as [x|] eqn:Ex,
           (Index s tagToolCallStart) as [y|] eqn:Ey;
    try discriminate;
    try apply Index_Some_fits in Ex; try apply Index_Some_fits in Ey;
    change (length tagThinkingStart) with 10 in *;
    change (length tagToolCallStart) with 11 in *.
  - destruct (x <? y) eqn:E; intros [= <- <-]; [lia|].
    apply Nat.ltb_ge in E. lia.
  - intros [= <- <-]; lia.
  - intros [= <- <-]; lia.
Qed.

Lemma idealBody_ext rec1 rec2 s p :
  (∀ s' p', length s' < length s → rec1 s' p' = rec2 s' p') →
  idealBody rec1 s p = idealBody rec2 s p.
Proof.
  intros H. unfold Pacore.idealBody. destruct (state p).
  - destruct (firstTag s) as [[i isThinking]|] eqn:E; [|done].
    apply firstTag_fits in E. destruct (emitTextDelta _ p) as [p1 e1].
    destruct isThinking.
    + destruct (startThinkingBlock _) as [p2 e2]. rewrite H; [done|].
      rewrite length_drop. change (length tagThinkingStart) with 10. lia.
    + rewrite H; [done|]. rewrite length_drop.
      change (length tagToolCallStart) with 11. lia.
  - destruct (Index s tagThinkingEnd) as [i|] eqn:E; [|done].
    apply Index_Some_fits in E. change (length tagThinkingEnd) with 11 in *.
    destruct (andThen _ _ p) as [p1 e1]. rewrite H; [done|].
    rewrite length_drop. lia.
  - destruct (Index s tagToolCallEnd) as [i|] eqn:E; [|done].
    apply Index_Some_fits in E. change (length tagToolCallEnd) with 12 in *.
    destruct (match xmlUnmarshal _ with Some tc => _ | None => _ end) as [p1 e1].
    rewrite H; [done|]. rewrite length_drop. lia.
Qed.

Lemma idealFrom_fuel n m s p :
  length s ≤ n → length s ≤ m → idealFrom n s p = idealFrom m s p.
Proof.
  revert m s p. induction n as [|n IH]; intros m s p Hn Hm.
  - destruct m; apply idealBody_ext; intros s' p' Hs'; lia.
  - destruct m as [|m]; [apply idealBody_ext; intros s' p' Hs'; lia|].
    apply idealBody_ext. intros s' p' Hs'. apply IH; lia.
Qed.

Lemma idealIn_unfold s p : idealIn s p = idealBody idealIn s p.
Proof.
  unfold Pacore.idealIn at 1. destruct (length s) eqn:E.
  - apply idealBody_ext. intros s' p' Hs'. lia.
  - apply idealBody_ext. intros s' p' Hs'. apply idealFrom_fuel; lia.
Qed.

Lemma idealBody_blind rec s b p :
  (∀ s' b' p', rec s' (setBuffer b' p') = rec s' p') →
  idealBody rec s (setBuffer b p) = idealBody rec s p.
Proof.
  intros H. unfold Pacore.idealBody. simpl. destruct (state p).
  - destruct (firstTag s) as [[i isThinking]|]; [|by rewrite blind_emitTextDelta].
    rewrite blind_emitTextDelta. destruct (emitTextDelta _ p) as [p1 e1]. simpl.
    destruct isThinking.
    + change (setState StateInThinking (setBuffer b p1))
        with (setBuffer b (setState StateInThinking p1)).
      rewrite blind_startThinkingBlock.
      destruct (startThinkingBlock _) as [p2 e2]. simpl. by rewrite H.
    + change (setState StateInToolCall (setBuffer b p1))
        with (setBuffer b (setState StateInToolCall p1)). by rewrite H.
  - destruct (Index s tagThinkingEnd) as [i|]; [|by rewrite blind_emitThinkingDelta].
    rewrite (blind_andThen _ _ (blind_emitThinkingDelta _) blind_stopThinkingBlock).
    destruct (andThen _ _ p) as [p1 e1]. simpl.
    change (setState StateNormal (setBuffer b p1))
      with (setBuffer b (setState StateNormal p1)). by rewrite H.
  - destruct (Index s tagToolCallEnd) as [i|]; [|done].
    destruct (xmlUnmarshal _) as [tc|].
    + rewrite blind_emitToolCall. destruct (emitToolCall _ _ tc p) as [p1 e1]. simpl.
      change (setState StateNormal (setBuffer b p1))
        with (setBuffer b (setState StateNormal p1)). by rewrite H.
    + change (setState StateNormal (setBuffer b p))
        with (setBuffer b (setState StateNormal p)). by rewrite H.
Qed.

Lemma idealIn_blind s b p : idealIn s (setBuffer b p) = idealIn s p.
Proof.
  unfold Pacore.idealIn. generalize (length s). intros n. revert s b p.
  induction n as [|n IH]; intros s b p; simpl.
  - by apply idealBody_blind.
  - apply idealBody_blind. intros. apply IH.
Qed.

Lemma idealIn_pending p : settled p → idealIn (Buffer p) p = (flushPending p).2.
Proof.
  unfold settled. intros H. rewrite idealIn_unfold. unfold Pacore.idealBody, flushPending.
  destruct (state p); by rewrite H.
Qed.

Lemma settled_nil p : Buffer p = [] → settled p.
Proof. unfold settled. intros ->. by destruct (state p). Qed.

(** Text emitted ahead of the rest, when no tag begins in it. *)
Lemma absorb_text a u p :
  state p = StateNormal → asciiOnly (a ++ u) →
  firstTag (a ++ u) = shiftTag (length a) (firstTag u) →
  mergeDeltas (idealIn (a ++ u) p)
  = mergeDeltas ((emitTextDelta a p).2 ++ idealIn u (emitTextDelta a p).1).
Proof.
  intros Hs Hascii Htag. apply asciiOnly_app in Hascii as [Ha Hu].
  destruct (emits_emitTextDelta a p) as (_ & _ & Hs1 & _).
  rewrite (idealIn_unfold (a ++ u)), (idealIn_unfold u).
  unfold Pacore.idealBody. rewrite Hs1, Hs, Htag.
  destruct (firstTag u) as [[i isThinking]|] eqn:Eu; simpl.
  - pose proof (firstTag_fits _ _ _ Eu) as Hfit.
    assert (∀ L, length a + i + L - length a = i + L) as Hx by (intros; lia).
    rewrite take_app_ge, !drop_app_ge by lia.
    replace (length a + i - length a) with i by lia. rewrite !Hx.
    destruct (emitTextDelta_app a (take i u) p Ha (asciiOnly_take _ _ Hu)) as [Hp He].
    unfold andThen in Hp, He.
    destruct (emitTextDelta a p) as [p1 e1]. simpl in *.
    destruct (emitTextDelta (take i u) p1) as [p2 e2]. simpl in *.
    destruct (emitTextDelta (a ++ take i u) p) as [p3 e3]. simpl in *. subst p3.
    destruct isThinking.
    + destruct (startThinkingBlock _) as [p4 e4].
      rewrite (app_assoc e1). by apply mergeDeltas_app_l.
    + rewrite (app_assoc e1). by apply mergeDeltas_app_l.
  - destruct (emitTextDelta_app a u p Ha Hu) as [Hp He]. unfold andThen in He.
    destruct (emitTextDelta a p) as [p1 e1]. simpl in *.
    by destruct (emitTextDelta u p1) as [p2 e2].
Qed.

Lemma absorb_thinking a u p :
  state p = StateInThinking → asciiOnly (a ++ u) →
  Index (a ++ u) tagThinkingEnd = (λ i, length a + i) <$> Index u tagThinkingEnd →
  mergeDeltas (idealIn (a ++ u) p)
  = mergeDeltas ((emitThinkingDelta a p).2 ++ idealIn u (emitThinkingDelta a p).1).
Proof.
  intros Hs Hascii Htag. apply asciiOnly_app in Hascii as [Ha Hu].
  destruct (emits_emitThinkingDelta a p) as (_ & _ & Hs1 & _).
  rewrite (idealIn_unfold (a ++ u)), (idealIn_unfold u).
  unfold Pacore.idealBody. rewrite Hs1, Hs, Htag.
  destruct (Index u tagThinkingEnd) as [i|] eqn:Eu; simpl.
  - pose proof (Index_Some_fits _ _ _ Eu) as Hfit.
    assert (∀ L, length a + i + L - length a = i + L) as Hx by (intros; lia).
    rewrite take_app_ge, !drop_app_ge by lia.
    replace (length a + i - length a) with i by lia. rewrite !Hx.
    destruct (emitThinkingDelta_app a (take i u) p Ha (asciiOnly_take _ _ Hu)) as [Hp He].
    unfold andThen in Hp, He |- *.
    destruct (emitThinkingDelta a p) as [p1 e1]. simpl in *.
    destruct (emitThinkingDelta (take i u) p1) as [p2 e2]. simpl in *.
    destruct (emitThinkingDelta (a ++ take i u) p) as [p3 e3]. simpl in *. subst p3.
    destruct (stopThinkingBlock p2) as [p4 e4].
    rewrite <- !app_assoc. rewrite (app_assoc e1). by apply mergeDeltas_app_l.
  - destruct (emitThinkingDelta_app a u p Ha Hu) as [Hp He]. unfold andThen in He.
    destruct (emitThinkingDelta a p) as [p1 e1]. simpl in *.
    by destruct (emitThinkingDelta u p1) as [p2 e2].
Qed.

Lemma guard_emitTextDelta i c p :
  (if 0 <? i then emitTextDelta (take i c) p else (p, [])) = emitTextDelta (take i c) p.
Proof.
  destruct (0 <? i) eqn:E; [done|]. apply Nat.ltb_ge in E.
  assert (i = 0) as -> by lia. by rewrite take_0.
Qed.

(** One iteration of the loop against the reference: what it emits,
    followed by the reference for what it leaves and any further input
    [t], is the reference for the buffer it found followed by [t]. *)
Lemma loopBody_ideal p t :
  asciiOnly (Buffer p ++ t) →
  mergeDeltas (idealIn (Buffer p ++ t) p)
  = mergeDeltas ((loopBody p).1.2
                 ++ idealIn (Buffer (loopBody p).1.1 ++ t) (loopBody p).1.1)
  ∧ ((loopBody p).2 = false → settled (loopBody p).1.1).
Proof.
  intros Hascii. pose proof Hascii as Hascii'.
  apply asciiOnly_app in Hascii' as [Hbuf Ht].
  unfold Pacore.loopBody, settled. destruct (state p) eqn:Est.
  - (* StateNormal *)
    destruct (firstTag (Buffer p)) as [[i isThinking]|] eqn:Etag.
    + pose proof (firstTag_app_found _ t _ Etag) as Etag'.
      pose proof (firstTag_fits _ _ _ Etag) as Hfit.
      rewrite guard_emitTextDelta, idealIn_unfold. unfold Pacore.idealBody.
      rewrite Est, Etag'.
      change (length tagThinkingStart) with 10. change (length tagToolCallStart) with 11.
      destruct isThinking.
      * rewrite take_app_le, drop_app_le by lia.
        destruct (emitTextDelta _ p) as [p1 e1].
        change (setBuffer ?b (setState StateInThinking p1))
          with (setBuffer b (setState StateInThinking p1)).
        rewrite blind_startThinkingBlock.
        destruct (startThinkingBlock (setState StateInThinking p1)) as [p2 e2].
        cbn [fst snd Buffer setBuffer]. rewrite idealIn_blind, <- app_assoc.
        split; [done|]. intros [=].
      * rewrite take_app_le, drop_app_le by lia.
        destruct (emitTextDelta _ p) as [p1 e1].
        cbn [fst snd Buffer setBuffer]. rewrite idealIn_blind.
        split; [done|]. intros [=].
    + destruct (isPartialTag (Buffer p)) eqn:Epart.
      * destruct (15 <? length (Buffer p)) eqn:Elen.
        -- apply Nat.ltb_lt in Elen.
           pose proof (absorb_text (take (length (Buffer p) - 15) (Buffer p))
                         (drop (length (Buffer p) - 15) (Buffer p) ++ t) p Est) as H.
           rewrite app_assoc, take_drop in H. specialize (H Hascii).
           assert (firstTag (Buffer p ++ t)
                   = shiftTag (length (take (length (Buffer p) - 15) (Buffer p)))
                       (firstTag (drop (length (Buffer p) - 15) (Buffer p) ++ t))) as Hwin.
           { rewrite <- (take_drop (length (Buffer p) - 15) (Buffer p)) at 1.
             rewrite <- app_assoc. apply firstTag_app_window.
             - by rewrite take_drop.
             - rewrite length_drop. lia. }
           specialize (H Hwin).
           destruct (emits_emitTextDelta (take (length (Buffer p) - 15) (Buffer p)) p)
             as (_ & _ & Hs1 & _).
           destruct (emitTextDelta _ p) as [p1 e1].
           cbn [fst snd Buffer setBuffer state] in *. rewrite idealIn_blind.
           split; [done|]. intros _. rewrite Hs1, Est.
           destruct (firstTag_None _ Etag) as [H1 H2].
           unfold firstTag.
           by rewrite (Index_drop_None _ _ _ H1), (Index_drop_None _ _ _ H2).
        -- cbn [fst snd]. split; [done|]. intros _. by rewrite Est.
      * pose proof (absorb_text (Buffer p) t p Est Hascii
                      (firstTag_app_clean _ t Etag Epart)) as H.
        destruct (emits_emitTextDelta (Buffer p) p) as (_ & _ & Hs1 & _).
        destruct (emitTextDelta _ p) as [p1 e1].
        cbn [fst snd Buffer setBuffer state] in *. rewrite idealIn_blind.
        split; [done|]. intros _. by rewrite Hs1, Est.
  - (* StateInThinking *)
    destruct (Index (Buffer p) tagThinkingEnd) as [i|] eqn:Eidx.
    + pose proof (Index_app_found _ t _ _ Eidx) as Eidx'.
      pose proof (Index_Some_fits _ _ _ Eidx) as Hfit.
      change (length tagThinkingEnd) with 11 in Hfit.
      rewrite idealIn_unfold. unfold Pacore.idealBody.
      rewrite Est, Eidx'. rewrite take_app_le, !drop_app_le by (simpl; lia).
      destruct (andThen _ _ p) as [p1 e1].
      cbn [fst snd Buffer setBuffer]. rewrite idealIn_blind. split; [done|]. intros [=].
    + destruct (isPartialTag (Buffer p)) eqn:Epart.
      * destruct (15 <? length (Buffer p)) eqn:Elen.
        -- apply Nat.ltb_lt in Elen.
           pose proof (absorb_thinking (take (length (Buffer p) - 15) (Buffer p))
                         (drop (length (Buffer p) - 15) (Buffer p) ++ t) p Est) as H.
           rewrite app_assoc, take_drop in H. specialize (H Hascii).
           assert (Index (Buffer p ++ t) tagThinkingEnd
                   = (λ i, length (take (length (Buffer p) - 15) (Buffer p)) + i)
                       <$> Index (drop (length (Buffer p) - 15) (Buffer p) ++ t)
                             tagThinkingEnd) as Hwin.
           { rewrite <- (take_drop (length (Buffer p) - 15) (Buffer p)) at 1.
             rewrite <- app_assoc. apply Index_app_window.
             - by rewrite take_drop.
             - rewrite length_drop. change (length tagThinkingEnd) with 11. lia. }
           specialize (H Hwin).
           destruct (emits_emitThinkingDelta (take (length (Buffer p) - 15) (Buffer p)) p)
             as (_ & _ & Hs1 & _).
           destruct (emitThinkingDelta _ p) as [p1 e1].
           cbn [fst snd Buffer setBuffer state] in *. rewrite idealIn_blind.
           split; [done|]. intros _. rewrite Hs1, Est.
           by apply Index_drop_None.
        -- cbn [fst snd]. split; [done|]. intros _. by rewrite Est.
      * assert (Index (Buffer p ++ t) tagThinkingEnd
                = (λ i, length (Buffer p) + i) <$> Index t tagThinkingEnd) as Hclean.
        { apply Index_app_clean; [done|]. intros k Hk.
          apply (isPartialTag_false _ tagThinkingEnd k Epart); [|exact Hk].
          unfold tags. repeat constructor. }
        pose proof (absorb_thinking (Buffer p) t p Est Hascii Hclean) as H.
        destruct (emits_emitThinkingDelta (Buffer p) p) as (_ & _ & Hs1 & _).
        destruct (emitThinkingDelta _ p) as [p1 e1].
        cbn [fst snd Buffer setBuffer state] in *. rewrite idealIn_blind.
        split; [done|]. intros _. by rewrite Hs1, Est.
  - (* StateInToolCall *)
    destruct (Index (Buffer p) tagToolCallEnd) as [i|] eqn:Eidx.
    + pose proof (Index_app_found _ t _ _ Eidx) as Eidx'.
      pose proof (Index_Some_fits _ _ _ Eidx) as Hfit.
      change (length tagToolCallEnd) with 12 in Hfit.
      rewrite idealIn_unfold. unfold Pacore.idealBody.
      rewrite Est, Eidx'. rewrite take_app_le, !drop_app_le by (simpl; lia).
      destruct (match xmlUnmarshal _ with Some tc => _ | None => _ end) as [p1 e1].
      cbn [fst snd Buffer setBuffer]. rewrite idealIn_blind. split; [done|]. intros [=].
    + cbn [fst snd]. split; [done|]. intros _. by rewrite Est.
Qed.

Lemma processLoop_ideal n p t :
  length (Buffer p) ≤ n → asciiOnly (Buffer p ++ t) →
  mergeDeltas (idealIn (Buffer p ++ t) p)
  = mergeDeltas ((processLoop n p).2
                 ++ idealIn (Buffer (processLoop n p).1 ++ t) (processLoop n p).1)
  ∧ settled (processLoop n p).1
  ∧ Buffer (processLoop n p).1 `suffix_of` Buffer p.
Proof.
  revert p. induction n as [|n IH]; intros p Hn Hascii.
  - destruct (Buffer p) eqn:E; [|simpl in Hn; lia].
    assert (processLoop 0 p = (p, [])) as -> by (simpl; by rewrite E).
    simpl. rewrite E. split; [done|]. split; [by apply settled_nil|done].
  - destruct (Buffer p) eqn:E.
    { assert (processLoop (S n) p = (p, [])) as -> by (simpl; by rewrite E).
      simpl. rewrite E. split; [done|]. split; [by apply settled_nil|done]. }
    cbn [Pacore.processLoop]. rewrite E.
    rewrite <- E in *. clear E.
    destruct (loopBody_ideal p t Hascii) as [H1 H2].
    pose proof (loopBody_buffer xmlUnmarshal jsonMarshal uuidNew p) as [Hsuf Hlt].
    destruct (loopBody p) as [[p1 e1] [|]]; simpl in H1, H2, Hsuf, Hlt.
    + specialize (Hlt eq_refl).
      assert (asciiOnly (Buffer p1 ++ t)) as Hascii1.
      { apply asciiOnly_app in Hascii as [Ha Hb]. apply asciiOnly_app.
        split; [|done]. exact (asciiOnly_suffix _ _ Ha Hsuf). }
      destruct (IH p1 ltac:(lia) Hascii1) as (IH1 & IH2 & IH3).
      destruct (processLoop n p1) as [p2 e2]. simpl in *.
      split; [|split; [done|by etrans]].
      rewrite H1, <- app_assoc. by apply mergeDeltas_app_r.
    + simpl. split; [done|]. split; [by apply H2|done].
Qed.

(** A call on a chunk that is no finish chunk, the message started. *)
Lemma call_ideal model c p t :
  handledAsText c → MessageStarted p = true → settled p →
  asciiOnly (Buffer p ++ chunkContentOf c ++ t) →
  mergeDeltas (idealIn (Buffer p ++ chunkContentOf c ++ t) p)
  = mergeDeltas ((PaCoReToClaudeResponse model c (Some p)).2
                 ++ idealIn (Buffer (PaCoReToClaudeResponse model c (Some p)).1 ++ t)
                      (PaCoReToClaudeResponse model c (Some p)).1)
  ∧ settled (PaCoReToClaudeResponse model c (Some p)).1
  ∧ MessageStarted (PaCoReToClaudeResponse model c (Some p)).1 = true
  ∧ Buffer (PaCoReToClaudeResponse model c (Some p)).1
      `suffix_of` Buffer p ++ chunkContentOf c.
Proof.
  intros Hc Hs Hset Hascii.
  pose proof (PaCoReToClaudeResponse_started xmlUnmarshal jsonMarshal uuidNew model c p Hs)
    as [Hs' _].
  revert Hs'. unfold Pacore.PaCoReToClaudeResponse. rewrite Hs. simpl.
  case_bool_decide as Ec.
  - destruct Hc as [Hc|Hc]; [done|]. rewrite Hc, Ec. simpl. intros _.
    rewrite app_nil_r. split; [done|]. by split.
  - unfold Pacore.processBuffer. rewrite app_assoc in Hascii. intros Hs'.
    destruct (processLoop_ideal
                (length (Buffer (setBuffer (Buffer p ++ chunkContentOf c) p)))
                (setBuffer (Buffer p ++ chunkContentOf c) p) t ltac:(done) Hascii)
      as (H1 & H2 & H3).
    destruct (processLoop _ _) as [p2 e2]. simpl in *.
    rewrite idealIn_blind, <- app_assoc in H1. done.
Qed.

Lemma feed_ideal model chunks p t :
  Forall handledAsText chunks → MessageStarted p = true → settled p →
  asciiOnly (Buffer p ++ inputOf chunks ++ t) →
  mergeDeltas (idealIn (Buffer p ++ inputOf chunks ++ t) p)
  = mergeDeltas ((feed model chunks (Some p)).2
                 ++ idealIn (Buffer (default newParams (feed model chunks (Some p)).1) ++ t)
                      (default newParams (feed model chunks (Some p)).1))
  ∧ settled (default newParams (feed model chunks (Some p)).1).
Proof.
  intros Hall. revert p. induction Hall as [|c chunks Hc _ IH]; intros p Hs Hset Hascii.
  { by split. }
  unfold inputOf in Hascii |- *. cbn [map concat] in Hascii |- *.
  fold (inputOf chunks) in Hascii |- *. rewrite <- app_assoc in Hascii |- *.
  cbn [Pacore.feed].
  destruct (call_ideal model c p (inputOf chunks ++ t) Hc Hs Hset Hascii)
    as (H1 & H2 & H3 & H4).
  destruct (PaCoReToClaudeResponse model c (Some p)) as [p1 e1]. simpl in H1, H2, H3, H4.
  assert (asciiOnly (Buffer p1 ++ inputOf chunks ++ t)) as Hascii1.
  { rewrite app_assoc in Hascii. apply asciiOnly_app in Hascii as [Ha Hb].
    apply asciiOnly_app. split; [|done]. exact (asciiOnly_suffix _ _ Ha H4). }
  destruct (IH p1 H3 H2 Hascii1) as [IH1 IH2].
  destruct (feed model chunks (Some p1)) as [param' e']. simpl in *.
  split; [|done]. rewrite H1, <- app_assoc. by apply mergeDeltas_app_r.
Qed.

(** The first call of a stream, on a chunk that is no finish chunk: the
    [message_start], and then what a call finds when the message has
    started. *)
Lemma feed_first model c chunks :
  handledAsText c →
  feed model (c :: chunks) None
  = ((feed model (c :: chunks)
        (Some (setMessage (B "msg_" ++ uuidNew 0) model newParams))).1,
     MessageStart (B "msg_" ++ uuidNew 0) model
     :: (feed model (c :: chunks)
           (Some (setMessage (B "msg_" ++ uuidNew 0) model newParams))).2).
Proof.
  intros Hc. cbn [Pacore.feed]. unfold Pacore.PaCoReToClaudeResponse. simpl.
  case_bool_decide as Ec.
  - destruct Hc as [Hc|Hc]; [done|]. rewrite Hc. simpl.
    by destruct (feed model chunks _).
  - destruct (Pacore.processBuffer _ _ _ _) as [p2 e2].
    by destruct (feed model chunks _).
Qed.
End ReferenceFacts.

Section Invariance.
Variable xmlUnmarshal : bytes -> option ToolCallXML.
Variable jsonMarshal : gmap bytes bytes -> bytes.
Variable uuidNew : nat -> bytes.

Local Abbreviation idealIn := (Pacore.idealIn xmlUnmarshal jsonMarshal uuidNew).
Local Abbreviation feed := (Pacore.feed xmlUnmarshal jsonMarshal uuidNew).

(** A stream of ASCII text chunks, brought to the common form, is the
    [message_start] followed by what the transcoder emits on the whole
    input when nothing has to be withheld. *)
Lemma completed_ideal model chunks :
  chunks ≠ [] → Forall handledAsText chunks → asciiOnly (inputOf chunks) →
  completed (feed model chunks None)
  = (MessageStart (B "msg_" ++ uuidNew 0) model
     :: mergeDeltas (idealIn (inputOf chunks)
                       (setMessage (B "msg_" ++ uuidNew 0) model newParams)),
     final (regions (inputOf chunks)), open (regions (inputOf chunks))).
Proof.
  intros Hne Hall Hascii.
  pose proof (stream_fidelity xmlUnmarshal jsonMarshal uuidNew model chunks Hall Hascii) as Hf.
  destruct chunks as [|c rest]; [done|].
  inversion Hall as [|? ? Hc _]; subst.
  rewrite (feed_first xmlUnmarshal jsonMarshal uuidNew model c rest Hc) in Hf |- *.
  set (p1 := setMessage (B "msg_" ++ uuidNew 0) model newParams) in *.
  assert (asciiOnly (Buffer p1 ++ inputOf (c :: rest) ++ [])) as Hascii1
    by (by rewrite app_nil_r).
  destruct (feed_ideal xmlUnmarshal jsonMarshal uuidNew model (c :: rest) p1 []
              Hall eq_refl (settled_nil p1 eq_refl) Hascii1) as [H1 H2].
  destruct (feed model (c :: rest) (Some p1)) as [param' e].
  cbn [fst snd] in *. destruct Hf as (_ & _ & Hst & Hopen).
  unfold completed. cbn [fst snd]. rewrite Hst, Hopen.
  rewrite !app_nil_r in H1.
  rewrite (idealIn_pending xmlUnmarshal jsonMarshal uuidNew _ H2) in H1.
  cbn [app mergeDeltas glue]. by rewrite <- H1.
Qed.

(** C4, as amended (chunk-splitting invariance).  Two non-empty sequences
    of chunks, none of them a finish chunk, whose contents make up the
    same ASCII text, give the same events up to the cutting of the text
    into deltas and up to what is still withheld.  Once the events of each
    run are followed by the delta that flushes its buffer, and adjacent
    deltas of one block are merged, the two event sequences are identical:
    the [message_start], every block start and stop with its index, every
    tool call with its events, every text and thinking.  The parser state
    and the body of a tool call still open are the same as well.  Both
    runs draw their ids from the same [uuidNew]. *)
Theorem chunking_invariance model chunks1 chunks2 :
  chunks1 ≠ [] → chunks2 ≠ [] →
  Forall handledAsText chunks1 → Forall handledAsText chunks2 →
  inputOf chunks1 = inputOf chunks2 → asciiOnly (inputOf chunks1) →
  completed (feed model chunks1 None) = completed (feed model chunks2 None).
Proof.
  intros Hne1 Hne2 Hall1 Hall2 Heq Hascii.
  rewrite (completed_ideal model chunks1 Hne1 Hall1 Hascii).
  rewrite Heq in Hascii.
  rewrite (completed_ideal model chunks2 Hne2 Hall2 Hascii).
  by rewrite Heq.
Qed.
End Invariance.

Lemma chunking_invariance_witness :
  [JSONChunk (B "Let me ") []; RawChunk (B "<thin");
   JSONChunk (B "king>deep</thinking><tool_call>x</tool_call>done <") []] ≠ [] ∧
  [JSONChunk (B "Let me <thinking>deep</thinking><tool_call>x</tool_call>done <") []]
  ≠ [] ∧
  Forall handledAsText
    [JSONChunk (B "Let me ") []; RawChunk (B "<thin");
     JSONChunk (B "king>deep</thinking><tool_call>x</tool_call>done <") []] ∧
  Forall handledAsText
    [JSONChunk (B "Let me <thinking>deep</thinking><tool_call>x</tool_call>done <") []] ∧
  inputOf [JSONChunk (B "Let me ") []; RawChunk (B "<thin");
           JSONChunk (B "king>deep</thinking><tool_call>x</tool_call>done <") []]
  = inputOf
      [JSONChunk (B "Let me <thinking>deep</thinking><tool_call>x</tool_call>done <") []] ∧
  asciiOnly
    (inputOf [JSONChunk (B "Let me ") []; RawChunk (B "<thin");
              JSONChunk (B "king>deep</thinking><tool_call>x</tool_call>done <") []]) ∧
  completed (feed xmlWeather jsonEmpty uuidConst (B "m")
               [JSONChunk (B "Let me ") []; RawChunk (B "<thin");
                JSONChunk (B "king>deep</thinking><tool_call>x</tool_call>done <") []]
               None) =
  completed (feed xmlWeather jsonEmpty uuidConst (B "m")
               [JSONChunk
                  (B "Let me <thinking>deep</thinking><tool_call>x</tool_call>done <") []]
               None).
Proof.
  assert ([JSONChunk (B "Let me ") []; RawChunk (B "<thin");
           JSONChunk (B "king>deep</thinking><tool_call>x</tool_call>done <") []] ≠ [])
    as N1 by discriminate.
  assert ([JSONChunk
             (B "Let me <thinking>deep</thinking><tool_call>x</tool_call>done <") []]
          ≠ []) as N2 by discriminate.
  assert (Forall handledAsText
            [JSONChunk (B "Let me ") []; RawChunk (B "<thin");
             JSONChunk (B "king>deep</thinking><tool_call>x</tool_call>done <") []])
    as H1 by (repeat constructor; by left).
  assert (Forall handledAsText
            [JSONChunk
               (B "Let me <thinking>deep</thinking><tool_call>x</tool_call>done <") []])
    as H2 by (repeat constructor; by left).
  assert (inputOf [JSONChunk (B "Let me ") []; RawChunk (B "<thin");
                   JSONChunk (B "king>deep</thinking><tool_call>x</tool_call>done <") []]
          = inputOf
              [JSONChunk
                 (B "Let me <thinking>deep</thinking><tool_call>x</tool_call>done <") []])
    as H3 by reflexivity.
  assert (asciiOnly
            (inputOf [JSONChunk (B "Let me ") []; RawChunk (B "<thin");
                      JSONChunk (B "king>deep</thinking><tool_call>x</tool_call>done <")
                        []])) as H4 by (by repeat constructor).
  split; [exact N1|]. split; [exact N2|]. split; [exact H1|]. split; [exact H2|].
  split; [exact H3|]. split; [exact H4|].
  exact (chunking_invariance xmlWeather jsonEmpty uuidConst (B "m") _ _
           N1 N2 H1 H2 H3 H4).
Defined.

(** The common form of a stream with a tool call: the text and the
    thinking in one delta each, the tool call between them, and the
    withheld [done <] flushed into a text block of its own. *)
Lemma completed_example :
  completed (feed xmlWeather jsonEmpty uuidConst (B "m")
               [JSONChunk (B "Let me ") []; RawChunk (B "<thin");
                JSONChunk (B "king>deep</thinking><tool_call>x</tool_call>done <") []]
               None)
  = ([MessageStart (B "msg_uuid") (B "m");
      ContentBlockStart 0 TextBlock;
      ContentBlockDelta 0 (TextDelta (B "Let me "));
      ContentBlockStop 0;
      ContentBlockStart 1 ThinkingBlock;
      ContentBlockDelta 1 (ThinkingDelta (B "deep"));
      ContentBlockStop 1;
      ContentBlockStart 2 (ToolUseBlock (B "call_uuid") (B "weather"));
      ContentBlockDelta 2 (InputJsonDelta (B "{}"));
      ContentBlockStop 2;
      ContentBlockStart 3 TextBlock;
      ContentBlockDelta 3 (TextDelta (B "done <"))],
     StateNormal, []).
Proof. by vm_compute. Qed.

(** Without the flush the merged events still depend on the chunking:
    [a <] ends in a possible beginning of a tag and is withheld whole when
    it comes in one chunk, while [a ] in a chunk of its own is emitted at
    once. *)
Lemma withholding_changes_events :
  inputOf [JSONChunk (B "a <") []]
  = inputOf [JSONChunk (B "a ") []; JSONChunk (B "<") []]
  ∧ mergeDeltas (stream xmlWeather jsonEmpty uuidConst (B "m")
                   [JSONChunk (B "a <") []])
    = [MessageStart (B "msg_uuid") (B "m")]
  ∧ mergeDeltas (stream xmlWeather jsonEmpty uuidConst (B "m")
                   [JSONChunk (B "a ") []; JSONChunk (B "<") []])
    = [MessageStart (B "msg_uuid") (B "m");
       ContentBlockStart 0 TextBlock;
       ContentBlockDelta 0 (TextDelta (B "a "))].
Proof. by vm_compute. Qed.

(** The first call emits the [message_start] whatever its chunk holds: one
    empty chunk delivers the input of no chunk at all, and other events. *)
Lemma empty_chunk_changes_events :
  inputOf [JSONChunk [] []] = inputOf []
  ∧ completed (feed xmlWeather jsonEmpty uuidConst (B "m") [JSONChunk [] []] None)
    = ([MessageStart (B "msg_uuid") (B "m")], StateNormal, [])
  ∧ completed (feed xmlWeather jsonEmpty uuidConst (B "m") [] None)
    = ([], StateNormal, []).
Proof. by vm_compute. Qed.

(** Beyond ASCII the events depend on the chunking also in the common
    form.  In one chunk, U+00E9 and 14 bytes that end in [<] make a
    buffer of 16 bytes: [processBuffer] emits all but the last 15, which
    is the first byte of the character, and the consumer reads two U+FFFD.
    With the character in a chunk of its own it arrives whole. *)
Lemma cut_character_changes_events :
  inputOf [JSONChunk (EncodeRune 0xE9 ++ B "0123456789abc<") []]
  = inputOf [JSONChunk (EncodeRune 0xE9) []; JSONChunk (B "0123456789abc<") []]
  ∧ completed (feed xmlWeather jsonEmpty uuidConst (B "m")
                 [JSONChunk (EncodeRune 0xE9 ++ B "0123456789abc<") []] None)
    = ([MessageStart (B "msg_uuid") (B "m");
        ContentBlockStart 0 TextBlock;
        ContentBlockDelta 0
          (TextDelta (replacementChar ++ replacementChar ++ B "0123456789abc<"))],
       StateNormal, [])
  ∧ completed (feed xmlWeather jsonEmpty uuidConst (B "m")
                 [JSONChunk (EncodeRune 0xE9) []; JSONChunk (B "0123456789abc<") []]
                 None)
    = ([MessageStart (B "msg_uuid") (B "m");
        ContentBlockStart 0 TextBlock;
        ContentBlockDelta 0 (TextDelta (EncodeRune 0xE9 ++ B "0123456789abc<"))],
       StateNormal, []).
Proof. by vm_compute. Qed.

Section GjsonFacts.
Variable ValidBytes : bytes -> bool.
Variable GetString : bytes -> bytes -> bytes.
Hypothesis invalid_x : ValidBytes (B "x") = false.
Hypothesis invalid_x42 : ValidBytes (B "x42") = false.
Hypothesis valid_42 : ValidBytes (B "42") = true.
Hypothesis no_content_42 : GetString (B "42") (B "choices.0.delta.content") = [].

(** The input of a stream is the content of its chunks, not their bytes:
    of a raw text cut into pieces, a piece that is valid JSON by itself
    counts for nothing.  Cut into [x] and [42], the text [x42] delivers
    [x]. *)
Lemma valid_piece_dropped :
  inputOf (map (chunkOf ValidBytes GetString) [B "x"; B "42"]) = B "x"
  ∧ inputOf (map (chunkOf ValidBytes GetString) [B "x42"]) = B "x42".
Proof.
  unfold inputOf, chunkOf. cbn [map].
  by rewrite invalid_x, invalid_x42, valid_42, no_content_42.
Qed.
End GjsonFacts.

End PacoreFacts.

(* ===================================================================== *)
(** * The tool-intent parser                                             *)
(* ===================================================================== *)

Module ToolIntentsFacts.

Import GoStrings GoStringsFacts ToolIntents.

Section ParseFacts.
Lemma findTagBlock_bounds input tag start end_ raw :
  findTagBlock input tag = Some (start, end_, raw) →
  start < end_ ∧ end_ ≤ length input.
Proof.
  unfold findTagBlock.
  destruct (Index input (openTag tag)) as [s|] eqn:Es; [|discriminate].
  destruct (Index (drop s input) (closeTag tag)) as [e|] eqn:Ee; [|discriminate].
  intros [= <- <- <-].
  apply Index_Some_fits in Es, Ee. rewrite length_drop in Ee.
  unfold closeTag in *. simpl in *. rewrite length_app in *. simpl in *. lia.
Qed.

Lemma findTagBlock_nil tag : findTagBlock [] tag = None.
Proof.
  unfold findTagBlock.
  destruct (Index [] (openTag tag)) as [s|] eqn:Es; [|done].
  apply Index_Some_fits in Es. unfold openTag in Es.
  rewrite !length_app in Es. simpl in Es. lia.
Qed.

(** The fuel [ParseToolIntents] starts with is enough. *)
Lemma parseLoop_fuel n m remaining intents :
  length remaining ≤ n → length remaining ≤ m →
  parseLoop n remaining intents = parseLoop m remaining intents.
Proof.
  revert m remaining intents. induction n as [|n IH]; intros m r acc Hn Hm.
  - destruct r; [|simpl in Hn; lia].
    destruct m; cbn [parseLoop]; by rewrite findTagBlock_nil.
  - destruct m as [|m].
    { destruct r; [|simpl in Hm; lia]. cbn [parseLoop]. by rewrite findTagBlock_nil. }
    cbn [parseLoop]. destruct (findTagBlock r (B "websearch")) as [[[s e] raw]|] eqn:E; [|done].
    apply findTagBlock_bounds in E.
    apply IH; rewrite length_app, length_take, length_drop; lia.
Qed.
End ParseFacts.

(** C6 (flushable excision) at a failing input.  The input has no complete
    [<websearch>] block, so nothing is to be excised and the flushable text
    should be the input.  [splitFlushable] cuts it into the flushable
    ["abc"] and the kept rest; the rest is longer than the cap, and [Feed]
    returns the rest alone: the three bytes of text before the tag are
    lost, and the buffer is empty afterwards. *)
Theorem feed_overflow_drops_flushable :
  Feed NewToolIntentBuffer overflowInput =
    ({| buffer := []; maxBuffer := 8192 |},
     B "<websearch>" ++ replicate (Z.to_nat 8200) "x"%char, [])
  ∧ fst (ParseToolIntents overflowInput) = overflowInput
  ∧ splitFlushable overflowInput = (B "abc", drop 3 overflowInput).
Proof. vm_compute. done. Qed.

(** C7 (empty-question intents) at a failing input.  The question is
    compared with the empty string before it is trimmed: a question of one
    space passes the test and the intent is returned with an empty
    ["question"] argument. *)
Theorem blank_question_kept :
  ParseToolIntents (B "<websearch><question> </question></websearch>") =
    ([], [{| Name := B "websearch";
             Arguments := {[ B "question" := [] ]};
             Raw := B "<websearch><question> </question></websearch>" |}]).
Proof. vm_compute. reflexivity. Qed.

Section BlockFacts.
Implicit Types s t input : bytes.

Lemma findTagBlock_raw input tag start end_ raw :
  findTagBlock input tag = Some (start, end_, raw) →
  ∃ e, Index input (openTag tag) = Some start ∧
       Index (drop start input) (closeTag tag) = Some e ∧
       end_ = start + e + length (closeTag tag) ∧
       raw = take (e + length (closeTag tag)) (drop start input).
Proof.
  unfold findTagBlock.
  destruct (Index input (openTag tag)) as [s|] eqn:Es; [|discriminate].
  destruct (Index (drop s input) (closeTag tag)) as [e|] eqn:Ee; [|discriminate].
  intros [= <- <- <-]. exists e. repeat split; try done. f_equal.
  unfold closeTag. simpl. lia.
Qed.

(** The closing tag does not begin inside the opening tag. *)
Lemma close_after_open rest e :
  closeTag (B "websearch") `prefix_of` drop e (openTag (B "websearch") ++ rest) →
  length (openTag (B "websearch")) ≤ e.
Proof.
  intros Hp. change (length (openTag (B "websearch"))) with 11.
  destruct (decide (11 ≤ e)) as [|Hlt]; [done|]. exfalso.
  do 11 (destruct e as [|e];
         [ cbn in Hp; pose proof (prefix_cons_inv_1 _ _ _ _ Hp) as Hc;
           try discriminate Hc;
           apply prefix_cons_inv_2, prefix_cons_inv_1 in Hp; discriminate Hp |]).
  lia.
Qed.

(** The block cut out by [findTagBlock]: the opening tag, an inner text
    in which the closing tag does not occur, and the closing tag. *)
Lemma findTagBlock_shape input start end_ raw :
  findTagBlock input (B "websearch") = Some (start, end_, raw) →
  ∃ inner, raw = openTag (B "websearch") ++ inner ++ closeTag (B "websearch") ∧
           Index inner (closeTag (B "websearch")) = None.
Proof.
  intros H. apply findTagBlock_raw in H as (e & Hs & He & -> & ->).
  set (open := openTag (B "websearch")) in *.
  set (close := closeTag (B "websearch")) in *.
  pose proof (Index_Some_prefix _ _ _ Hs) as [Y HY].
  pose proof (Index_Some_prefix _ _ _ He) as Hc.
  rewrite HY in Hc, He |- *.
  pose proof (close_after_open _ _ Hc) as Hge. fold open in Hge.
  rewrite drop_app_ge in Hc by done. destruct Hc as [Z HZ].
  exists (take (e - length open) Y). split.
  - rewrite take_app_ge by lia. f_equal.
    rewrite <- (take_drop (e - length open) Y) at 1. rewrite HZ.
    rewrite take_app_ge by (rewrite length_take; lia).
    f_equal.
    assert (length (take (e - length open) Y) = e - length open) as ->.
    { rewrite length_take. apply (f_equal length) in HZ.
      rewrite length_drop, length_app in HZ.
      change (length close) with 12 in HZ. lia. }
    replace (e + length close - length open - (e - length open)) with (length close) by lia.
    by rewrite take_app_length.
  - apply Index_take_None; [done|]. intros j Hj Hp.
    apply (Index_Some_first _ _ _ (length open + j) He); [lia|].
    by rewrite drop_app_ge, Nat.add_comm, Nat.add_sub by lia.
Qed.

(** A text without a complete block has none in any of its ends. *)
Lemma findTagBlock_suffix s t tag :
  findTagBlock s tag = None → t `suffix_of` s → findTagBlock t tag = None.
Proof.
  intros Hs [u ->].
  destruct (findTagBlock t tag) as [[[i e] raw]|] eqn:Et; [|done]. exfalso.
  apply findTagBlock_raw in Et as (e' & Ho & Hc & _ & _).
  apply Index_Some_prefix in Ho, Hc. rewrite drop_drop in Hc.
  assert (openTag tag `prefix_of` drop (length u + i) (u ++ t)) as Ho'.
  { by rewrite drop_app_ge, Nat.add_comm, Nat.add_sub by lia. }
  apply Index_present in Ho' as (a & Ha & Hle).
  assert (closeTag tag `prefix_of` drop (length u + i - a + e') (drop a (u ++ t))) as Hc'.
  { rewrite drop_drop.
    replace (a + (length u + i - a + e')) with (length u + (i + e')) by lia.
    by rewrite drop_app_ge, Nat.add_comm, Nat.add_sub by lia. }
  apply Index_present in Hc' as (c & Hc' & _).
  unfold findTagBlock in Hs. by rewrite Ha, Hc' in Hs.
Qed.

Lemma parseLoop_done n remaining intents :
  length remaining ≤ n →
  findTagBlock (parseLoop n remaining intents).1 (B "websearch") = None.
Proof.
  revert remaining intents. induction n as [|n IH]; intros r acc Hn.
  - destruct r; [|simpl in Hn; lia]. cbn [parseLoop]. by rewrite findTagBlock_nil.
  - cbn [parseLoop].
    destruct (findTagBlock r (B "websearch")) as [[[s e] raw]|] eqn:E; [|done].
    apply findTagBlock_bounds in E.
    apply IH. rewrite length_app, length_take, length_drop. lia.
Qed.

Lemma parseLoop_wellFormed n remaining intents :
  Forall wellFormedIntent intents →
  Forall wellFormedIntent (parseLoop n remaining intents).2.
Proof.
  revert remaining intents. induction n as [|n IH]; intros r acc Hacc; cbn [parseLoop].
  - by destruct (findTagBlock r (B "websearch")) as [[[s e] raw]|].
  - destruct (findTagBlock r (B "websearch")) as [[[s e] raw]|] eqn:E; [|done].
    apply IH. case_bool_decide as Hq; simpl; [done|].
    apply Forall_app. split; [done|]. constructor; [|done].
    repeat split; simpl; try done. by eapply findTagBlock_shape.
Qed.
End BlockFacts.

Lemma splitFlushable_parts text :
  (splitFlushable text).1 ++ (splitFlushable text).2 = text ∧
  heldBack (splitFlushable text).2.
Proof.
  assert (∀ k, B "<websearch>" `prefix_of` drop k text →
               take k text ++ drop k text = text ∧ heldBack (drop k text)) as Hws.
  { intros k Hk. split; [apply take_drop|]. right. by left. }
  assert (let fallback :=
            match LastIndex text (B "<") with
            | None => (text, [])
            | Some idx =>
                if Contains (drop idx text) (B ">") then (text, [])
                else (take idx text, drop idx text)
            end in
          fallback.1 ++ fallback.2 = text ∧ heldBack fallback.2) as Hfb.
  { cbv zeta. destruct (LastIndex text (B "<")) as [idx|] eqn:El.
    - unfold Contains. destruct (Index (drop idx text) (B ">")) eqn:Ec; cbn [fst snd].
      + split; [apply app_nil_r|by left].
      + split; [apply take_drop|]. right. right.
        split; [|done]. by apply LastIndex_Some_prefix.
    - split; [apply app_nil_r|by left]. }
  unfold splitFlushable.
  destruct (Index text (B "<websearch>")) as [i|] eqn:Ei; [|exact Hfb].
  destruct (Index (drop i text) (B "</websearch>")) as [e|] eqn:Ee.
  - destruct (_ <? _); [|exact Hfb].
    destruct (Index (drop _ text) (B "<websearch>")) as [j|] eqn:Ej; [|exact Hfb].
    simpl. apply Hws. apply Index_Some_prefix in Ej. by rewrite drop_drop in Ej.
  - simpl. apply Hws. by apply Index_Some_prefix.
Qed.

(** X10.  [splitFlushable] cuts its argument in two: nothing is lost or
    reordered, and what is kept is empty, or begins at an opening
    [<websearch>] tag, or begins at a [<] that no [>] follows. *)
Theorem splitFlushable_partition text :
  (splitFlushable text).1 ++ (splitFlushable text).2 = text ∧
  heldBack (splitFlushable text).2.
Proof. exact (splitFlushable_parts text). Qed.

(** X8.  [ParseToolIntents] stops only when no complete block is left, also
    when a block appears by the removal of another, and parsing what it
    returns again changes nothing. *)
Theorem ParseToolIntents_no_block_left text :
  findTagBlock (ParseToolIntents text).1 (B "websearch") = None ∧
  ParseToolIntents (ParseToolIntents text).1 = ((ParseToolIntents text).1, []).
Proof.
  assert (findTagBlock (ParseToolIntents text).1 (B "websearch") = None) as H.
  { by apply parseLoop_done. }
  split; [done|]. unfold ParseToolIntents at 1.
  destruct (length _); cbn [parseLoop]; by rewrite H.
Qed.

(** X9.  Every intent returned is a [websearch] intent whose [Raw] is one
    block: the opening tag, an inner text without the closing tag, the
    closing tag.  Its only argument is the question extracted from [Raw],
    which was not empty before it was trimmed. *)
Theorem intents_wellFormed text :
  Forall wellFormedIntent (ParseToolIntents text).2.
Proof. by apply parseLoop_wellFormed. Qed.

(** X11.  [Feed] never returns or keeps text that was not fed: what it returns,
    followed by what it keeps, is an end of the text left when the blocks
    are removed, and all of it unless the buffer was emptied. *)
Theorem Feed_conserves b text :
  text ≠ [] →
  (Feed b text).1.2 ++ buffer (Feed b text).1.1
    `suffix_of` (ParseToolIntents (buffer b ++ text)).1 ∧
  (buffer (Feed b text).1.1 = [] ∨
   (Feed b text).1.2 ++ buffer (Feed b text).1.1
     = (ParseToolIntents (buffer b ++ text)).1).
Proof.
  intros Ht. unfold Feed. rewrite bool_decide_eq_false_2 by done.
  destruct (ParseToolIntents (buffer b ++ text)) as [remaining intents]. simpl.
  pose proof (splitFlushable_parts remaining) as [Hp _].
  destruct (splitFlushable remaining) as [flushable keep]. simpl in Hp.
  destruct (_ <? _)%Z; simpl.
  - split; [|by left]. rewrite app_nil_r, <- Hp. by apply suffix_app_r.
  - rewrite Hp. split; [done|by right].
Qed.

Lemma Feed_conserves_witness :
  B "hi <web" ≠ [] ∧
  (Feed NewToolIntentBuffer (B "hi <web")).1.2
    ++ buffer (Feed NewToolIntentBuffer (B "hi <web")).1.1
    `suffix_of` (ParseToolIntents (buffer NewToolIntentBuffer ++ B "hi <web")).1 ∧
  (buffer (Feed NewToolIntentBuffer (B "hi <web")).1.1 = [] ∨
   (Feed NewToolIntentBuffer (B "hi <web")).1.2
     ++ buffer (Feed NewToolIntentBuffer (B "hi <web")).1.1
     = (ParseToolIntents (buffer NewToolIntentBuffer ++ B "hi <web")).1).
Proof.
  assert (B "hi <web" ≠ []) as H by done.
  split; [exact H|]. exact (Feed_conserves NewToolIntentBuffer (B "hi <web") H).
Defined.

(** X12.  The invariant of the buffer: at most [maxBuffer] bytes, empty or
    beginning at a tag that may still be completed, and never a complete
    block. *)
Theorem Feed_buffer_invariant b texts :
  bufferOK b → bufferOK (feedAll b texts).1.1.
Proof.
  revert b. induction texts as [|text rest IH]; intros b Hb; [done|].
  cbn [feedAll].
  assert (bufferOK (Feed b text).1.1) as H1.
  { unfold Feed. case_bool_decide as Ht; [done|].
    pose proof (parseLoop_done (length (buffer b ++ text)) (buffer b ++ text) []
                  ltac:(done)) as Hn.
    fold (ParseToolIntents (buffer b ++ text)) in Hn.
    destruct (ParseToolIntents (buffer b ++ text)) as [remaining intents]. simpl in Hn.
    pose proof (splitFlushable_parts remaining) as [Hp Hk].
    destruct (splitFlushable remaining) as [flushable keep]. simpl in Hp, Hk.
    destruct Hb as (Hmax & _).
    destruct (_ <? _)%Z eqn:Eo; simpl.
    - split_and!; simpl; [done|done|by left|apply findTagBlock_nil].
    - apply Z.ltb_ge in Eo. split_and!; simpl; [done|done|done|].
      apply (findTagBlock_suffix remaining); [done|].
      rewrite <- Hp. by apply suffix_app_r. }
  destruct (Feed b text) as [[b1 f1] i1]. simpl in H1.
  specialize (IH b1 H1). by destruct (feedAll b1 rest) as [[b2 f2] i2].
Qed.

Lemma Feed_buffer_invariant_witness :
  bufferOK NewToolIntentBuffer ∧
  bufferOK (feedAll NewToolIntentBuffer [B "a <web"; B "search><question>q"]).1.1.
Proof.
  assert (bufferOK NewToolIntentBuffer) as H.
  { split_and!; [done|done|by left|by vm_compute]. }
  split; [exact H|]. exact (Feed_buffer_invariant NewToolIntentBuffer _ H).
Defined.

(** X13.  Text without any [<] passes through at once: with the text held back
    before it, and nothing is kept. *)
Theorem Feed_plain_text b text :
  text ≠ [] → (0 ≤ maxBuffer b)%Z → Index (buffer b ++ text) (B "<") = None →
  Feed b text = ({| buffer := []; maxBuffer := maxBuffer b |}, buffer b ++ text, []).
Proof.
  intros Ht Hmax Hlt. unfold Feed. rewrite bool_decide_eq_false_2 by done.
  assert (Index (buffer b ++ text) (B "<websearch>") = None) as Hws.
  { apply (Index_longer_None _ (B "<")); [done|]. by exists (B "websearch>"). }
  assert (ParseToolIntents (buffer b ++ text) = (buffer b ++ text, [])) as ->.
  { unfold ParseToolIntents.
    assert (findTagBlock (buffer b ++ text) (B "websearch") = None) as Hf.
    { unfold findTagBlock. change (openTag (B "websearch")) with (B "<websearch>").
      by rewrite Hws. }
    destruct (length _); cbn [parseLoop]; by rewrite Hf. }
  assert (splitFlushable (buffer b ++ text) = (buffer b ++ text, [])) as ->.
  { unfold splitFlushable. rewrite Hws. by rewrite LastIndex_absent. }
  simpl. destruct (_ <? _)%Z eqn:E; [|done]. apply Z.ltb_lt in E. lia.
Qed.

Lemma Feed_plain_text_witness :
  (B "hello" ≠ [] ∧ (0 ≤ maxBuffer NewToolIntentBuffer)%Z ∧
   Index (buffer NewToolIntentBuffer ++ B "hello") (B "<") = None) ∧
  Feed NewToolIntentBuffer (B "hello") =
    ({| buffer := []; maxBuffer := maxBuffer NewToolIntentBuffer |},
     buffer NewToolIntentBuffer ++ B "hello", []).
Proof.
  assert (B "hello" ≠ [] ∧ (0 ≤ maxBuffer NewToolIntentBuffer)%Z ∧
          Index (buffer NewToolIntentBuffer ++ B "hello") (B "<") = None) as H
    by (by vm_compute).
  split; [exact H|]. destruct H as (H1 & H2 & H3).
  exact (Feed_plain_text NewToolIntentBuffer (B "hello") H1 H2 H3).
Defined.

(** The needle and the text differ in one of their first bytes. *)
Ltac mismatch :=
  let Hp := fresh "Hp" in
  intros Hp;
  repeat (let Hc := fresh "Hc" in
          pose proof (prefix_cons_inv_1 _ _ _ _ Hp) as Hc;
          try discriminate Hc; clear Hc;
          apply prefix_cons_inv_2 in Hp).

Section ExtractFacts.
Implicit Types pre post question : bytes.

Lemma websearchBlock_length question :
  length (websearchBlock question) = 21 + length question + 23.
Proof. unfold websearchBlock. by rewrite !length_app. Qed.

Lemma open_in_text pre question post :
  Index pre (B "<") = None →
  Index (pre ++ websearchBlock question ++ post) (openTag (B "websearch"))
  = Some (length pre).
Proof.
  intros Hpre. change (openTag (B "websearch")) with ("<"%char :: B "websearch>").
  rewrite Index_skip_free by done. rewrite Index_here.
  - simpl. f_equal. lia.
  - unfold websearchBlock. by eexists.
Qed.

Lemma close_in_block question post :
  Index question (B "<") = None →
  Index (websearchBlock question ++ post) (closeTag (B "websearch"))
  = Some (length (websearchBlock question) - 12).
Proof.
  intros Hq. rewrite websearchBlock_length. unfold websearchBlock.
  change (closeTag (B "websearch")) with ("<"%char :: B "/websearch>").
  rewrite <- !app_assoc.
  rewrite (Index_app_skip (B "<websearch><question>")).
  2:{ intros j Hj. do 21 (destruct j as [|j]; [simpl; mismatch|]). simpl in Hj. lia. }
  rewrite Index_skip_free by done.
  change (B "</question></websearch>") with (B "</question>" ++ B "</websearch>").
  rewrite <- !app_assoc.
  rewrite (Index_app_skip (B "</question>")).
  2:{ intros j Hj. do 11 (destruct j as [|j]; [simpl; mismatch|]). simpl in Hj. lia. }
  rewrite Index_here by (by eexists). simpl. f_equal. lia.
Qed.

Lemma question_in_block question :
  Index question (B "<") = None →
  extractTagValue (websearchBlock question) (B "question") = question.
Proof.
  intros Hq. unfold extractTagValue, websearchBlock.
  change (openTag (B "question")) with ("<"%char :: B "question>").
  change (closeTag (B "question")) with ("<"%char :: B "/question>").
  change (B "<websearch><question>") with (B "<websearch>" ++ B "<question>").
  rewrite <- !app_assoc.
  rewrite (Index_app_skip (B "<websearch>")).
  2:{ intros j Hj. do 11 (destruct j as [|j]; [simpl; mismatch|]). simpl in Hj. lia. }
  rewrite Index_here by (by eexists). cbn [fmap option_fmap option_map].
  change (length (B "<websearch>") + 0 + length ("<"%char :: B "question>")) with 21.
  change (drop 21 (B "<websearch>" ++ B "<question>" ++ question
                   ++ B "</question></websearch>"))
    with (question ++ B "</question></websearch>").
  rewrite Index_skip_free by done.
  rewrite Index_here by (by eexists). cbn [fmap option_fmap option_map].
  by rewrite Nat.add_0_r, take_app_length.
Qed.
End ExtractFacts.

(** X7.  A well-formed block amid plain text.  When neither the text around
    the block nor the question holds a [<], [ParseToolIntents] returns the
    text around the block and one intent, with the trimmed question as its
    argument and the block as its [Raw]. *)
Theorem ParseToolIntents_extracts (pre question post : bytes) :
  Index pre (B "<") = None → Index question (B "<") = None →
  Index post (B "<") = None → question ≠ [] →
  ParseToolIntents (pre ++ websearchBlock question ++ post) =
    (pre ++ post,
     [{| Name := B "websearch";
         Arguments := {[ B "question" := TrimSpace question ]};
         Raw := websearchBlock question |}]).
Proof.
  intros Hpre Hq Hpost Hne. unfold ParseToolIntents.
  assert (findTagBlock (pre ++ websearchBlock question ++ post) (B "websearch")
          = Some (length pre, length pre + length (websearchBlock question),
                  websearchBlock question)) as Hblock.
  { unfold findTagBlock. rewrite open_in_text by done.
    rewrite drop_app_length, close_in_block by done.
    rewrite websearchBlock_length.
    change (length (closeTag (B "websearch"))) with 12. do 2 f_equal.
    - f_equal. lia.
    - replace (length pre + (21 + length question + 23 - 12) + 12 - length pre)
        with (length (websearchBlock question))
        by (rewrite websearchBlock_length; lia).
      by rewrite take_app_length. }
  assert (findTagBlock (pre ++ post) (B "websearch") = None) as Hrest.
  { unfold findTagBlock.
    rewrite (Index_longer_None (pre ++ post) (B "<")); [done| |by eexists].
    apply Index_nowhere_None. intros j Hp.
    destruct (decide (j < length pre)) as [Hj|Hj].
    - rewrite drop_app_le in Hp by lia.
      destruct (drop j pre) as [|c r] eqn:E.
      { apply (f_equal length) in E. rewrite length_drop in E. simpl in E. lia. }
      apply (Index_None_nowhere _ _ j Hpre). rewrite E.
      simpl in Hp. apply prefix_cons_inv_1 in Hp as ->. by eexists.
    - rewrite drop_app_ge in Hp by lia. by apply (Index_None_nowhere _ _ _ Hpost) in Hp. }
  rewrite (parseLoop_fuel _ (S (length (pre ++ websearchBlock question ++ post))))
    by lia.
  cbn [parseLoop]. rewrite Hblock. rewrite question_in_block by done.
  rewrite bool_decide_eq_false_2 by done. cbn [negb app].
  rewrite take_app_length.
  replace (drop (length pre + length (websearchBlock question))
             (pre ++ websearchBlock question ++ post)) with post.
  2:{ rewrite drop_app_ge by lia.
      by rewrite Nat.add_comm, Nat.add_sub, drop_app_length. }
  generalize (length (pre ++ websearchBlock question ++ post)).
  intros [|n]; cbn [parseLoop]; by rewrite Hrest.
Qed.

Lemma ParseToolIntents_extracts_witness :
  (Index (B "Let me check. ") (B "<") = None ∧
   Index (B " weather in Paris ") (B "<") = None ∧
   Index (B " One moment.") (B "<") = None ∧ B " weather in Paris " ≠ []) ∧
  ParseToolIntents (B "Let me check. " ++ websearchBlock (B " weather in Paris ")
                    ++ B " One moment.") =
    (B "Let me check. " ++ B " One moment.",
     [{| Name := B "websearch";
         Arguments := {[ B "question" := TrimSpace (B " weather in Paris ") ]};
         Raw := websearchBlock (B " weather in Paris ") |}]).
Proof.
  assert (Index (B "Let me check. ") (B "<") = None ∧
          Index (B " weather in Paris ") (B "<") = None ∧
          Index (B " One moment.") (B "<") = None ∧ B " weather in Paris " ≠ [])
    as H by (by vm_compute).
  split; [exact H|]. destruct H as (H1 & H2 & H3 & H4).
  exact (ParseToolIntents_extracts _ _ _ H1 H2 H3 H4).
Defined.

(** The question of an intent is trimmed of Unicode white space: here a
    U+00A0 before it and a U+3000 with a line feed after it. *)
Lemma question_trimmed_unicode :
  ParseToolIntents
    (websearchBlock (EncodeRune 0xA0 ++ B "weather in Paris" ++ EncodeRune 0x3000
                     ++ [byteOf 0x0A]))
  = ([],
     [{| Name := B "websearch";
         Arguments := {[ B "question" := B "weather in Paris" ]};
         Raw := websearchBlock (EncodeRune 0xA0 ++ B "weather in Paris"
                                ++ EncodeRune 0x3000 ++ [byteOf 0x0A]) |}]).
Proof. by vm_compute. Qed.

End ToolIntentsFacts.

(* ===================================================================== *)
(** * Usage statistics                                                   *)
(* ===================================================================== *)

Module UsageFacts.

Import GoStrings Usage.
Local Open Scope Z_scope.

Section RetentionFacts.
Lemma wrap64_small z : - 2 ^ 63 ≤ z < 2 ^ 63 → wrap64 z = z.
Proof. intros H. unfold wrap64. rewrite Z.mod_small; lia. Qed.

Lemma retentionOffset_exact days :
  0 < days ≤ 106751 → retentionOffset days = - (days * 24 * Hour).
Proof.
  intros H. unfold retentionOffset, Hour.
  rewrite (wrap64_small (- days)) by lia.
  rewrite (wrap64_small (- days * 24)) by lia.
  rewrite wrap64_small by lia. lia.
Qed.

Lemma cutoff_exact now retentionDays :
  retentionDays ≤ 106751 →
  now + retentionOffset (if retentionDays <=? 0 then 30 else retentionDays)
  = specCutoff now retentionDays.
Proof.
  intros H. unfold specCutoff.
  destruct (Z.leb_spec retentionDays 0); rewrite retentionOffset_exact; lia.
Qed.

Lemma stripModel_details cutoff m :
  Details (stripModel cutoff m) =
    List.filter (λ d, bool_decide (cutoff < Timestamp d)) (Details m) ∧
  ModelTotalRequests (stripModel cutoff m) = ModelTotalRequests m ∧
  ModelTotalTokens (stripModel cutoff m) = ModelTotalTokens m.
Proof.
  unfold stripModel. case_bool_decide as E.
  - split; [|done]. destruct (Details m); [done|discriminate].
  - simpl. split; [|done]. apply List.filter_ext. intros d.
    destruct (Z.ltb_spec cutoff (Timestamp d)).
    + by rewrite bool_decide_eq_true_2.
    + rewrite bool_decide_eq_false_2; [done|lia].
Qed.

Lemma stripAPI_models cutoff a :
  Models (stripAPI cutoff a) = stripModel cutoff <$> Models a ∧
  APITotalRequests (stripAPI cutoff a) = APITotalRequests a ∧
  APITotalTokens (stripAPI cutoff a) = APITotalTokens a.
Proof.
  unfold stripAPI. case_bool_decide as E; [|done].
  split; [|done]. apply map_size_empty_iff in E. rewrite E. by rewrite fmap_empty.
Qed.

Lemma retained_strip cutoff snap :
  retained cutoff snap
    {| TotalRequests := TotalRequests snap; TotalTokens := TotalTokens snap;
       SuccessCount := SuccessCount snap; FailureCount := FailureCount snap;
       APIs := stripAPI cutoff <$> APIs snap |}.
Proof.
  repeat split; try done. simpl. intros api. rewrite lookup_fmap.
  destruct (APIs snap !! api) as [a|]; simpl; [|done].
  destruct (stripAPI_models cutoff a) as (-> & -> & ->).
  split; [done|]. split; [done|]. intros model. rewrite lookup_fmap.
  destruct (Models a !! model) as [m|]; simpl; [|done].
  destruct (stripModel_details cutoff m) as (-> & -> & ->). done.
Qed.

(** X21.  The retention filter within the range of [time.Duration].  For
    every snapshot and every [retentionDays] up to 106751, the largest
    number of days whose length fits a [time.Duration],
    [stripRequestDetails] keeps for each (api, model) exactly the details
    whose timestamp is strictly after [now − retention_days·24h] (values
    [≤ 0] count as 30), in their order, and leaves every aggregate counter
    as it was. *)
Theorem stripRequestDetails_retains now snap retentionDays :
  retentionDays ≤ 106751 →
  ∃ after, stripRequestDetails now (Some snap) retentionDays = Some after ∧
           retained (specCutoff now retentionDays) snap after.
Proof.
  intros H. unfold stripRequestDetails. case_bool_decide as E.
  - exists snap. split; [done|].
    pose proof (retained_strip (specCutoff now retentionDays) snap) as Hr.
    apply map_size_empty_iff in E. rewrite E, fmap_empty, <- E in Hr.
    by destruct snap.
  - eexists. split; [done|]. rewrite cutoff_exact by done. apply retained_strip.
Qed.
End RetentionFacts.

Lemma stripRequestDetails_retains_witness :
  30 ≤ 106751 ∧
  ∃ after, stripRequestDetails sampleNow
             (Some (sampleSnapshot [sampleDetail (sampleNow - 40 * 24 * Hour);
                                    sampleDetail (sampleNow - 24 * Hour)])) 30
           = Some after ∧
           retained (specCutoff sampleNow 30)
             (sampleSnapshot [sampleDetail (sampleNow - 40 * 24 * Hour);
                              sampleDetail (sampleNow - 24 * Hour)]) after.
Proof. split; [lia|]. apply stripRequestDetails_retains. lia. Defined.

(** C8 (retention filter) at a failing input.  With 106752 retention days
    the product [-time.Duration(retentionDays) * 24 * time.Hour] no longer
    fits an [int64]: it wraps around, unchecked, to a positive offset,
    the cut-off lies in the future, and a detail one day old is removed
    although it is far younger than [now − retention_days·24h]. *)
Theorem retention_overflow :
  stripRequestDetails sampleNow
    (Some (sampleSnapshot [sampleDetail (sampleNow - 24 * Hour)])) 106752
  = Some (sampleSnapshot [])
  ∧ ¬ retained (specCutoff sampleNow 106752)
        (sampleSnapshot [sampleDetail (sampleNow - 24 * Hour)]) (sampleSnapshot []).
Proof.
  split; [by vm_compute|].
  intros (_ & _ & _ & _ & H). specialize (H (B "api")).
  unfold sampleSnapshot in H. simpl in H. rewrite !lookup_singleton_eq in H.
  destruct H as (_ & _ & H). specialize (H (B "model")). simpl in H.
  rewrite !lookup_singleton_eq in H. destruct H as (_ & _ & H).
  vm_compute in H. discriminate.
Qed.

Section PersistenceFacts.
Variable RequestStatistics : Type.
Variable Snapshot : RequestStatistics -> StatisticsSnapshot.
Variable Replace : RequestStatistics -> StatisticsSnapshot -> RequestStatistics.
Variable MergeSnapshot :
  RequestStatistics -> StatisticsSnapshot -> RequestStatistics * MergeResult.
Variable jsonUnmarshal : bytes -> option ImportPayload.
Variable jsonMarshalIndent : ExportPayload -> option bytes.
Variable filepathDir : bytes -> bytes.
Variable fails : FSCall -> bool.

Local Abbreviation LoadFromFile :=
  (Usage.LoadFromFile RequestStatistics Replace jsonUnmarshal fails).
Local Abbreviation SaveToFile :=
  (Usage.SaveToFile RequestStatistics Snapshot jsonMarshalIndent filepathDir fails).
Local Abbreviation ImportUsageStatistics :=
  (Usage.ImportUsageStatistics RequestStatistics Snapshot MergeSnapshot jsonUnmarshal).

(** C9 (import version validation).  For a payload that decodes, read by
    [LoadFromFile] from a non-empty file or received by the import handler:
    with version 0 or 1 the load replaces the store by the payload's usage
    and returns no error, and the handler merges it and answers 200; with
    any other version the load fails with the unsupported-version error,
    the handler answers 400 "unsupported version", and in both the store is
    the one before the call. *)
Theorem import_version_validated st (path : bytes) w (data : bytes) payload :
  path ≠ [] → fails (ReadFile path) = false →
  files w !! path = Some data → data ≠ [] →
  jsonUnmarshal data = Some payload →
  (if bool_decide (ImportVersion payload = 0 ∨ ImportVersion payload = 1)
   then
     LoadFromFile (Some st) path w =
       (logCall (ReadFile path) w, Some (Replace st (ImportUsage payload)), None) ∧
     ImportUsageStatistics (Some st) (Some data) =
       (Some (MergeSnapshot st (ImportUsage payload)).1,
        StatusOK (Added (MergeSnapshot st (ImportUsage payload)).2)
          (Skipped (MergeSnapshot st (ImportUsage payload)).2)
          (TotalRequests (Snapshot (MergeSnapshot st (ImportUsage payload)).1))
          (FailureCount (Snapshot (MergeSnapshot st (ImportUsage payload)).1)))
   else
     LoadFromFile (Some st) path w =
       (logCall (ReadFile path) w, Some st,
        Some (ErrUnsupportedVersion (ImportVersion payload))) ∧
     ImportUsageStatistics (Some st) (Some data) =
       (Some st, BadRequest (B "unsupported version"))).
Proof.
  intros Hpath Hfail Hfile Hdata Hjson.
  unfold Usage.LoadFromFile, Usage.ImportUsageStatistics, osReadFile.
  rewrite (bool_decide_eq_false_2 (path = [])) by done.
  rewrite Hfail, Hfile, Hjson.
  rewrite (bool_decide_eq_false_2 (length data = 0%nat)) by (destruct data; [done|discriminate]).
  destruct (MergeSnapshot st (ImportUsage payload)) as [st' result].
  repeat case_bool_decide; simpl; try done; try lia; naive_solver.
Qed.

(** C10 (nil receiver or empty path).  With a nil receiver or an empty
    path, [LoadFromFile] and [SaveToFile] return a nil error, make no
    file-system call (the files and the record of calls are as before) and
    leave the store as it was. *)
Theorem persistence_skipped s (path : bytes) retentionDays now exportedAt w :
  s = None ∨ path = [] →
  LoadFromFile s path w = (w, s, None) ∧
  SaveToFile s path retentionDays now exportedAt w = (w, s, None).
Proof.
  unfold Usage.LoadFromFile, Usage.SaveToFile.
  intros [-> | ->]; [done|]. by destruct s.
Qed.
End PersistenceFacts.

Lemma import_version_validated_witness :
  (B "usage_stats.json" ≠ [] ∧ neverFails (ReadFile (B "usage_stats.json")) = false ∧
   files sampleWorld !! B "usage_stats.json" = Some (B "7") ∧ B "7" ≠ [] ∧
   decodeVersion (B "7") = Some {| ImportVersion := 7; ImportUsage := emptySnapshot |}) ∧
  Usage.LoadFromFile StatisticsSnapshot replaceStore decodeVersion neverFails
    (Some emptySnapshot) (B "usage_stats.json") sampleWorld =
    (logCall (ReadFile (B "usage_stats.json")) sampleWorld, Some emptySnapshot,
     Some (ErrUnsupportedVersion 7)) ∧
  Usage.ImportUsageStatistics StatisticsSnapshot snapshotStore mergeStore decodeVersion
    (Some emptySnapshot) (Some (B "7")) =
    (Some emptySnapshot, BadRequest (B "unsupported version")).
Proof.
  assert (B "usage_stats.json" ≠ [] ∧ neverFails (ReadFile (B "usage_stats.json")) = false ∧
   files sampleWorld !! B "usage_stats.json" = Some (B "7") ∧ B "7" ≠ [] ∧
   decodeVersion (B "7") = Some {| ImportVersion := 7; ImportUsage := emptySnapshot |})
    as H.
  { repeat split; try done. }
  split; [exact H|].
  destruct H as (H1 & H2 & H3 & H4 & H5).
  exact (import_version_validated StatisticsSnapshot snapshotStore replaceStore mergeStore
           decodeVersion neverFails emptySnapshot (B "usage_stats.json") sampleWorld
           (B "7") _ H1 H2 H3 H4 H5).
Defined.

Lemma persistence_skipped_witness :
  (@None StatisticsSnapshot = None ∨ B "usage_stats.json" = []) ∧
  Usage.LoadFromFile StatisticsSnapshot replaceStore decodeVersion neverFails
    None (B "usage_stats.json") sampleWorld = (sampleWorld, None, None) ∧
  Usage.SaveToFile StatisticsSnapshot snapshotStore encodeFixed dirOf neverFails
    None (B "usage_stats.json") 30 0 0 sampleWorld = (sampleWorld, None, None).
Proof.
  split; [by left|].
  apply (persistence_skipped StatisticsSnapshot snapshotStore replaceStore
           decodeVersion encodeFixed dirOf neverFails). by left.
Defined.

Section StripFacts.

Lemma stripModel_eq cutoff m :
  stripModel cutoff m =
    {| ModelTotalRequests := ModelTotalRequests m;
       ModelTotalTokens := ModelTotalTokens m;
       Details := List.filter (λ d, cutoff <? Timestamp d) (Details m) |}.
Proof.
  unfold stripModel. case_bool_decide as E; [|done].
  destruct m as [r t d]. simpl in *. by destruct d.
Qed.

Lemma stripAPI_eq cutoff a :
  stripAPI cutoff a =
    {| APITotalRequests := APITotalRequests a;
       APITotalTokens := APITotalTokens a;
       Models := stripModel cutoff <$> Models a |}.
Proof.
  unfold stripAPI. case_bool_decide as E; [|done].
  apply map_size_empty_iff in E. destruct a as [r t m]. simpl in *.
  by rewrite E, fmap_empty.
Qed.

Lemma stripRequestDetails_eq now snap retentionDays :
  stripRequestDetails now (Some snap) retentionDays =
    Some {| TotalRequests := TotalRequests snap;
            TotalTokens := TotalTokens snap;
            SuccessCount := SuccessCount snap;
            FailureCount := FailureCount snap;
            APIs := stripAPI
                      (now + retentionOffset
                               (if retentionDays <=? 0 then 30 else retentionDays))
                    <$> APIs snap |}.
Proof.
  unfold stripRequestDetails. case_bool_decide as E; [|done].
  apply map_size_empty_iff in E. destruct snap as [a b c d m]. simpl in *.
  by rewrite E, fmap_empty.
Qed.

Lemma filter_later c1 c2 (l : list RequestDetail) :
  c1 ≤ c2 →
  List.filter (λ d, c2 <? Timestamp d) (List.filter (λ d, c1 <? Timestamp d) l)
  = List.filter (λ d, c2 <? Timestamp d) l.
Proof.
  intros H. induction l as [|d l IH]; [done|]. simpl.
  destruct (Z.ltb_spec c1 (Timestamp d)); simpl.
  - by rewrite IH.
  - rewrite IH. destruct (Z.ltb_spec c2 (Timestamp d)); [lia|done].
Qed.

Lemma stripModel_later c1 c2 m :
  c1 ≤ c2 → stripModel c2 (stripModel c1 m) = stripModel c2 m.
Proof.
  intros H. rewrite (stripModel_eq c1), !(stripModel_eq c2). simpl.
  by rewrite filter_later.
Qed.

Lemma stripAPI_later c1 c2 a :
  c1 ≤ c2 → stripAPI c2 (stripAPI c1 a) = stripAPI c2 a.
Proof.
  intros H. rewrite (stripAPI_eq c1), !(stripAPI_eq c2). simpl. f_equal.
  rewrite <- map_fmap_compose. apply map_fmap_ext. intros k m _. simpl.
  by apply stripModel_later.
Qed.

(** X14.  For every number of days, also one whose length in nanoseconds wraps
    around, [stripRequestDetails] only filters: each (api, model) keeps
    the details strictly after the cut-off it computed, in their order,
    every counter is as it was and no api or model is added or removed. *)
Theorem stripRequestDetails_only_filters now snap retentionDays :
  ∃ after,
    stripRequestDetails now (Some snap) retentionDays = Some after ∧
    retained (now + retentionOffset (if retentionDays <=? 0 then 30 else retentionDays))
      snap after.
Proof.
  rewrite stripRequestDetails_eq. eexists. split; [done|]. apply retained_strip.
Qed.

(** X15.  Stripping at a later time what was stripped at an earlier one, with
    the same retention, gives what stripping the original at the later
    time gives; at the same time, stripping twice is stripping once. *)
Theorem stripRequestDetails_later now1 now2 snapshot retentionDays :
  now1 ≤ now2 →
  stripRequestDetails now2 (stripRequestDetails now1 snapshot retentionDays) retentionDays
  = stripRequestDetails now2 snapshot retentionDays.
Proof.
  intros H. destruct snapshot as [snap|]; [|done].
  rewrite (stripRequestDetails_eq now1), !(stripRequestDetails_eq now2). simpl.
  do 2 f_equal. rewrite <- map_fmap_compose. apply map_fmap_ext. intros k a _. simpl.
  apply stripAPI_later. lia.
Qed.
End StripFacts.

Lemma stripRequestDetails_later_witness :
  sampleNow ≤ sampleNow + Hour ∧
  stripRequestDetails (sampleNow + Hour)
    (stripRequestDetails sampleNow
       (Some (sampleSnapshot [sampleDetail (sampleNow - 40 * 24 * Hour);
                              sampleDetail (sampleNow - 24 * Hour)])) 30) 30
  = stripRequestDetails (sampleNow + Hour)
      (Some (sampleSnapshot [sampleDetail (sampleNow - 40 * 24 * Hour);
                             sampleDetail (sampleNow - 24 * Hour)])) 30.
Proof.
  assert (sampleNow ≤ sampleNow + Hour) as H by (unfold Hour; lia).
  split; [exact H|]. exact (stripRequestDetails_later _ _ _ _ H).
Defined.

Section FileFacts.
Variable RequestStatistics : Type.
Variable Snapshot : RequestStatistics -> StatisticsSnapshot.
Variable Replace : RequestStatistics -> StatisticsSnapshot -> RequestStatistics.
Variable MergeSnapshot :
  RequestStatistics -> StatisticsSnapshot -> RequestStatistics * MergeResult.
Variable jsonUnmarshal : bytes -> option ImportPayload.
Variable jsonMarshalIndent : ExportPayload -> option bytes.
Variable filepathDir : bytes -> bytes.
Variable fails : FSCall -> bool.

Local Abbreviation LoadFromFile :=
  (Usage.LoadFromFile RequestStatistics Replace jsonUnmarshal fails).
Local Abbreviation SaveToFile :=
  (Usage.SaveToFile RequestStatistics Snapshot jsonMarshalIndent filepathDir fails).
Local Abbreviation ImportUsageStatistics :=
  (Usage.ImportUsageStatistics RequestStatistics Snapshot MergeSnapshot jsonUnmarshal).
Local Abbreviation ExportUsageStatistics :=
  (Usage.ExportUsageStatistics RequestStatistics Snapshot).

Lemma tmp_differs (path : bytes) : path ++ B ".tmp" ≠ path.
Proof. intros H. apply (f_equal length) in H. rewrite length_app in H. simpl in H. lia. Qed.

(** X16.  [SaveToFile] never changes the store, touches no file but the target
    and its [.tmp] neighbour, and replaces the target only as a whole:
    when it returns an error the target is as it was, and when it returns
    nil after doing its work the target holds the encoding of the
    version-1 payload with the stripped snapshot and the [.tmp] file is
    gone. *)
Theorem SaveToFile_outcome s (path : bytes) retentionDays now exportedAt w :
  (SaveToFile s path retentionDays now exportedAt w).1.2 = s ∧
  otherFilesKept path w (SaveToFile s path retentionDays now exportedAt w).1.1 ∧
  match (SaveToFile s path retentionDays now exportedAt w).2 with
  | Some _ =>
      files (SaveToFile s path retentionDays now exportedAt w).1.1 !! path
      = files w !! path
  | None =>
      match s with
      | Some st =>
          path = [] ∨
          (files (SaveToFile s path retentionDays now exportedAt w).1.1 !! path
           = jsonMarshalIndent
               {| Version := 1; ExportedAt := exportedAt;
                  Usage := default (Snapshot st)
                             (stripRequestDetails now (Some (Snapshot st))
                                retentionDays) |} ∧
           files (SaveToFile s path retentionDays now exportedAt w).1.1
             !! (path ++ B ".tmp") = None)
      | None => True
      end
  end.
Proof.
  unfold Usage.SaveToFile, otherFilesKept.
  destruct s as [st|]; [|done].
  case_bool_decide as Hp; [split_and!; simpl; auto|].
  change (match stripRequestDetails now (Some (Snapshot st)) retentionDays with
          | Some snap => snap | None => Snapshot st end)
    with (default (Snapshot st)
            (stripRequestDetails now (Some (Snapshot st)) retentionDays)).
  destruct (jsonMarshalIndent _) as [data|] eqn:Ej; [|done].
  unfold osMkdirAll, osWriteFile, osRename.
  pose proof (tmp_differs path) as Htmp.
  destruct (fails (MkdirAll _ _)); simpl; [done|].
  destruct (fails (WriteFile _ _ _)); simpl; [done|].
  rewrite lookup_insert_eq.
  destruct (fails (Rename _ _)); simpl.
  - split_and!; [done| |].
    + intros p _ Hq. by rewrite lookup_insert_ne.
    + by rewrite lookup_insert_ne.
  - split_and!; [done| |].
    + intros p Hq Hq'. by rewrite lookup_insert_ne, lookup_delete_ne, lookup_insert_ne.
    + right. rewrite lookup_insert_eq. split; [done|].
      by rewrite lookup_insert_ne, lookup_delete_eq.
Qed.

(** X17.  [LoadFromFile] only reads: the files are as before and at most one
    [ReadFile] of the path is made.  With an error the store is as
    before; without one it is as before, or was replaced by the usage of a
    payload of version 0 or 1 decoded from the non-empty content of the
    file. *)
Theorem LoadFromFile_frame s (path : bytes) w :
  files (LoadFromFile s path w).1.1 = files w ∧
  (calls (LoadFromFile s path w).1.1 = calls w ∨
   calls (LoadFromFile s path w).1.1 = calls w ++ [ReadFile path]) ∧
  match (LoadFromFile s path w).2 with
  | Some _ => (LoadFromFile s path w).1.2 = s
  | None =>
      (LoadFromFile s path w).1.2 = s ∨
      ∃ st (data : bytes) payload,
        s = Some st ∧ files w !! path = Some data ∧ data ≠ [] ∧
        jsonUnmarshal data = Some payload ∧
        (ImportVersion payload = 0 ∨ ImportVersion payload = 1) ∧
        (LoadFromFile s path w).1.2 = Some (Replace st (ImportUsage payload))
  end.
Proof.
  unfold Usage.LoadFromFile. destruct s as [st|]; [|simpl; by auto].
  case_bool_decide as Hp; [simpl; by auto|]. unfold osReadFile.
  destruct (fails (ReadFile path)); [simpl; by auto|].
  destruct (files w !! path) as [data|] eqn:Ef; [|simpl; by auto].
  case_bool_decide as Hd; [simpl; by auto|].
  destruct (jsonUnmarshal data) as [payload|] eqn:Ej; [|simpl; by auto].
  assert (data ≠ []) as Hne by (by destruct data).
  destruct (negb _ && negb _) eqn:Ev; simpl; [by auto|].
  split_and!; auto. right. exists st, data, payload. split_and!; auto.
  repeat case_bool_decide; simpl in Ev; auto; discriminate.
Qed.

(** X19.  The import handler changes the store only with a 200: every 400
    leaves it as it was, and the 200 carries the counts of the merge and
    the totals of the store after it. *)
Theorem ImportUsageStatistics_frame usageStats body :
  match (ImportUsageStatistics usageStats body).2 with
  | BadRequest _ => (ImportUsageStatistics usageStats body).1 = usageStats
  | StatusOK added skipped total failed =>
      ∃ st data payload,
        usageStats = Some st ∧ body = Some data ∧
        jsonUnmarshal data = Some payload ∧
        (ImportVersion payload = 0 ∨ ImportVersion payload = 1) ∧
        (ImportUsageStatistics usageStats body).1
          = Some (MergeSnapshot st (ImportUsage payload)).1 ∧
        added = Added (MergeSnapshot st (ImportUsage payload)).2 ∧
        skipped = Skipped (MergeSnapshot st (ImportUsage payload)).2 ∧
        total = TotalRequests (Snapshot (MergeSnapshot st (ImportUsage payload)).1) ∧
        failed = FailureCount (Snapshot (MergeSnapshot st (ImportUsage payload)).1)
  end.
Proof.
  unfold Usage.ImportUsageStatistics. destruct usageStats as [st|]; [|done].
  destruct body as [data|]; [|done].
  destruct (jsonUnmarshal data) as [payload|] eqn:Ej; [|done].
  destruct (MergeSnapshot st (ImportUsage payload)) as [st' result] eqn:Em.
  repeat case_bool_decide; simpl; try done;
    exists st, data, payload; rewrite Em; split_and!; auto.
Qed.

(** X18.  What [SaveToFile] writes, [LoadFromFile] reads back: when the calls
    succeed and the codec returns the payload it was given, the save
    returns nil and a load from the path replaces the store by the
    stripped snapshot that was saved. *)
Theorem save_then_load st st0 (path : bytes) retentionDays now exportedAt w (data : bytes) :
  path ≠ [] → data ≠ [] →
  jsonMarshalIndent
    {| Version := 1; ExportedAt := exportedAt;
       Usage := default (Snapshot st)
                  (stripRequestDetails now (Some (Snapshot st)) retentionDays) |}
    = Some data →
  jsonUnmarshal data
    = Some {| ImportVersion := 1;
              ImportUsage := default (Snapshot st)
                               (stripRequestDetails now (Some (Snapshot st))
                                  retentionDays) |} →
  fails (MkdirAll (filepathDir path) 448) = false →
  fails (WriteFile (path ++ B ".tmp") data 384) = false →
  fails (Rename (path ++ B ".tmp") path) = false →
  fails (ReadFile path) = false →
  (SaveToFile (Some st) path retentionDays now exportedAt w).2 = None ∧
  (LoadFromFile (Some st0) path
     (SaveToFile (Some st) path retentionDays now exportedAt w).1.1).1.2
    = Some (Replace st0
              (default (Snapshot st)
                 (stripRequestDetails now (Some (Snapshot st)) retentionDays))) ∧
  (LoadFromFile (Some st0) path
     (SaveToFile (Some st) path retentionDays now exportedAt w).1.1).2 = None.
Proof.
  intros Hp Hd Hm Hu F1 F2 F3 F4.
  unfold Usage.SaveToFile, Usage.LoadFromFile.
  rewrite !(bool_decide_eq_false_2 (path = [])) by done.
  change (match stripRequestDetails now (Some (Snapshot st)) retentionDays with
          | Some snap => snap | None => Snapshot st end)
    with (default (Snapshot st)
            (stripRequestDetails now (Some (Snapshot st)) retentionDays)).
  rewrite Hm. unfold osMkdirAll, osWriteFile, osRename, osReadFile.
  cbv zeta. rewrite F1, F2, F3, F4. simpl. rewrite lookup_insert_eq. simpl.
  rewrite lookup_insert_eq.
  rewrite (bool_decide_eq_false_2 (length data = 0%nat)) by by destruct data.
  rewrite Hu. simpl. done.
Qed.

(** X20.  What the export handler returns, the import handler accepts: the
    exported payload has version 1, and a body that decodes to it is
    merged into the importing store with a 200. *)
Theorem export_then_import usageStats exportedAt st (body : bytes) :
  jsonUnmarshal body
    = Some {| ImportVersion := Version (ExportUsageStatistics usageStats exportedAt);
              ImportUsage := Usage (ExportUsageStatistics usageStats exportedAt) |} →
  (ImportUsageStatistics (Some st) (Some body)).1
    = Some (MergeSnapshot st
              (match usageStats with
               | Some src => Snapshot src
               | None => emptySnapshot
               end)).1 ∧
  ∃ added skipped total failed,
    (ImportUsageStatistics (Some st) (Some body)).2 = StatusOK added skipped total failed.
Proof.
  intros Hu. unfold Usage.ImportUsageStatistics. rewrite Hu. simpl.
  destruct (MergeSnapshot st _) as [st' result]. simpl. eauto 10.
Qed.
End FileFacts.

Lemma save_then_load_witness :
  (B "usage_stats.json" ≠ [] ∧ B "{}" ≠ [] ∧
   encodeFixed
     {| Version := 1; ExportedAt := 0;
        Usage := default (snapshotStore emptySnapshot)
                   (stripRequestDetails sampleNow
                      (Some (snapshotStore emptySnapshot)) 30) |} = Some (B "{}") ∧
   decodeFixed (B "{}")
     = Some {| ImportVersion := 1;
               ImportUsage := default (snapshotStore emptySnapshot)
                                (stripRequestDetails sampleNow
                                   (Some (snapshotStore emptySnapshot)) 30) |}) ∧
  (Usage.SaveToFile StatisticsSnapshot snapshotStore encodeFixed dirOf neverFails
     (Some emptySnapshot) (B "usage_stats.json") 30 sampleNow 0 sampleWorld).2 = None ∧
  (Usage.LoadFromFile StatisticsSnapshot replaceStore decodeFixed neverFails
     (Some (sampleSnapshot [])) (B "usage_stats.json")
     (Usage.SaveToFile StatisticsSnapshot snapshotStore encodeFixed dirOf neverFails
        (Some emptySnapshot) (B "usage_stats.json") 30 sampleNow 0 sampleWorld).1.1).1.2
    = Some (replaceStore (sampleSnapshot [])
              (default (snapshotStore emptySnapshot)
                 (stripRequestDetails sampleNow
                    (Some (snapshotStore emptySnapshot)) 30))) ∧
  (Usage.LoadFromFile StatisticsSnapshot replaceStore decodeFixed neverFails
     (Some (sampleSnapshot [])) (B "usage_stats.json")
     (Usage.SaveToFile StatisticsSnapshot snapshotStore encodeFixed dirOf neverFails
        (Some emptySnapshot) (B "usage_stats.json") 30 sampleNow 0 sampleWorld).1.1).2
    = None.
Proof.
  assert (B "usage_stats.json" ≠ [] ∧ B "{}" ≠ [] ∧
   encodeFixed
     {| Version := 1; ExportedAt := 0;
        Usage := default (snapshotStore emptySnapshot)
                   (stripRequestDetails sampleNow
                      (Some (snapshotStore emptySnapshot)) 30) |} = Some (B "{}") ∧
   decodeFixed (B "{}")
     = Some {| ImportVersion := 1;
               ImportUsage := default (snapshotStore emptySnapshot)
                                (stripRequestDetails sampleNow
                                   (Some (snapshotStore emptySnapshot)) 30) |}) as H.
  { split_and!; [done|done|reflexivity|by vm_compute]. }
  split; [exact H|]. destruct H as (H1 & H2 & H3 & H4).
  exact (save_then_load StatisticsSnapshot snapshotStore replaceStore decodeFixed
           encodeFixed dirOf neverFails emptySnapshot (sampleSnapshot [])
           (B "usage_stats.json") 30 sampleNow 0 sampleWorld (B "{}")
           H1 H2 H3 H4 eq_refl eq_refl eq_refl eq_refl).
Defined.

Lemma export_then_import_witness :
  decodeFixed (B "{}")
    = Some {| ImportVersion :=
                Version (Usage.ExportUsageStatistics StatisticsSnapshot snapshotStore
                           (Some emptySnapshot) 0);
              ImportUsage :=
                Usage (Usage.ExportUsageStatistics StatisticsSnapshot snapshotStore
                         (Some emptySnapshot) 0) |} ∧
  (Usage.ImportUsageStatistics StatisticsSnapshot snapshotStore mergeStore decodeFixed
     (Some (sampleSnapshot [])) (Some (B "{}"))).1
    = Some (mergeStore (sampleSnapshot []) (snapshotStore emptySnapshot)).1 ∧
  ∃ added skipped total failed,
    (Usage.ImportUsageStatistics StatisticsSnapshot snapshotStore mergeStore decodeFixed
       (Some (sampleSnapshot [])) (Some (B "{}"))).2
    = StatusOK added skipped total failed.
Proof.
  assert (decodeFixed (B "{}")
    = Some {| ImportVersion :=
                Version (Usage.ExportUsageStatistics StatisticsSnapshot snapshotStore
                           (Some emptySnapshot) 0);
              ImportUsage :=
                Usage (Usage.ExportUsageStatistics StatisticsSnapshot snapshotStore
                         (Some emptySnapshot) 0) |}) as H by reflexivity.
  split; [exact H|].
  exact (export_then_import StatisticsSnapshot snapshotStore mergeStore decodeFixed
           (Some emptySnapshot) 0 (sampleSnapshot []) (B "{}") H).
Defined.

End UsageFacts.
